(** * f1-race-replay: the telemetry pipeline and the leaderboard verifier

    A shallow embedding of [src/f1_data.py] and
    [src/leaderboard_verifier.py], followed by the properties of the
    design document that were checked against it (C1 to C10) and by
    further properties of the code (X1 to X20).

    Conventions of the embedding.
    - The value of a Python float (and of an entry of a numpy [float64]
      array) is a rational [Q].  The arithmetic on the samples is exact;
      where the timeline is built, the rounding of the double operations
      decides the number of ticks and is modelled ([Np.fl]).  Infinities
      and NaN are outside the model of the telemetry; the JSON documents
      of the verifier have them.  Two rationals are compared with
      [==] ([Qeq]) unless the code computes them by the very same
      operations.
    - A numpy array is a [list Q]; a Python [dict] is an association list
      in insertion order whose keys are kept unique by [PyDict.set].
    - A Python exception is the [Raise] outcome of the [result] monad.
    - The world outside the program (the HTTP endpoint, the FastF1
      session, the cache file) is an explicit argument. *)

From Stdlib Require Import String Ascii Bool Arith ZArith QArith Qround Qpower.
From Stdlib Require Import List Lia Lqa Permutation Sorted.
Import ListNotations.

(* ================================================================== *)
(** * Part I: the program                                              *)
(* ================================================================== *)

(** ** Python exceptions as a result monad *)

Inductive exn : Set :=
| TypeError
| ValueError
| IndexError
| KeyError
| AttributeError
| OverflowError
| RequestException.

Inductive result (A : Type) : Type :=
| Ok (a : A)
| Raise (e : exn).

Arguments Ok {A} a.
Arguments Raise {A} e.

Definition bind {A B : Type} (m : result A) (k : A -> result B) : result B :=
  match m with
  | Ok a => k a
  | Raise e => Raise e
  end.

Notation "x <- m ;; k" := (bind m (fun x => k))
  (at level 61, m at next level, right associativity).

(** [for x in xs: st = body(st, x)] where the body may raise. *)
Fixpoint for_each {A S : Type} (body : S -> A -> result S) (xs : list A) (st : S)
  : result S :=
  match xs with
  | [] => Ok st
  | x :: xs' => st' <- body st x ;; for_each body xs' st'
  end.

(** [enumerate(xs)] *)
Definition enumerate {A : Type} (xs : list A) : list (nat * A) :=
  combine (seq 0 (length xs)) xs.

(** [obj.get(key, default)] *)
Definition get_or {A : Type} (o : option A) (default : A) : A :=
  match o with Some a => a | None => default end.

(** ** Python dictionaries with string keys *)

Module PyDict.
Section Dict.
Context {V : Type}.

Definition dict := list (string * V).

(** [d.get(k)] *)
Fixpoint get (k : string) (d : dict) : option V :=
  match d with
  | [] => None
  | (k', v) :: d' => if String.eqb k k' then Some v else get k d'
  end.

(** [k in d] *)
Definition mem (k : string) (d : dict) : bool :=
  match get k d with Some _ => true | None => false end.

(** [d[k] = v]: an existing key keeps its place, a new one goes last. *)
Fixpoint set (k : string) (v : V) (d : dict) : dict :=
  match d with
  | [] => [(k, v)]
  | (k', v') :: d' =>
      if String.eqb k k' then (k', v) :: d' else (k', v') :: set k v d'
  end.

Definition keys (d : dict) : list string := map fst d.
Definition values (d : dict) : list V := map snd d.
Definition items (d : dict) : list (string * V) := d.
End Dict.
Arguments dict V : clear implicits.
End PyDict.

(* ------------------------------------------------------------------ *)
(** ** leaderboard_verifier.py                                         *)
(* ------------------------------------------------------------------ *)

Module Verifier.

(** *** The Jolpica reply

    [response.json()] returns whatever JSON value the body holds: the
    code reads it along the Ergast schema with [.get], [[0]], truth tests
    and a loop, and each of them has its own way to fail on a value of
    another kind. *)

(** A number with a fraction or an exponent; [NaN] and [Infinity] are
    literals that Python's decoder accepts. *)
Inductive pyfloat : Set :=
| Finite (q : Q)
| NaN
| Infinity
| MinusInfinity.

(** The members of an object are kept as the document lists them; a
    later member replaces an earlier one of the same key. *)
#[warnings="-register-all"] Inductive json : Set :=
| JNull
| JBool (b : bool)
| JInt (z : Z)
| JFloat (f : pyfloat)
| JStr (s : string)
| JArr (items : list json)
| JObj (members : list (string * json)).

(** What [requests.get(url, timeout=10)], [raise_for_status()] and
    [response.json()] can do.  The three failures are subclasses of
    [requests.exceptions.RequestException] (the last one since
    requests 2.27). *)
Inductive http_reply : Set :=
| ConnectionFailed                (* requests.get raises: no route, timeout *)
| HttpErrorStatus                 (* raise_for_status raises HTTPError *)
| InvalidJson                     (* response.json() raises JSONDecodeError *)
| JsonBody (data : json).

(** The endpoint, by year and round. *)
Definition network := Z -> Z -> http_reply.

(** The value of a key in a dictionary. *)
Definition member (key : string) (members : list (string * json)) : option json :=
  option_map snd (find (fun kv => String.eqb key (fst kv)) (rev members)).

(** [v.get(key, default)]: only a dictionary has a [get]. *)
Definition py_get (key : string) (default : json) (v : json) : result json :=
  match v with
  | JObj members => Ok (get_or (member key members) default)
  | _ => Raise AttributeError
  end.

(** [not v] is false for: *)
Definition truthy (v : json) : bool :=
  match v with
  | JNull => false
  | JBool b => b
  | JInt z => negb (z =? 0)%Z
  | JFloat (Finite q) => negb (Qeq_bool q 0)
  | JFloat _ => true
  | JStr s => negb (String.eqb s EmptyString)
  | JArr items => match items with [] => false | _ => true end
  | JObj members => match members with [] => false | _ => true end
  end.

(** [v[0]]: the first item of a list, the first character of a string
    (here its first byte: either is a string, which is all that the code
    can tell); a dictionary has no key 0 (its keys are strings); nothing
    else can be subscripted. *)
Definition py_first (v : json) : result json :=
  match v with
  | JArr (x :: _) => Ok x
  | JArr [] => Raise IndexError
  | JStr (String c _) => Ok (JStr (String c EmptyString))
  | JStr EmptyString => Raise IndexError
  | JObj _ => Raise KeyError
  | JNull | JBool _ | JInt _ | JFloat _ => Raise TypeError
  end.

(** [for x in v]: the items of a list, the characters of a string, the
    keys of a dictionary; nothing else can be iterated. *)
Definition py_iter (v : json) : result (list json) :=
  match v with
  | JArr items => Ok items
  | JStr s => Ok (map (fun c => JStr (String c EmptyString)) (list_ascii_of_string s))
  | JObj members => Ok (map (fun kv => JStr (fst kv)) members)
  | JNull | JBool _ | JInt _ | JFloat _ => Raise TypeError
  end.

(** *** [int(position_str)] on an ASCII string

    Optional surrounding white space, an optional sign, then decimal digits
    in which single underscores may separate digits.  [None] stands for
    [ValueError]. *)

Definition is_space (c : ascii) : bool :=
  let n := nat_of_ascii c in
  ((9 <=? n) && (n <=? 13) || (n =? 32))%nat.

Definition digit_of (c : ascii) : option Z :=
  let n := nat_of_ascii c in
  if ((48 <=? n) && (n <=? 57))%nat then Some (Z.of_nat n - 48)%Z else None.

Fixpoint lstrip (s : string) : string :=
  match s with
  | String c s' => if is_space c then lstrip s' else s
  | EmptyString => EmptyString
  end.

Fixpoint all_space (s : string) : bool :=
  match s with
  | String c s' => is_space c && all_space s'
  | EmptyString => true
  end.

(** [digits acc after_digit s]: [after_digit] tells whether the previous
    character was a digit (so that an underscore or the end may follow). *)
Fixpoint digits (acc : Z) (after_digit : bool) (s : string) : option Z :=
  match s with
  | EmptyString => if after_digit then Some acc else None
  | String c s' =>
      match digit_of c with
      | Some d => digits (10 * acc + d)%Z true s'
      | None =>
          if after_digit && Ascii.eqb c "_"%char then digits acc false s'
          else if after_digit && all_space s then Some acc
          else None
      end
  end.

Definition py_int (s : string) : option Z :=
  match lstrip s with
  | String "-"%char s' => option_map Z.opp (digits 0 false s')
  | String "+"%char s' => digits 0 false s'
  | s' => digits 0 false s'
  end.

(** *** fetch_race_results_from_jolpica *)

(** [int(v)] on a float: towards zero. *)
Definition float_to_int (q : Q) : Z :=
  if Qle_bool 0 q then Qfloor q else Qceiling q.

(** [try: position = int(position_str) except (ValueError, TypeError):
    position = 999].  The [OverflowError] of an infinite float is none of
    the two. *)
Definition position_of (position_str : json) : result Z :=
  match position_str with
  | JStr s =>
      match py_int s with
      | Some p => Ok p
      | None => Ok 999%Z                           (* ValueError *)
      end
  | JInt z => Ok z
  | JBool b => Ok (if b then 1 else 0)%Z
  | JFloat (Finite q) => Ok (float_to_int q)
  | JFloat NaN => Ok 999%Z                         (* ValueError *)
  | JFloat Infinity | JFloat MinusInfinity => Raise OverflowError
  | JNull | JArr _ | JObj _ => Ok 999%Z            (* TypeError *)
  end.

(** The dictionary appended to [verified_results]. *)
Record result_dict : Set := {
  rd_code : json;
  rd_position : Z;
  rd_driver_id : json;
  rd_status : json
}.

(** One turn of [for result in results]. *)
Definition parse_result (r : json) : result result_dict :=
  driver <- py_get "Driver" (JObj []) r ;;
  driver_code <- py_get "code" (JStr "") driver ;;
  position_str <- py_get "position" (JStr "") r ;;
  position <- position_of position_str ;;
  driver_id <- py_get "driverId" (JStr "") driver ;;
  status <- py_get "status" (JStr "Unknown") r ;;
  Ok {| rd_code := driver_code;
        rd_position := position;
        rd_driver_id := driver_id;
        rd_status := status |}.

(** The document the [try] body works on. *)
Definition http_json (r : http_reply) : result json :=
  match r with
  | JsonBody data => Ok data
  | ConnectionFailed | HttpErrorStatus | InvalidJson => Raise RequestException
  end.

(** [data.get('MRData', {}).get('RaceTable', {}).get('Races', [])] *)
Definition races_of (data : json) : result json :=
  mrdata <- py_get "MRData" (JObj []) data ;;
  table <- py_get "RaceTable" (JObj []) mrdata ;;
  py_get "Races" (JArr []) table.

(** The body of the [try]. *)
Definition fetch_try (net : network) (year round_number : Z)
  : result (option (list result_dict)) :=
  data <- http_json (net year round_number) ;;
  races <- races_of data ;;
  if negb (truthy races) then Ok None              (* if not races *)
  else
    race <- py_first races ;;
    results <- py_get "Results" (JArr []) race ;;
    if negb (truthy results) then Ok None          (* if not results *)
    else
      items <- py_iter results ;;
      verified_results <-
        for_each (fun verified_results r =>
                    d <- parse_result r ;;
                    Ok (verified_results ++ [d]))
          items [] ;;
      Ok (Some verified_results).

(** The [try] with its two [except] clauses: what the function returns. *)
Definition fetch_results (net : network) (year round_number : Z)
  : result (option (list result_dict)) :=
  match fetch_try net year round_number with
  | Raise RequestException => Ok None
  | Raise KeyError => Ok None
  | Raise IndexError => Ok None
  | r => r
  end.

(** What the caller makes of the list.  It keys a dictionary by the codes
    (line 112) and looks up the driver codes of the current mapping, which
    are strings, in it.  A code that is a list or an object cannot be
    hashed: the assignment raises [TypeError].  A code of another kind
    that is no string (a number, a boolean, null) is a key that no driver
    code equals.  A result is therefore listed here under its code when
    the code is a string, and left out otherwise: the mappings below are
    the dictionaries of the code on their string keys. *)
Record verified_result : Set := {
  code : string;
  position : Z;
  driver_id : json;
  status : json
}.

Fixpoint keyed_results (results : list result_dict) : result (list verified_result) :=
  match results with
  | [] => Ok []
  | d :: results' =>
      match rd_code d with
      | JStr s =>
          rest <- keyed_results results' ;;
          Ok ({| code := s;
                 position := rd_position d;
                 driver_id := rd_driver_id d;
                 status := rd_status d |} :: rest)
      | JArr _ | JObj _ => Raise TypeError         (* unhashable type *)
      | JNull | JBool _ | JInt _ | JFloat _ => keyed_results results'
      end
  end.

(** [fetch_race_results_from_jolpica] as [verify_and_correct_final_positions]
    reads its result: the results keyed by a string, in their order. *)
Definition fetch_race_results_from_jolpica (net : network) (year round_number : Z)
  : result (option (list verified_result)) :=
  api_results <- fetch_results net year round_number ;;
  match api_results with
  | None => Ok None
  | Some results =>
      verified_results <- keyed_results results ;;
      Ok (Some verified_results)
  end.

(** *** verify_and_correct_final_positions *)

Record discrepancy : Set := {
  disc_driver : string;
  telemetry_position : Z;
  verified_position : Z
}.

(** [for result in api_results: verified_positions[code] = position] *)
Definition build_verified_positions (api_results : list verified_result) : PyDict.dict Z :=
  fold_left (fun d r => PyDict.set (code r) (position r) d) api_results [].

(** One turn of [for code in current_positions]; [code] is a key of
    [current_positions], so that [current_positions[code]] is there. *)
Definition compare_position (current_positions verified_positions : PyDict.dict Z)
  (discrepancies : list discrepancy) (c : string) : list discrepancy :=
  match PyDict.get c verified_positions with       (* if code in verified_positions *)
  | Some verified_pos =>
      match PyDict.get c current_positions with
      | Some current_pos =>
          if Z.eqb current_pos verified_pos then discrepancies
          else discrepancies ++ [{| disc_driver := c;
                                    telemetry_position := current_pos;
                                    verified_position := verified_pos |}]
      | None => discrepancies
      end
  | None => discrepancies
  end.

Definition find_discrepancies (current_positions verified_positions : PyDict.dict Z)
  : list discrepancy :=
  fold_left (compare_position current_positions verified_positions)
    (PyDict.keys current_positions) [].

(** Everything after the fetch. *)
Definition correct_positions (current_positions : PyDict.dict Z)
  (api_results : option (list verified_result)) : PyDict.dict Z :=
  match api_results with
  | None | Some [] => current_positions            (* if not api_results *)
  | Some rs =>
      let verified_positions := build_verified_positions rs in
      match find_discrepancies current_positions verified_positions with
      | _ :: _ => verified_positions
      | [] => current_positions
      end
  end.

Definition verify_and_correct_final_positions (current_positions : PyDict.dict Z)
  (net : network) (year round_number : Z) : result (PyDict.dict Z) :=
  api_results <- fetch_race_results_from_jolpica net year round_number ;;
  Ok (correct_positions current_positions api_results).

End Verifier.


(* ------------------------------------------------------------------ *)
(** ** f1_data.py                                                      *)
(* ------------------------------------------------------------------ *)

(** *** The numpy and built-in operations the pipeline uses *)

Module Np.
Local Open Scope Q_scope.

Definition qmin (a b : Q) : Q := if Qle_bool a b then a else b.
Definition qmax (a b : Q) : Q := if Qle_bool b a then a else b.

(** [a.min()] and [a.max()]; numpy raises [ValueError] on an empty array. *)
Definition min (a : list Q) : result Q :=
  match a with
  | [] => Raise ValueError
  | x :: xs => Ok (fold_left qmin xs x)
  end.

Definition max (a : list Q) : result Q :=
  match a with
  | [] => Raise ValueError
  | x :: xs => Ok (fold_left qmax xs x)
  end.

(** [np.full_like(a, v)] *)
Definition full_like (a : list Q) (v : Q) : list Q := map (fun _ => v) a.

(** A stable insertion sort: [before x y] tells that [x] may stand before
    [y]; among elements that may stand either way the input order is
    kept. *)
Fixpoint insert_sorted {A : Type} (before : A -> A -> bool) (x : A) (l : list A)
  : list A :=
  match l with
  | [] => [x]
  | y :: l' => if before x y then x :: l else y :: insert_sorted before x l'
  end.

Definition stable_sort {A : Type} (before : A -> A -> bool) (l : list A) : list A :=
  fold_right (insert_sorted before) [] l.

(** [np.argsort(a)]: the indices of [a] in increasing order of the values.
    Equal values keep their input order here, as with numpy's
    [kind='stable']; its default sort may order equal values differently,
    and the properties of Part III do not depend on that order. *)
Definition argsort (a : list Q) : list nat :=
  map snd (stable_sort (fun p q => Qle_bool (fst p) (fst q))
                       (combine a (seq 0 (length a)))).

(** [a[i]] *)
Definition item (a : list Q) (i : nat) : result Q :=
  match nth_error a i with
  | Some v => Ok v
  | None => Raise IndexError
  end.

(** [a[order]] (indexing by an array of indices) *)
Fixpoint take (a : list Q) (order : list nat) : result (list Q) :=
  match order with
  | [] => Ok []
  | i :: order' =>
      v <- item a i ;;
      vs <- take a order' ;;
      Ok (v :: vs)
  end.

(** [np.interp(x, xp, fp)] for increasing [xp]: linear between the two
    sample points around [x], the first or last value outside of them.
    [interp_from x k0 ks] is called with [fst k0 <= x] and walks the sample
    points to the last one not after [x]. *)
Fixpoint interp_from (x : Q) (k0 : Q * Q) (ks : list (Q * Q)) : Q :=
  match ks with
  | [] => snd k0
  | k1 :: ks' =>
      if Qle_bool (fst k1) x then interp_from x k1 ks'
      else if Qeq_bool (fst k0) x then snd k0
      else (snd k1 - snd k0) / (fst k1 - fst k0) * (x - fst k0) + snd k0
  end.

Definition interp_at (k0 : Q * Q) (ks : list (Q * Q)) (x : Q) : Q :=
  if Qle_bool (fst k0) x then interp_from x k0 ks else snd k0.

(** numpy raises [ValueError] when there is no sample point and when [xp]
    and [fp] differ in length. *)
Definition interp (x xp fp : list Q) : result (list Q) :=
  match combine xp fp with
  | [] => Raise ValueError
  | k0 :: ks =>
      if (length xp =? length fp)%nat then Ok (map (interp_at k0 ks) x)
      else Raise ValueError
  end.

(** [int(v)] on a float: truncation towards zero. *)
Definition int (v : Q) : Z :=
  if Qle_bool 0 v then Qfloor v else Qceiling v.

(** [round(v)]: to the nearest integer, halves to the even one. *)
Definition round (v : Q) : Z :=
  let f := Qfloor v in
  let r := v - inject_Z f in
  if Qle_bool r (1 # 2)
  then if Qeq_bool r (1 # 2) then (if Z.even f then f else f + 1)%Z else f
  else (f + 1)%Z.

(** [round(v, 6)] *)
Definition round6 (v : Q) : Q :=
  inject_Z (round (v * 1000000)) / 1000000.

(** The double nearest to a rational, halves to the even mantissa: 53
    bits of mantissa, the exponent taken as unbounded (no overflow, no
    underflow).  [binade a] is the exponent [e] of a positive [a],
    [2^e <= a < 2^(e+1)]. *)
Definition binade (a : Q) : Z :=
  let e := (Z.log2 (Qnum a) - Z.log2 (Zpos (Qden a)))%Z in
  if Qle_bool (2 ^ e) a then e else (e - 1)%Z.

Definition fl_pos (a : Q) : Q :=
  let ulp := 2 ^ (binade a - 52) in
  inject_Z (round (a / ulp)) * ulp.

Definition fl (q : Q) : Q :=
  let r := Qred q in
  match Qnum r with
  | Z0 => 0
  | Zpos _ => Qred (fl_pos r)
  | Zneg _ => Qred (- fl_pos (- r))
  end.

(** [np.arange(start, stop, step)] on doubles.  The length is the ceiling
    of the quotient [(stop - start) / step] as the two double operations
    give it; the first value is [start], the second [start + step], and
    from the third on the values are [start + i * delta] with
    [delta = (start + step) - start], every operation rounded. *)
Definition arange (start stop step : Q) : list Q :=
  let length := Z.to_nat (Qceiling (fl (fl (stop - start) / step))) in
  let next := fl (start + step) in
  let delta := fl (next - start) in
  map (fun i => match i with
                | O => start
                | S O => next
                | _ => fl (start + fl (inject_Z (Z.of_nat i) * delta))
                end)
      (seq 0 length).

(** [sub in s] on strings *)
Fixpoint contains (sub s : string) : bool :=
  if String.prefix sub s then true
  else match s with
       | String _ s' => contains sub s'
       | EmptyString => false
       end.

End Np.

Module F1Data.
Local Open Scope Q_scope.

Definition FPS : Q := 25.
Definition DT : Q := Np.fl (1 / FPS).

(** *** The FastF1 session, as far as the pipeline reads it *)

(** A row of [lap.get_telemetry()]. *)
Record TelemetrySample : Set := {
  SessionTime : Q;                 (* .dt.total_seconds() *)
  X : Q;
  Y : Q;
  Distance : Q;
  RelativeDistance : Q;
  Speed : Q;
  nGear : Q;
  DRS : Q
}.

Record Lap : Set := {
  LapNumber : Q;
  Compound : string;
  get_telemetry : list TelemetrySample
}.

(** A row of [session.results] with its cells filled: the abbreviation,
    the status and the classified position are strings, the laps a
    number.  [None] is a column that the table does not have, for which
    [driver_result.get] gives its default.  A cell that pandas holds as
    NaN (on which [int] raises) is outside this type. *)
Record DriverResult : Set := {
  Abbreviation : option string;
  Status : option string;
  ClassifiedPosition : option string;
  Laps : option Q
}.

(** A record of [session.track_status]. *)
Record TrackStatusEvent : Set := {
  Time : Q;                        (* timedelta.total_seconds(status['Time']) *)
  TrackStatus : string
}.

Record Session : Type := {
  drivers : list string;                       (* driver numbers *)
  get_driver_abbreviation : string -> string;  (* get_driver(num)["Abbreviation"] *)
  results : list DriverResult;
  pick_drivers : string -> list Lap;           (* session.laps.pick_drivers(num) *)
  track_status : list TrackStatusEvent
}.

(** *** Driver status *)

Record driver_status : Set := {
  status : string;
  classification : string;
  laps_completed : Z;
  is_finished : bool;
  is_dnf : bool
}.

Definition classification_is_dnf (c : string) : bool :=
  existsb (String.eqb c) ["R"; "D"; "E"; "W"; "N"]%string.

(** One turn of [for _, driver_result in results.iterrows()]. *)
Definition extract_status (driver_status_map : PyDict.dict driver_status)
  (driver_result : DriverResult) : PyDict.dict driver_status :=
  match Abbreviation driver_result with
  | None | Some EmptyString => driver_status_map          (* if code: *)
  | Some code =>
      let status := get_or (Status driver_result) "Unknown"%string in
      let classification := get_or (ClassifiedPosition driver_result) "N"%string in
      let laps_completed := get_or (Laps driver_result) 0 in
      let is_finished :=
        Np.contains "Finished" status || Np.contains "+" status in
      let is_dnf :=
        classification_is_dnf classification
        || (negb is_finished && negb (Qle_bool laps_completed 0)) in
      PyDict.set code
        {| status := status;
           classification := classification;
           laps_completed :=
             if Qeq_bool laps_completed 0 then 0%Z else Np.int laps_completed;
           is_finished := is_finished;
           is_dnf := is_dnf |}
        driver_status_map
  end.

Definition extract_driver_status (results : list DriverResult)
  : PyDict.dict driver_status :=
  fold_left extract_status results [].

(** *** 1. Per-driver telemetry *)

(** The ten arrays kept for a driver: the values of [driver_data[code]] and
    of [resampled_data[code]], and, per lap, what is appended to [t_all],
    [x_all], ... *)
Record channels : Set := {
  ch_t : list Q;
  ch_x : list Q;
  ch_y : list Q;
  ch_dist : list Q;
  ch_rel_dist : list Q;
  ch_lap : list Q;
  ch_tyre : list Q;
  ch_speed : list Q;
  ch_gear : list Q;
  ch_drs : list Q
}.

Section WithTyres.

(** [get_tyre_compound_int] of [src/lib/tyres.py], a lookup table outside
    the two modules embedded here; the tyre channel carries whatever it
    returns. *)
Variable get_tyre_compound_int : string -> Q.

(** The state of [for _, lap in laps_driver.iterlaps()]: the per-lap
    arrays appended so far (one [channels] per lap stands for the ten
    lists [t_all], [x_all], ...) and [total_dist_so_far]. *)
Record lap_acc : Set := {
  all_laps : list channels;
  total_dist_so_far : Q
}.

Definition lap_step (acc : lap_acc) (lap : Lap) : result lap_acc :=
  let lap_tel := get_telemetry lap in
  let lap_number := LapNumber lap in
  let tyre_compund_as_int := get_tyre_compound_int (Compound lap) in
  match lap_tel with
  | [] => Ok acc                                   (* if lap_tel.empty: continue *)
  | _ =>
      let t_lap := map SessionTime lap_tel in
      let d_lap := map Distance lap_tel in
      d_min <- Np.min d_lap ;;
      let d_lap := map (fun d => d - d_min) d_lap in
      lap_length <- Np.max d_lap ;;
      let race_d_lap := map (fun d => total_dist_so_far acc + d) d_lap in
      Ok {| all_laps := all_laps acc ++
              [{| ch_t := t_lap;
                  ch_x := map X lap_tel;
                  ch_y := map Y lap_tel;
                  ch_dist := race_d_lap;
                  ch_rel_dist := map RelativeDistance lap_tel;
                  ch_lap := Np.full_like t_lap lap_number;
                  ch_tyre := Np.full_like t_lap tyre_compund_as_int;
                  ch_speed := map Speed lap_tel;
                  ch_gear := map nGear lap_tel;
                  ch_drs := map DRS lap_tel |}];
            total_dist_so_far := total_dist_so_far acc + lap_length |}
  end.

Definition normalise_laps (laps_driver : list Lap) : result lap_acc :=
  for_each lap_step laps_driver {| all_laps := []; total_dist_so_far := 0 |}.

(** [np.concatenate], channel by channel. *)
Definition concatenate (ls : list channels) : channels :=
  {| ch_t := concat (map ch_t ls);
     ch_x := concat (map ch_x ls);
     ch_y := concat (map ch_y ls);
     ch_dist := concat (map ch_dist ls);
     ch_rel_dist := concat (map ch_rel_dist ls);
     ch_lap := concat (map ch_lap ls);
     ch_tyre := concat (map ch_tyre ls);
     ch_speed := concat (map ch_speed ls);
     ch_gear := concat (map ch_gear ls);
     ch_drs := concat (map ch_drs ls) |}.

(** [t_all = t_all[order]; x_all = x_all[order]; ...] *)
Definition reorder (order : list nat) (c : channels) : result channels :=
  t <- Np.take (ch_t c) order ;;
  x <- Np.take (ch_x c) order ;;
  y <- Np.take (ch_y c) order ;;
  dist <- Np.take (ch_dist c) order ;;
  rel_dist <- Np.take (ch_rel_dist c) order ;;
  lap <- Np.take (ch_lap c) order ;;
  tyre <- Np.take (ch_tyre c) order ;;
  speed <- Np.take (ch_speed c) order ;;
  gear <- Np.take (ch_gear c) order ;;
  drs <- Np.take (ch_drs c) order ;;
  Ok {| ch_t := t; ch_x := x; ch_y := y; ch_dist := dist;
        ch_rel_dist := rel_dist; ch_lap := lap; ch_tyre := tyre;
        ch_speed := speed; ch_gear := gear; ch_drs := drs |}.

(** The trace of one driver: lines 105-194.  [None] is the [continue] of
    a driver without any sample. *)
Definition driver_trace (laps_driver : list Lap) : result (option channels) :=
  acc <- normalise_laps laps_driver ;;
  match all_laps acc with
  | [] => Ok None                                  (* if not t_all: continue *)
  | ls =>
      let merged := concatenate ls in
      let order := Np.argsort (ch_t merged) in
      sorted <- reorder order merged ;;
      Ok (Some sorted)
  end.

(** The state of [for driver_no in drivers]. *)
Record load_state : Type := {
  driver_data : PyDict.dict channels;
  global_t_min : option Q;
  global_t_max : option Q
}.

Definition load_driver (session : Session) (st : load_state) (driver_no : string)
  : result load_state :=
  let code := get_driver_abbreviation session driver_no in
  let laps_driver := pick_drivers session driver_no in
  match laps_driver with
  | [] => Ok st                                    (* if laps_driver.empty: continue *)
  | _ =>
      trace <- driver_trace laps_driver ;;
      match trace with
      | None => Ok st
      | Some data =>
          t_min <- Np.min (ch_t data) ;;
          t_max <- Np.max (ch_t data) ;;
          Ok {| driver_data := PyDict.set code data (driver_data st);
                global_t_min :=
                  Some (match global_t_min st with
                        | None => t_min
                        | Some g => Np.qmin g t_min
                        end);
                global_t_max :=
                  Some (match global_t_max st with
                        | None => t_max
                        | Some g => Np.qmax g t_max
                        end) |}
      end
  end.

Definition load_drivers (session : Session) : result load_state :=
  for_each (load_driver session) (drivers session)
    {| driver_data := []; global_t_min := None; global_t_max := None |}.

(** *** 2. The timeline *)

(** [np.arange(global_t_min, global_t_max, DT) - global_t_min] on numbers. *)
Definition timeline_grid (t_min t_max : Q) : list Q :=
  map (fun t => Np.fl (t - t_min)) (Np.arange t_min t_max DT).

(** The same on what the loop above leaves: [None] is not a number, and
    numpy's subtraction [stop - start] raises [TypeError] on it. *)
Definition build_timeline (global_t_min global_t_max : option Q)
  : result (Q * list Q) :=
  match global_t_min, global_t_max with
  | Some t_min, Some t_max => Ok (t_min, timeline_grid t_min t_max)
  | _, _ => Raise TypeError
  end.

(** *** 3. Resampling onto the timeline *)

(** One turn of [for code, data in driver_data.items()]. *)
Definition resample_driver (timeline : list Q) (t_min : Q)
  (resampled_data : PyDict.dict channels) (entry : string * channels)
  : result (PyDict.dict channels) :=
  let '(code, data) := entry in
  let t := map (fun v => v - t_min) (ch_t data) in
  let order := Np.argsort t in
  sorted <- reorder order
              {| ch_t := t; ch_x := ch_x data; ch_y := ch_y data;
                 ch_dist := ch_dist data; ch_rel_dist := ch_rel_dist data;
                 ch_lap := ch_lap data; ch_tyre := ch_tyre data;
                 ch_speed := ch_speed data; ch_gear := ch_gear data;
                 ch_drs := ch_drs data |} ;;
  let t_sorted := ch_t sorted in
  x_resampled <- Np.interp timeline t_sorted (ch_x sorted) ;;
  y_resampled <- Np.interp timeline t_sorted (ch_y sorted) ;;
  dist_resampled <- Np.interp timeline t_sorted (ch_dist sorted) ;;
  rel_dist_resampled <- Np.interp timeline t_sorted (ch_rel_dist sorted) ;;
  lap_resampled <- Np.interp timeline t_sorted (ch_lap sorted) ;;
  tyre_resampled <- Np.interp timeline t_sorted (ch_tyre sorted) ;;
  speed_resampled <- Np.interp timeline t_sorted (ch_speed sorted) ;;
  gear_resampled <- Np.interp timeline t_sorted (ch_gear sorted) ;;
  drs_resampled <- Np.interp timeline t_sorted (ch_drs sorted) ;;
  Ok (PyDict.set code
        {| ch_t := timeline;
           ch_x := x_resampled;
           ch_y := y_resampled;
           ch_dist := dist_resampled;
           ch_rel_dist := rel_dist_resampled;
           ch_lap := lap_resampled;
           ch_tyre := tyre_resampled;
           ch_speed := speed_resampled;
           ch_gear := gear_resampled;
           ch_drs := drs_resampled |}
        resampled_data).

Definition resample (timeline : list Q) (t_min : Q)
  (driver_data : PyDict.dict channels) : result (PyDict.dict channels) :=
  for_each (resample_driver timeline t_min) (PyDict.items driver_data) [].

(** *** 4. Track status intervals *)

Record track_status_interval : Set := {
  ts_status : string;
  start_time : Q;
  end_time : option Q              (* None is the JSON null *)
}.

(** [formatted_track_statuses[-1]['end_time'] = start_time] *)
Fixpoint set_last_end_time (l : list track_status_interval) (t : Q)
  : list track_status_interval :=
  match l with
  | [] => []
  | [x] => [{| ts_status := ts_status x;
               start_time := start_time x;
               end_time := Some t |}]
  | x :: l' => x :: set_last_end_time l' t
  end.

(** One turn of [for status in track_status.to_dict('records')]. *)
Definition format_track_status (t_min : Q)
  (formatted_track_statuses : list track_status_interval)
  (status : TrackStatusEvent) : list track_status_interval :=
  let seconds := Time status in
  let start_time := seconds - t_min in
  let end_time := @None Q in
  let formatted_track_statuses :=
    match formatted_track_statuses with
    | [] => formatted_track_statuses               (* if formatted_track_statuses: *)
    | _ => set_last_end_time formatted_track_statuses start_time
    end in
  formatted_track_statuses ++
    [{| ts_status := TrackStatus status;
        start_time := start_time;
        end_time := end_time |}].

Definition format_track_statuses (t_min : Q) (events : list TrackStatusEvent)
  : list track_status_interval :=
  fold_left (format_track_status t_min) events [].

(** *** 5. Frames and the live leaderboard *)

(** An entry of [snapshot]. *)
Record car : Set := {
  car_code : string;
  car_dist : Q;
  car_x : Q;
  car_y : Q;
  car_lap : Z;
  car_rel_dist : Q;
  car_tyre : Q;
  car_speed : Q;
  car_gear : Z;
  car_drs : Z
}.

(** A value of [frame_data]. *)
Record driver_frame : Set := {
  df_x : Q;
  df_y : Q;
  df_dist : Q;
  df_lap : Z;
  df_rel_dist : Q;
  df_tyre : Q;
  df_position : nat;
  df_speed : Q;
  df_gear : Z;
  df_drs : Z
}.

Record frame : Type := {
  fr_t : Q;
  fr_lap : Z;
  fr_drivers : PyDict.dict driver_frame;
  fr_race_finished : bool;
  fr_leader_finished_frame : option nat
}.

(** What the tick loop carries from one tick to the next. *)
Record asm_state : Type := {
  frames : list frame;
  driver_last_seen_lap : PyDict.dict Z;
  driver_finish_frame : PyDict.dict nat;
  race_leader_finished_frame : option nat
}.

Definition initial_state (resampled_data : PyDict.dict channels) : asm_state :=
  {| frames := [];
     driver_last_seen_lap := map (fun c => (c, 0%Z)) (PyDict.keys resampled_data);
     driver_finish_frame := [];
     race_leader_finished_frame := None |}.

(** The dictionary appended to [snapshot] for one driver at tick [i]. *)
Definition snapshot_entry (i : nat) (entry : string * channels) : result car :=
  let '(code, d) := entry in
  dist <- Np.item (ch_dist d) i ;;
  x <- Np.item (ch_x d) i ;;
  y <- Np.item (ch_y d) i ;;
  lap <- Np.item (ch_lap d) i ;;
  rel_dist <- Np.item (ch_rel_dist d) i ;;
  tyre <- Np.item (ch_tyre d) i ;;
  speed <- Np.item (ch_speed d) i ;;
  gear <- Np.item (ch_gear d) i ;;
  drs <- Np.item (ch_drs d) i ;;
  Ok {| car_code := code;
        car_dist := dist;
        car_x := x;
        car_y := y;
        car_lap := Np.round lap;
        car_rel_dist := rel_dist;
        car_tyre := tyre;
        car_speed := speed;
        car_gear := Np.int gear;
        car_drs := Np.int drs |}.

Fixpoint build_snapshot (i : nat) (entries : list (string * channels))
  : result (list car) :=
  match entries with
  | [] => Ok []
  | e :: entries' =>
      c <- snapshot_entry i e ;;
      cs <- build_snapshot i entries' ;;
      Ok (c :: cs)
  end.

(** [snapshot.sort(key=lambda r: r["dist"], reverse=True)]: largest distance
    first, equal distances in their order of insertion. *)
Definition sort_by_dist (snapshot : list car) : list car :=
  Np.stable_sort (fun a b => Qle_bool (car_dist b) (car_dist a)) snapshot.

(** Lines 313-319. *)
Definition detect_leader_finish (driver_status_map : PyDict.dict driver_status)
  (i : nat) (leader : car) (st : asm_state) : asm_state :=
  let leader_lap := car_lap leader in
  let leader_code := car_code leader in
  match PyDict.get leader_code driver_status_map with
  | Some s =>
      let leader_final_laps := laps_completed s in
      if (leader_final_laps <? leader_lap)%Z
         && match race_leader_finished_frame st with None => true | Some _ => false end
      then {| frames := frames st;
              driver_last_seen_lap := driver_last_seen_lap st;
              driver_finish_frame := PyDict.set leader_code i (driver_finish_frame st);
              race_leader_finished_frame := Some i |}
      else st
  | None => st
  end.

(** One turn of [for car in snapshot], lines 322-336. *)
Definition detect_driver_finish (driver_status_map : PyDict.dict driver_status)
  (i : nat) (st : asm_state) (c : car) : asm_state :=
  let code := car_code c in
  let current_lap := car_lap c in
  let finish :=
    match PyDict.get code driver_status_map with
    | Some s =>
        let final_laps := laps_completed s in
        if (final_laps <? current_lap)%Z
           && negb (PyDict.mem code (driver_finish_frame st))
        then if is_finished s
             then PyDict.set code i (driver_finish_frame st)
             else driver_finish_frame st
        else driver_finish_frame st
    | None => driver_finish_frame st
    end in
  {| frames := frames st;
     driver_last_seen_lap := PyDict.set code current_lap (driver_last_seen_lap st);
     driver_finish_frame := finish;
     race_leader_finished_frame := race_leader_finished_frame st |}.

(** One turn of [for idx, car in enumerate(snapshot)], lines 341-357. *)
Definition frame_entry (frame_data : PyDict.dict driver_frame) (e : nat * car)
  : PyDict.dict driver_frame :=
  let '(idx, c) := e in
  let position := (idx + 1)%nat in
  PyDict.set (car_code c)
    {| df_x := car_x c;
       df_y := car_y c;
       df_dist := car_dist c;
       df_lap := car_lap c;
       df_rel_dist := Np.round6 (car_rel_dist c);
       df_tyre := car_tyre c;
       df_position := position;
       df_speed := car_speed c;
       df_gear := car_gear c;
       df_drs := car_drs c |}
    frame_data.

Definition build_frame_data (snapshot : list car) : PyDict.dict driver_frame :=
  fold_left frame_entry (enumerate snapshot) [].

(** One turn of [for i, t in enumerate(timeline)]. *)
Definition tick (driver_status_map : PyDict.dict driver_status)
  (resampled_data : PyDict.dict channels) (st : asm_state) (it : nat * Q)
  : result asm_state :=
  let '(i, t) := it in
  snapshot <- build_snapshot i (PyDict.items resampled_data) ;;
  match snapshot with
  | [] => Ok st                                    (* if not snapshot: continue *)
  | _ =>
  let snapshot := sort_by_dist snapshot in
  match snapshot with
  | [] => Raise IndexError                         (* leader = snapshot[0] *)
  | leader :: _ =>
      let leader_lap := car_lap leader in
      let st := detect_leader_finish driver_status_map i leader st in
      let st := fold_left (detect_driver_finish driver_status_map i) snapshot st in
      let frame_data := build_frame_data snapshot in
      Ok {| frames := frames st ++
              [{| fr_t := t;
                  fr_lap := leader_lap;
                  fr_drivers := frame_data;
                  fr_race_finished :=
                    match race_leader_finished_frame st with
                    | Some _ => true
                    | None => false
                    end;
                  fr_leader_finished_frame := race_leader_finished_frame st |}];
            driver_last_seen_lap := driver_last_seen_lap st;
            driver_finish_frame := driver_finish_frame st;
            race_leader_finished_frame := race_leader_finished_frame st |}
  end
  end.

Definition build_frames (driver_status_map : PyDict.dict driver_status)
  (resampled_data : PyDict.dict channels) (timeline : list Q) : result asm_state :=
  for_each (tick driver_status_map resampled_data) (enumerate timeline)
    (initial_state resampled_data).

(** *** The whole computation

    What [get_race_telemetry] returns, without [driver_colors] (a table of
    FastF1's plotting module that the computation does not read).  Writing
    the bundle to the file of precomputed data, lines 366-382, is left
    out here; [Cache] below has it. *)
Record bundle : Type := {
  out_frames : list frame;
  out_track_statuses : list track_status_interval;
  out_driver_status : PyDict.dict driver_status;
  out_driver_finish_frames : PyDict.dict nat
}.

(** Lines 56-390: the computation from scratch. *)
Definition compute_race_telemetry (session : Session) : result bundle :=
  let driver_status_map := extract_driver_status (results session) in
  loaded <- load_drivers session ;;
  tl <- build_timeline (global_t_min loaded) (global_t_max loaded) ;;
  let '(t_min, timeline) := tl in
  resampled_data <- resample timeline t_min (driver_data loaded) ;;
  let formatted_track_statuses :=
    format_track_statuses t_min (track_status session) in
  st <- build_frames driver_status_map resampled_data timeline ;;
  Ok {| out_frames := frames st;
        out_track_statuses := formatted_track_statuses;
        out_driver_status := driver_status_map;
        out_driver_finish_frames := driver_finish_frame st |}.

(** Lines 45-53 in front of it: [cached] is the content of the file of
    precomputed data when there is one, [refresh_data] the command line
    flag. *)
Definition get_race_telemetry (refresh_data : bool) (cached : option bundle)
  (session : Session) : result bundle :=
  if refresh_data then compute_race_telemetry session
  else match cached with
       | Some precomputed => Ok precomputed
       | None => compute_race_telemetry session   (* except FileNotFoundError *)
       end.

End WithTyres.
End F1Data.

(* ------------------------------------------------------------------ *)
(** ** The rest of the two files                                       *)
(* ------------------------------------------------------------------ *)

(** *** leaderboard_verifier.py: should_verify_leaderboard *)

Module Replay.

(** [l[i]] on a list: a negative index counts from the end, an index
    outside of the list raises [IndexError]. *)
Definition list_item {A : Type} (l : list A) (i : Z) : result A :=
  let n := Z.of_nat (length l) in
  let j := if (i <? 0)%Z then (i + n)%Z else i in
  if ((j <? 0) || (n <=? j))%Z then Raise IndexError
  else match nth_error l (Z.to_nat j) with
       | Some a => Ok a
       | None => Raise IndexError
       end.

Section Frames.

(** A frame is a dictionary; [race_finished frame] is what it holds under
    ['race_finished'], [None] when the key is missing. *)
Context {F : Type}.
Variable race_finished : F -> option bool.

Definition should_verify_leaderboard (frames : list F) (current_frame_index : Z)
  : result bool :=
  if (current_frame_index <? Z.of_nat (length frames) - 1)%Z
  then Ok false                                    (* not at end of race yet *)
  else
    current_frame <- list_item frames current_frame_index ;;
    Ok (get_or (race_finished current_frame) false).

End Frames.
End Replay.

(** *** f1_data.py: get_driver_colors *)

Module Colors.

Definition hex_digit_of (c : ascii) : option Z :=
  let n := nat_of_ascii c in
  if ((48 <=? n) && (n <=? 57))%nat then Some (Z.of_nat n - 48)%Z
  else if ((97 <=? n) && (n <=? 102))%nat then Some (Z.of_nat n - 87)%Z
  else if ((65 <=? n) && (n <=? 70))%nat then Some (Z.of_nat n - 55)%Z
  else None.

(** The digits of [int(s, 16)], as [Verifier.digits] for [int(s)]. *)
Fixpoint hex_digits (acc : Z) (after_digit : bool) (s : string) : option Z :=
  match s with
  | EmptyString => if after_digit then Some acc else None
  | String c s' =>
      match hex_digit_of c with
      | Some d => hex_digits (16 * acc + d)%Z true s'
      | None =>
          if after_digit && Ascii.eqb c "_"%char then hex_digits acc false s'
          else if after_digit && Verifier.all_space s then Some acc
          else None
      end
  end.

(** After the sign, [0x] or [0X] may stand before the digits, and one
    underscore after it. *)
Definition skip_hex_prefix (s : string) : string :=
  match s with
  | String "0"%char (String x s') =>
      if Ascii.eqb x "x"%char || Ascii.eqb x "X"%char
      then match s' with
           | String "_"%char s'' => s''
           | _ => s'
           end
      else s
  | _ => s
  end.

(** [int(s, 16)] on an ASCII string; [None] stands for [ValueError]. *)
Definition py_int16 (s : string) : option Z :=
  match Verifier.lstrip s with
  | String "-"%char s' => option_map Z.opp (hex_digits 0 false (skip_hex_prefix s'))
  | String "+"%char s' => hex_digits 0 false (skip_hex_prefix s')
  | s' => hex_digits 0 false (skip_hex_prefix s')
  end.

(** [hex_color.lstrip('#')] *)
Fixpoint lstrip_hash (s : string) : string :=
  match s with
  | String "#"%char s' => lstrip_hash s'
  | _ => s
  end.

(** [int(hex_color[i:i+2], 16)] *)
Definition component (hex_color : string) (i : nat) : result Z :=
  match py_int16 (String.substring i 2 hex_color) with
  | Some v => Ok v
  | None => Raise ValueError
  end.

(** The body of the loop: from the hexadecimal colour to the tuple. *)
Definition hex_to_rgb (hex_color : string) : result (Z * Z * Z) :=
  let hex_color := lstrip_hash hex_color in
  r <- component hex_color 0 ;;
  g <- component hex_color 2 ;;
  b <- component hex_color 4 ;;
  Ok (r, g, b).

(** [color_mapping] is what [fastf1.plotting.get_driver_color_mapping]
    gives for the session. *)
Definition get_driver_colors (color_mapping : PyDict.dict string)
  : result (PyDict.dict (Z * Z * Z)) :=
  for_each
    (fun rgb_colors entry =>
       let '(driver, hex_color) := entry in
       rgb <- hex_to_rgb hex_color ;;
       Ok (PyDict.set driver rgb rgb_colors))
    (PyDict.items color_mapping) [].

End Colors.

(** *** f1_data.py: get_race_telemetry with the file of precomputed data *)

Module Cache.
Local Open Scope string_scope.

(** [str(session).replace(' ', '_')] *)
Fixpoint replace_spaces (s : string) : string :=
  match s with
  | EmptyString => EmptyString
  | String c s' =>
      String (if Ascii.eqb c " "%char then "_"%char else c) (replace_spaces s')
  end.

(** [f"computed_data/{event_name}_race_telemetry.json"], from what
    [str(session)] gives. *)
Definition cache_path (session_str : string) : string :=
  "computed_data/" ++ replace_spaces session_str ++ "_race_telemetry.json".

(** A colour of the returned dictionary: the tuple that
    [get_driver_colors] builds, or the list that [json.load] gives for
    the array in the file. *)
Inductive color : Set :=
| RgbTuple (rgb : Z * Z * Z)
| RgbList (rgb : list Z).

(** The dictionary that is returned. *)
Record saved : Type := {
  saved_telemetry : F1Data.bundle;
  saved_driver_colors : PyDict.dict color
}.

(** The document in the file. *)
Record document : Type := {
  doc_telemetry : F1Data.bundle;
  doc_driver_colors : PyDict.dict (list Z)
}.

(** [json.dump]: a tuple is written as an array, as a list is. *)
Definition dump (data : saved) : document :=
  {| doc_telemetry := saved_telemetry data;
     doc_driver_colors :=
       map (fun kv : string * color =>
              (fst kv, match snd kv with
                       | RgbTuple (r, g, b) => [r; g; b]
                       | RgbList rgb => rgb
                       end))
           (saved_driver_colors data) |}.

(** [json.load]: an array is read as a list. *)
Definition load (doc : document) : saved :=
  {| saved_telemetry := doc_telemetry doc;
     saved_driver_colors :=
       map (fun kv : string * list Z => (fst kv, RgbList (snd kv)))
           (doc_driver_colors doc) |}.

(** A file: not there, there without being a JSON document (as left by an
    [open(..., "w")] that was not followed by a complete [json.dump]), or
    holding the document of a dictionary that the function wrote. *)
Inductive cache_file : Type :=
| Absent
| Unreadable
| Stored (doc : document).

(** The files by their paths; every path can be opened for writing. *)
Definition files := string -> cache_file.

Definition write (path : string) (file : cache_file) (fs : files) : files :=
  fun p => if String.eqb p path then file else fs p.

(** Lines 45-53.  [Ok None] is the computation from scratch: the flag is
    set, or [open] raises [FileNotFoundError].  [json.load] raises
    [JSONDecodeError], a [ValueError], which is not caught. *)
Definition load_precomputed (refresh_data : bool) (file : cache_file)
  : result (option saved) :=
  if refresh_data then Ok None
  else match file with
       | Absent => Ok None
       | Unreadable => Raise ValueError
       | Stored doc => Ok (Some (load doc))
       end.

(** Lines 366-390.  The file is opened for writing, which empties it,
    before the dictionary to dump is built; building it calls
    [get_driver_colors]. *)
Definition save_and_return (color_mapping : PyDict.dict string)
  (telemetry : F1Data.bundle) : result saved * cache_file :=
  match Colors.get_driver_colors color_mapping with
  | Raise e => (Raise e, Unreadable)
  | Ok driver_colors =>
      let data := {| saved_telemetry := telemetry;
                     saved_driver_colors :=
                       map (fun kv : string * (Z * Z * Z) =>
                              (fst kv, RgbTuple (snd kv)))
                           driver_colors |} in
      (Ok data, Stored (dump data))
  end.

(** The whole function: its result, and the files as it leaves them.
    [session_str] is what [str(session)] gives. *)
Definition get_race_telemetry (get_tyre_compound_int : string -> Q)
  (refresh_data : bool) (color_mapping : PyDict.dict string)
  (fs : files) (session_str : string) (session : F1Data.Session)
  : result saved * files :=
  let path := cache_path session_str in
  match load_precomputed refresh_data (fs path) with
  | Raise e => (Raise e, fs)
  | Ok (Some precomputed) => (Ok precomputed, fs)
  | Ok None =>
      match F1Data.compute_race_telemetry get_tyre_compound_int session with
      | Raise e => (Raise e, fs)
      | Ok telemetry =>
          let '(r, file) := save_and_return color_mapping telemetry in
          (r, write path file fs)
      end
  end.

End Cache.

(* ================================================================== *)
(** * Part II: the vocabulary of the properties, and example inputs    *)
(* ================================================================== *)

Module VerifierSpec.
Import Verifier.
Local Open Scope string_scope.
Local Open Scope Z_scope.

(** The value is no dictionary, and a number, a boolean or null. *)
Definition no_object (v : json) : Prop :=
  match v with JObj _ => False | _ => True end.

Definition scalar (v : json) : Prop :=
  match v with
  | JNull | JBool _ | JInt _ | JFloat _ => True
  | JStr _ | JArr _ | JObj _ => False
  end.

(** The reply is of no use, in a way the code provides for: the request
    fails, the body is no JSON, the document has no race (or a dictionary
    where the list of races should be, which has no key 0), or its first
    race has no result. *)
Inductive degrades : http_reply -> Prop :=
| transport_error_connection : degrades ConnectionFailed
| transport_error_status : degrades HttpErrorStatus
| parse_error : degrades InvalidJson
| no_races : forall data races,
    races_of data = Ok races -> truthy races = false ->
    degrades (JsonBody data)
| races_without_key_0 : forall data members,
    races_of data = Ok (JObj members) -> members <> [] ->
    degrades (JsonBody data)
| no_results : forall data races race results,
    races_of data = Ok races -> truthy races = true ->
    py_first races = Ok race ->
    py_get "Results" (JArr []) race = Ok results -> truthy results = false ->
    degrades (JsonBody data).

(** The body is JSON of another shape than the schema, in a way the code
    does not provide for: [misshapen data e] names the exception that the
    reading of [data] ends in. *)
Inductive misshapen : json -> exn -> Prop :=
| body_no_object : forall data,
    no_object data -> misshapen data AttributeError
| MRData_no_object : forall data mrdata,
    py_get "MRData" (JObj []) data = Ok mrdata -> no_object mrdata ->
    misshapen data AttributeError
| RaceTable_no_object : forall data mrdata table,
    py_get "MRData" (JObj []) data = Ok mrdata ->
    py_get "RaceTable" (JObj []) mrdata = Ok table -> no_object table ->
    misshapen data AttributeError
| Races_scalar : forall data races,
    races_of data = Ok races -> truthy races = true -> scalar races ->
    misshapen data TypeError
| race_no_object : forall data races race,
    races_of data = Ok races -> truthy races = true ->
    py_first races = Ok race -> no_object race ->
    misshapen data AttributeError
| Results_scalar : forall data races race results,
    races_of data = Ok races -> truthy races = true ->
    py_first races = Ok race ->
    py_get "Results" (JArr []) race = Ok results ->
    truthy results = true -> scalar results ->
    misshapen data TypeError
| result_no_object : forall data races race results r rest,
    races_of data = Ok races -> truthy races = true ->
    py_first races = Ok race ->
    py_get "Results" (JArr []) race = Ok results ->
    truthy results = true ->
    py_iter results = Ok (r :: rest) -> no_object r ->
    misshapen data AttributeError
| Driver_no_object : forall data races race results r rest driver,
    races_of data = Ok races -> truthy races = true ->
    py_first races = Ok race ->
    py_get "Results" (JArr []) race = Ok results ->
    truthy results = true ->
    py_iter results = Ok (r :: rest) ->
    py_get "Driver" (JObj []) r = Ok driver -> no_object driver ->
    misshapen data AttributeError.

(** The position the external result gives to a code: that of the last
    entry with this code. *)
Definition external_position (rs : list verified_result) (c : string) : option Z :=
  option_map position (find (fun r => String.eqb c (code r)) (rev rs)).

(** An example network. *)

Definition entry (c p : string) : json :=
  JObj [("Driver", JObj [("code", JStr c)]);
        ("position", JStr p);
        ("status", JStr "Finished")].

Definition document (races : json) : http_reply :=
  JsonBody (JObj [("MRData", JObj [("RaceTable", JObj [("Races", races)])])]).

Definition reply_of (results : list json) : http_reply :=
  document (JArr [JObj [("Results", JArr results)]]).

(** The result listed for the entry of a code at a position. *)
Definition listed (c : string) (p : Z) : verified_result :=
  {| code := c; position := p; driver_id := JStr ""; status := JStr "Finished" |}.

(** Round 1 answers with VER first and NOR third, round 2 with HAM first
    and VER second, round 3 with a race without results, round 4 with the
    body [{"MRData": null}], round 5 with the number 5 where the list of
    races should be, round 6 with a dictionary there; every other round
    cannot be reached. *)
Definition example_network : network :=
  fun _ round_number =>
    if round_number =? 1 then reply_of [entry "VER" "1"; entry "NOR" "3"]
    else if round_number =? 2 then reply_of [entry "HAM" "1"; entry "VER" "2"]
    else if round_number =? 3 then reply_of []
    else if round_number =? 4 then JsonBody (JObj [("MRData", JNull)])
    else if round_number =? 5 then document (JInt 5)
    else if round_number =? 6 then document (JObj [("race", JArr [])])
    else ConnectionFailed.

Definition telemetry_positions : PyDict.dict Z := [("VER", 1); ("HAM", 2)].

End VerifierSpec.


Module F1Spec.
Import F1Data.
Local Open Scope string_scope.
Local Open Scope Q_scope.

(** ** Arrays and traces *)

(** [m] is the least, resp. the greatest, value of the array [a]. *)
Definition is_min (m : Q) (a : list Q) : Prop :=
  In m a /\ forall v, In v a -> m <= v.

Definition is_max (m : Q) (a : list Q) : Prop :=
  In m a /\ forall v, In v a -> v <= m.

(** The ten arrays have one length. *)
Definition uniform (c : channels) : Prop :=
  length (ch_x c) = length (ch_t c)
  /\ length (ch_y c) = length (ch_t c)
  /\ length (ch_dist c) = length (ch_t c)
  /\ length (ch_rel_dist c) = length (ch_t c)
  /\ length (ch_lap c) = length (ch_t c)
  /\ length (ch_tyre c) = length (ch_t c)
  /\ length (ch_speed c) = length (ch_t c)
  /\ length (ch_gear c) = length (ch_t c)
  /\ length (ch_drs c) = length (ch_t c).

(** The arrays of a driver that takes part: of one length, and not empty. *)
Definition usable (c : channels) : Prop :=
  uniform c /\ ch_t c <> [].

(** The nine resampled arrays read by the tick loop have one value per
    tick. *)
Definition sized (n : nat) (c : channels) : Prop :=
  length (ch_x c) = n
  /\ length (ch_y c) = n
  /\ length (ch_dist c) = n
  /\ length (ch_rel_dist c) = n
  /\ length (ch_lap c) = n
  /\ length (ch_tyre c) = n
  /\ length (ch_speed c) = n
  /\ length (ch_gear c) = n
  /\ length (ch_drs c) = n.

(** The merged arrays of a driver before they are sorted by time. *)
Definition merged_trace (tyre : string -> Q) (laps_driver : list Lap)
  : result channels :=
  acc <- normalise_laps tyre laps_driver ;;
  Ok (concatenate (all_laps acc)).

(** The samples of a trace as pairs of a time and a race distance. *)
Definition trace_points (c : channels) : list (Q * Q) :=
  combine (ch_t c) (ch_dist c).

(** Among the points, one that is not earlier than another has at least
    its distance. *)
Definition time_orders_distance (points : list (Q * Q)) : Prop :=
  forall p q, In p points -> In q points -> fst p <= fst q -> snd p <= snd q.

(** ** Sessions and laps *)

(** Some driver has a telemetry sample. *)
Definition has_sample (session : Session) : Prop :=
  exists driver_no lap,
    In driver_no (drivers session)
    /\ In lap (pick_drivers session driver_no)
    /\ get_telemetry lap <> [].

(** A session without a single telemetry sample. *)
Definition no_sample (session : Session) : Prop :=
  forall driver_no lap,
    In driver_no (drivers session) ->
    In lap (pick_drivers session driver_no) ->
    get_telemetry lap = [].

(** What the driver loop keeps: every stored trace is usable, and the
    global bounds are numbers as soon as a trace is stored. *)
Definition loaded_ok (st : load_state) : Prop :=
  Forall (fun kv => usable (snd kv)) (driver_data st)
  /\ (driver_data st <> [] ->
      exists t_min t_max, global_t_min st = Some t_min /\ global_t_max st = Some t_max).

(** No sample of the lap [la] is later than a sample of the lap [lb]. *)
Definition lap_before (la lb : Lap) : Prop :=
  forall a b,
    In a (get_telemetry la) -> In b (get_telemetry lb) ->
    SessionTime a <= SessionTime b.

(** The laps do not overlap in time: every lap is before the laps that
    follow it. *)
Definition laps_do_not_overlap (laps : list Lap) : Prop :=
  StronglySorted lap_before laps.

(** Within the lap the in-lap distance does not decrease with time: a
    sample that is not earlier than another has at least its distance. *)
Definition distance_follows_time (lap : Lap) : Prop :=
  forall a b,
    In a (get_telemetry lap) -> In b (get_telemetry lap) ->
    SessionTime a <= SessionTime b -> Distance a <= Distance b.

(** ** Intervals, frames and ranks *)

(** The intervals as the design document words them: one per event, from
    the event's shifted time to the next event's shifted time, the last one
    left open. *)
Fixpoint intervals_of (t_min : Q) (events : list TrackStatusEvent)
  : list track_status_interval :=
  match events with
  | [] => []
  | e :: rest =>
      {| ts_status := TrackStatus e;
         start_time := Time e - t_min;
         end_time := match rest with
                     | [] => None
                     | e' :: _ => Some (Time e' - t_min)
                     end |} :: intervals_of t_min rest
  end.

(** The entry of [frame_data] written for the car at index [idx] of the
    sorted snapshot. *)
Definition frame_row (e : nat * car) : string * driver_frame :=
  (car_code (snd e),
   {| df_x := car_x (snd e);
      df_y := car_y (snd e);
      df_dist := car_dist (snd e);
      df_lap := car_lap (snd e);
      df_rel_dist := Np.round6 (car_rel_dist (snd e));
      df_tyre := car_tyre (snd e);
      df_position := (fst e + 1)%nat;
      df_speed := car_speed (snd e);
      df_gear := car_gear (snd e);
      df_drs := car_drs (snd e) |}).

(** The frame appended at tick [i], time [t], for the sorted snapshot
    [leader :: rest] once the finish detection has left the state [st]. *)
Definition frame_of (t : Q) (leader : car) (rest : list car) (st : asm_state) : frame :=
  {| fr_t := t;
     fr_lap := car_lap leader;
     fr_drivers := build_frame_data (leader :: rest);
     fr_race_finished :=
       match race_leader_finished_frame st with Some _ => true | None => false end;
     fr_leader_finished_frame := race_leader_finished_frame st |}.

(** The ranks of a frame: no rank twice, the ranks are 1..n for the n
    drivers of the frame, and no driver is further than the one ranked
    first. *)
Definition ranks_ok (f : frame) : Prop :=
  let ds := PyDict.values (fr_drivers f) in
  NoDup (map df_position ds)
  /\ (forall r, In r (map df_position ds) <-> (1 <= r <= length ds)%nat)
  /\ (forall d d', In d ds -> df_position d = 1%nat -> In d' ds ->
        df_dist d' <= df_dist d).

(** The frames agree with what the loop has recorded, and a recorded
    leader-finish index is carried by every later frame. *)
Definition finish_recorded (st : asm_state) : Prop :=
  (forall f, In f (frames st) ->
     fr_race_finished f
     = match fr_leader_finished_frame f with Some _ => true | None => false end)
  /\ (forall f k, In f (frames st) ->
        fr_leader_finished_frame f = Some k -> race_leader_finished_frame st = Some k)
  /\ (forall i j fi fj k,
        (i < j)%nat ->
        nth_error (frames st) i = Some fi ->
        nth_error (frames st) j = Some fj ->
        fr_leader_finished_frame fi = Some k ->
        fr_leader_finished_frame fj = Some k).

(** ** Example inputs *)

(** A tyre table for the examples. *)
Definition example_tyres (compound : string) : Q :=
  if String.eqb compound "SOFT" then 0
  else if String.eqb compound "MEDIUM" then 1
  else 2.

(** A telemetry row at time [t] and in-lap distance [d]. *)
Definition sample (t d : Q) : TelemetrySample :=
  {| SessionTime := t; X := d; Y := 0; Distance := d; RelativeDistance := 0;
     Speed := 100; nGear := 3; DRS := 0 |}.

Definition lap_of (number : Q) (rows : list TelemetrySample) : Lap :=
  {| LapNumber := number; Compound := "SOFT"; get_telemetry := rows |}.

Definition event (t : Q) (s : string) : TrackStatusEvent :=
  {| Time := t; TrackStatus := s |}.

Definition interval (s : string) (t0 : Q) (t1 : option Q) : track_status_interval :=
  {| ts_status := s; start_time := t0; end_time := t1 |}.

(** The laps of the example of the design document: in-lap distances
    0, 50, 100 and then 0, 60, 120, one sample a second. *)
Definition example_laps : list Lap :=
  [lap_of 1 [sample 0 0; sample 1 50; sample 2 100];
   lap_of 2 [sample 3 0; sample 4 60; sample 5 120]].

(** Two laps whose telemetry overlaps in time: the second lap has samples
    at 5 s and 6 s, the first lap one at 10 s.  Within each lap time and
    distance grow. *)
Definition overlapping_laps : list Lap :=
  [lap_of 1 [sample 0 0; sample 10 100];
   lap_of 2 [sample 5 0; sample 6 50; sample 15 100]].

(** A lap whose in-lap distance falls from 5 to 0. *)
Definition falling_lap : list Lap :=
  [lap_of 1 [sample 0 5; sample 1 0]].

(** Two drivers entered, one without laps and one with a lap that has no
    telemetry. *)
Definition empty_session : Session :=
  {| drivers := ["1"; "44"];
     get_driver_abbreviation := fun n => if String.eqb n "1" then "VER" else "HAM";
     results := [];
     pick_drivers := fun n =>
       if String.eqb n "1" then []
       else [{| LapNumber := 1; Compound := "SOFT"; get_telemetry := [] |}];
     track_status := [] |}.

(** A short race of four ticks: VER leads, is in a second lap from 0.08 s on
    and is classified as retired with one lap; HAM stays in the first
    lap. *)
Definition dnf_session : Session :=
  {| drivers := ["1"; "44"];
     get_driver_abbreviation := fun n => if String.eqb n "1" then "VER" else "HAM";
     results :=
       [{| Abbreviation := Some "VER"; Status := Some "Retired";
           ClassifiedPosition := Some "R"; Laps := Some 1 |};
        {| Abbreviation := Some "HAM"; Status := Some "Finished";
           ClassifiedPosition := Some "1"; Laps := Some 1 |}];
     pick_drivers := fun n =>
       if String.eqb n "1"
       then [lap_of 1 [sample 0 0; sample (1 # 25) 10];
             lap_of 2 [sample (2 # 25) 0; sample (4 # 25) 10]]
       else [lap_of 1 [sample 0 0; sample (4 # 25) 8]];
     track_status := [event 0 "1"] |}.

Definition no_output : bundle :=
  {| out_frames := []; out_track_statuses := [];
     out_driver_status := []; out_driver_finish_frames := [] |}.

(** What the pipeline computes for it. *)
Definition dnf_output : bundle :=
  Eval vm_compute in
    match compute_race_telemetry example_tyres dnf_session with
    | Ok out => out
    | Raise _ => no_output
    end.
End F1Spec.

Module ColorSpec.
Import Colors.
Local Open Scope string_scope.
Local Open Scope Z_scope.

(** The hexadecimal digit of [d], in lower or in upper case. *)
Definition hex_char (upper : bool) (d : Z) : ascii :=
  ascii_of_nat (Z.to_nat (if d <? 10 then 48 + d
                          else if upper then 55 + d else 87 + d)).

(** A colour component written with two hexadecimal digits. *)
Definition hex2 (upper : bool) (v : Z) : string :=
  String (hex_char upper (v / 16)) (String (hex_char upper (v mod 16)) EmptyString).

Fixpoint hashes (n : nat) : string :=
  match n with
  | O => EmptyString
  | S n' => String "#" (hashes n')
  end.

(** A colour as FastF1 writes it, [#rrggbb], with [n] signs in front and
    [rest] behind the six digits. *)
Definition hex_color (upper : bool) (n : nat) (r g b : Z) (rest : string) : string :=
  hashes n ++ hex2 upper r ++ hex2 upper g ++ hex2 upper b ++ rest.

Definition component_ok (v : Z) : Prop := 0 <= v < 256.

(** Every string of at most two characters, for exhaustive checks. *)
Definition all_ascii : list ascii := map ascii_of_nat (seq 0 256).

Definition short_strings : list string :=
  EmptyString
  :: map (fun c => String c EmptyString) all_ascii
  ++ flat_map (fun c => map (fun d => String c (String d EmptyString)) all_ascii)
       all_ascii.

Definition example_mapping : PyDict.dict string :=
  [("VER", "#0600ef"); ("HAM", "#00D2BE")].

Definition shorthand_mapping : PyDict.dict string :=
  [("VER", "#0600ef"); ("HAM", "#fff")].

End ColorSpec.

Module ReplaySpec.
Import F1Data.

(** What a frame of the pipeline holds under ['race_finished']. *)
Definition race_finished (f : frame) : option bool := Some (fr_race_finished f).

(** The index of the last frame. *)
Definition last_index {F : Type} (frames : list F) : Z :=
  (Z.of_nat (length frames) - 1)%Z.

End ReplaySpec.

Module CacheSpec.
Import F1Data Cache.
Local Open Scope string_scope.

(** No file is there. *)
Definition no_files : files := fun _ => Absent.

(** What [str(session)] gives for the short race, and for another one. *)
Definition dnf_name : string := "2024 Season Round 1: Bahrain Grand Prix - Race".
Definition other_name : string := "2024 Season Round 2: Saudi Arabian Grand Prix - Race".

(** What a run from scratch on the short race returns, and what a later
    call reads from the file. *)
Definition dnf_saved : saved :=
  {| saved_telemetry := F1Spec.dnf_output;
     saved_driver_colors :=
       [("VER", RgbTuple (6, 0, 239)%Z); ("HAM", RgbTuple (0, 210, 190)%Z)] |}.

Definition dnf_loaded : saved :=
  {| saved_telemetry := F1Spec.dnf_output;
     saved_driver_colors :=
       [("VER", RgbList [6; 0; 239]%Z); ("HAM", RgbList [0; 210; 190]%Z)] |}.

(** The files after that run. *)
Definition dnf_files : files := write (cache_path dnf_name) (Stored (dump dnf_saved)) no_files.

End CacheSpec.

Module SessionSpec.
Import F1Data F1Spec.
Local Open Scope string_scope.
Local Open Scope Q_scope.

(** The time stamps of the telemetry of a lap, of a driver, of the
    session. *)
Definition lap_times (lap : Lap) : list Q := map SessionTime (get_telemetry lap).

Definition driver_times (session : Session) (driver_no : string) : list Q :=
  flat_map lap_times (pick_drivers session driver_no).

Definition session_times (session : Session) : list Q :=
  flat_map (driver_times session) (drivers session).

(** The samples of a lap and of a trace as a time with its position. *)
Definition lap_samples (lap : Lap) : list (Q * (Q * Q)) :=
  map (fun s => (SessionTime s, (X s, Y s))) (get_telemetry lap).

Definition trace_samples (c : channels) : list (Q * (Q * Q)) :=
  combine (ch_t c) (combine (ch_x c) (ch_y c)).

(** The driver with the code [c] has a telemetry sample. *)
Definition drives (session : Session) (c : string) : Prop :=
  exists driver_no,
    In driver_no (drivers session)
    /\ get_driver_abbreviation session driver_no = c
    /\ driver_times session driver_no <> [].

(** What the driver loop has reached after the drivers [done]. *)
Definition bounds_reached (session : Session) (done : list string) (st : load_state)
  : Prop :=
  match global_t_min st, global_t_max st with
  | Some t_min, Some t_max =>
      is_min t_min (flat_map (driver_times session) done)
      /\ is_max t_max (flat_map (driver_times session) done)
      /\ driver_data st <> []
  | None, None =>
      flat_map (driver_times session) done = [] /\ driver_data st = []
  | _, _ => False
  end.

(** All samples of the session carry one time stamp. *)
Definition single_instant (session : Session) : Prop :=
  forall t t', In t (session_times session) -> In t' (session_times session) ->
               t == t'.

(** The rows of a frame are in the order of their race distance, and the
    frame carries the lap of the driver ranked first. *)
Definition ordered_by_distance (f : frame) : Prop :=
  (forall d d', In d (PyDict.values (fr_drivers f)) ->
                In d' (PyDict.values (fr_drivers f)) ->
                (df_position d < df_position d')%nat -> df_dist d' <= df_dist d)
  /\ (forall d, In d (PyDict.values (fr_drivers f)) ->
                df_position d = 1%nat -> fr_lap f = df_lap d).

(** The frames up to a tick and the recorded leader-finish index: frames
    before the index do not have the flag, the frames from it on have it
    and carry the index. *)
Definition leader_finish_indexed (n : nat) (st : asm_state) : Prop :=
  length (frames st) = n
  /\ match race_leader_finished_frame st with
     | None =>
         forall f, In f (frames st) ->
                   fr_leader_finished_frame f = None /\ fr_race_finished f = false
     | Some k =>
         (k < n)%nat
         /\ forall j f, nth_error (frames st) j = Some f ->
              if (j <? k)%nat
              then fr_leader_finished_frame f = None /\ fr_race_finished f = false
              else fr_leader_finished_frame f = Some k /\ fr_race_finished f = true
     end.

(** The finish frame [k] recorded for the driver [c] is a frame in which
    [c] is in a lap beyond its official lap count, and [c] is either
    classified as finished or the leader at the leader-finish frame. *)
Definition finish_entry_ok (m : PyDict.dict driver_status) (fs : list frame)
  (c : string) (k : nat) : Prop :=
  exists f d s,
    nth_error fs k = Some f
    /\ PyDict.get c (fr_drivers f) = Some d
    /\ PyDict.get c m = Some s
    /\ (laps_completed s < df_lap d)%Z
    /\ (is_finished s = true
        \/ (df_position d = 1%nat /\ fr_leader_finished_frame f = Some k)).

(** What the tick loop keeps about the finish frames recorded so far. *)
Definition finish_frames_recorded (m : PyDict.dict driver_status) (n : nat)
  (st : asm_state) : Prop :=
  length (frames st) = n
  /\ forall c k, PyDict.get c (driver_finish_frame st) = Some k ->
                 finish_entry_ok m (frames st) c k.

(** A session whose only driver has a single sample. *)
Definition instant_session : Session :=
  {| drivers := ["1"];
     get_driver_abbreviation := fun _ => "VER";
     results := [];
     pick_drivers := fun _ => [lap_of 1 [sample 7 0]];
     track_status := [] |}.

End SessionSpec.

(* ================================================================== *)
(** * Part III: the properties                                         *)
(* ================================================================== *)

(** ** Dictionaries *)

Module DictFacts.

Lemma get_set_same {V : Type} (k : string) (v : V) (d : PyDict.dict V) :
  PyDict.get k (PyDict.set k v d) = Some v.
Proof.
  induction d as [|[k' v'] d IH]; simpl.
  - now rewrite String.eqb_refl.
  - destruct (String.eqb k k') eqn:E; simpl; rewrite E; auto.
Qed.

Lemma get_set_other {V : Type} (k k' : string) (v : V) (d : PyDict.dict V) :
  k <> k' -> PyDict.get k (PyDict.set k' v d) = PyDict.get k d.
Proof.
  intros Hne.
  induction d as [|[k0 v0] d IH]; simpl.
  - destruct (String.eqb k k') eqn:E; auto.
    apply String.eqb_eq in E. contradiction.
  - destruct (String.eqb k' k0) eqn:E; simpl.
    + apply String.eqb_eq in E. subst k0.
      destruct (String.eqb k k') eqn:E'; auto.
      apply String.eqb_eq in E'. contradiction.
    + now rewrite IH.
Qed.

Lemma set_fresh {V : Type} (k : string) (v : V) (d : PyDict.dict V) :
  ~ In k (PyDict.keys d) -> PyDict.set k v d = d ++ [(k, v)].
Proof.
  induction d as [|[k' v'] d IH]; simpl; intros Hk.
  - reflexivity.
  - destruct (String.eqb k k') eqn:E.
    + apply String.eqb_eq in E. subst k'. tauto.
    + rewrite IH; auto.
Qed.

Lemma keys_set_present {V : Type} (k : string) (v : V) (d : PyDict.dict V) :
  In k (PyDict.keys d) -> PyDict.keys (PyDict.set k v d) = PyDict.keys d.
Proof.
  induction d as [|[k' v'] d IH]; simpl; intros Hk.
  - destruct Hk.
  - destruct (String.eqb k k') eqn:E; simpl.
    + reflexivity.
    + f_equal. apply IH. destruct Hk as [Hk|Hk]; auto.
      subst k'. now rewrite String.eqb_refl in E.
Qed.

(** Assigning to a key never makes a key appear twice. *)
Lemma set_keys_nodup {V : Type} (k : string) (v : V) (d : PyDict.dict V) :
  NoDup (PyDict.keys d) -> NoDup (PyDict.keys (PyDict.set k v d)).
Proof.
  intros Hd. destruct (in_dec string_dec k (PyDict.keys d)) as [Hin|Hout].
  - now rewrite keys_set_present.
  - rewrite set_fresh by exact Hout. unfold PyDict.keys in *.
    rewrite map_app. simpl.
    apply NoDup_rev in Hd. rewrite <- (rev_involutive (map fst d ++ [k])).
    apply NoDup_rev. rewrite rev_app_distr. simpl. constructor; auto.
    now rewrite <- in_rev.
Qed.

Lemma set_entries {V : Type} (k : string) (v : V) (d : PyDict.dict V)
  (x : string * V) :
  In x (PyDict.set k v d) -> x = (k, v) \/ In x d.
Proof.
  induction d as [|[k' v'] d IH]; simpl.
  - intros [<-|[]]. now left.
  - destruct (String.eqb k k') eqn:E; simpl.
    + apply String.eqb_eq in E. subst k'. intros [<-|H]; auto.
    + intros [<-|H]; auto. apply IH in H. tauto.
Qed.

Lemma set_nonempty {V : Type} (k : string) (v : V) (d : PyDict.dict V) :
  PyDict.set k v d <> [].
Proof.
  destruct d as [|[k' v'] d]; simpl; [discriminate|].
  destruct (String.eqb k k'); discriminate.
Qed.

End DictFacts.

(** ** The leaderboard verifier *)

Module VerifierProofs.
Import Verifier VerifierSpec DictFacts.
Local Open Scope string_scope.
Local Open Scope Z_scope.

Lemma fetch_degrades (net : network) (year round_number : Z) :
  degrades (net year round_number) ->
  fetch_race_results_from_jolpica net year round_number = Ok None.
Proof.
  unfold fetch_race_results_from_jolpica, fetch_results, fetch_try.
  intros H. destruct H as [ | | |data races Hr Ht|data members Hr Hm
                           |data races race results Hr Ht Hf Hg Hres];
    cbn [http_json bind]; try reflexivity.
  - now rewrite Hr; cbn [bind]; rewrite Ht.
  - rewrite Hr. cbn [bind truthy py_first].
    destruct members; [congruence|reflexivity].
  - rewrite Hr. cbn [bind]. rewrite Ht. cbn [negb]. rewrite Hf. cbn [bind].
    rewrite Hg. cbn [bind]. now rewrite Hres.
Qed.

Lemma py_get_no_object (key : string) (default v : json) :
  no_object v -> py_get key default v = Raise AttributeError.
Proof.
  destruct v; simpl; tauto.
Qed.

Lemma py_first_scalar (v : json) : scalar v -> py_first v = Raise TypeError.
Proof.
  destruct v; simpl; tauto.
Qed.

Lemma py_iter_scalar (v : json) : scalar v -> py_iter v = Raise TypeError.
Proof.
  destruct v; simpl; tauto.
Qed.

(** An exception that neither [except] clause names leaves the verifier. *)
Lemma fetch_try_escapes (current : PyDict.dict Z) (net : network)
  (year round_number : Z) (e : exn) :
  fetch_try net year round_number = Raise e ->
  e = AttributeError \/ e = TypeError ->
  verify_and_correct_final_positions current net year round_number = Raise e.
Proof.
  intros H He. unfold verify_and_correct_final_positions,
    fetch_race_results_from_jolpica, fetch_results.
  rewrite H. destruct He as [-> | ->]; reflexivity.
Qed.

Lemma fetch_try_misshapen (net : network) (year round_number : Z) (data : json)
  (e : exn) :
  net year round_number = JsonBody data ->
  misshapen data e ->
  fetch_try net year round_number = Raise e
  /\ (e = AttributeError \/ e = TypeError).
Proof.
  intros Hnet H. unfold fetch_try. rewrite Hnet. cbn [http_json bind].
  inversion H as [d Hd|d mrdata Hm Hd|d mrdata table Hm Ht Hd
                  |d races Hr Ht Hs|d races race Hr Ht Hf Hd
                  |d races race results Hr Ht Hf Hg Hres Hs
                  |d races race results r rest Hr Ht Hf Hg Hres Hi Hd
                  |d races race results r rest driver Hr Ht Hf Hg Hres Hi Hdr Hd];
    subst; (split; [|auto]).
  - unfold races_of. now rewrite (py_get_no_object _ _ _ Hd).
  - unfold races_of. rewrite Hm. cbn [bind].
    now rewrite (py_get_no_object _ _ _ Hd).
  - unfold races_of. rewrite Hm. cbn [bind]. rewrite Ht. cbn [bind].
    now rewrite (py_get_no_object _ _ _ Hd).
  - rewrite Hr. cbn [bind]. rewrite Ht. cbn [negb].
    now rewrite (py_first_scalar _ Hs).
  - rewrite Hr. cbn [bind]. rewrite Ht. cbn [negb]. rewrite Hf. cbn [bind].
    now rewrite (py_get_no_object _ _ _ Hd).
  - rewrite Hr. cbn [bind]. rewrite Ht. cbn [negb]. rewrite Hf. cbn [bind].
    rewrite Hg. cbn [bind]. rewrite Hres. cbn [negb].
    now rewrite (py_iter_scalar _ Hs).
  - rewrite Hr. cbn [bind]. rewrite Ht. cbn [negb]. rewrite Hf. cbn [bind].
    rewrite Hg. cbn [bind]. rewrite Hres. cbn [negb]. rewrite Hi. cbn [bind].
    cbn [for_each]. unfold parse_result at 1.
    now rewrite (py_get_no_object _ _ _ Hd).
  - rewrite Hr. cbn [bind]. rewrite Ht. cbn [negb]. rewrite Hf. cbn [bind].
    rewrite Hg. cbn [bind]. rewrite Hres. cbn [negb]. rewrite Hi. cbn [bind].
    cbn [for_each]. unfold parse_result at 1. rewrite Hdr. cbn [bind].
    now rewrite (py_get_no_object _ _ _ Hd).
Qed.

Lemma find_append {A : Type} (f : A -> bool) (l1 l2 : list A) :
  find f (l1 ++ l2) = match find f l1 with Some a => Some a | None => find f l2 end.
Proof.
  induction l1 as [|a l1 IH]; simpl; auto.
  now destruct (f a).
Qed.

Lemma build_verified_positions_get_acc (rs : list verified_result)
  (d : PyDict.dict Z) (c : string) :
  PyDict.get c (fold_left (fun d r => PyDict.set (code r) (position r) d) rs d)
  = match external_position rs c with
    | Some p => Some p
    | None => PyDict.get c d
    end.
Proof.
  revert d. unfold external_position.
  induction rs as [|r rs IH]; intros d; simpl.
  - reflexivity.
  - rewrite IH. rewrite find_append.
    destruct (find (fun r0 => String.eqb c (code r0)) (rev rs)) as [r'|]; simpl.
    + reflexivity.
    + destruct (String.eqb c (code r)) eqn:E; simpl.
      * apply String.eqb_eq in E. subst c. apply get_set_same.
      * apply get_set_other. intros ->. now rewrite String.eqb_refl in E.
Qed.

Lemma build_verified_positions_get (rs : list verified_result) (c : string) :
  PyDict.get c (build_verified_positions rs) = external_position rs c.
Proof.
  unfold build_verified_positions.
  rewrite build_verified_positions_get_acc.
  now destruct (external_position rs c).
Qed.

Lemma compare_position_grows (current verified : PyDict.dict Z)
  (codes : list string) (acc : list discrepancy) :
  acc <> [] -> fold_left (compare_position current verified) codes acc <> [].
Proof.
  revert acc. induction codes as [|c codes IH]; intros acc Hacc; simpl.
  - exact Hacc.
  - apply IH. unfold compare_position.
    destruct (PyDict.get c verified) as [v|]; auto.
    destruct (PyDict.get c current) as [p|]; auto.
    destruct (p =? v); auto.
    destruct acc; simpl; discriminate.
Qed.

Lemma get_some_key {V : Type} (k : string) (v : V) (d : PyDict.dict V) :
  PyDict.get k d = Some v -> In k (PyDict.keys d).
Proof.
  induction d as [|[k' v'] d IH]; simpl; [discriminate|].
  destruct (String.eqb k k') eqn:E.
  - apply String.eqb_eq in E. auto.
  - intros H. right. now apply IH.
Qed.

Lemma find_discrepancies_found (current verified : PyDict.dict Z)
  (c : string) (p v : Z) :
  PyDict.get c current = Some p ->
  PyDict.get c verified = Some v ->
  p <> v ->
  find_discrepancies current verified <> [].
Proof.
  unfold find_discrepancies.
  intros Hcur Hget Hne.
  pose proof (get_some_key c p current Hcur) as Hin.
  revert Hin. generalize (PyDict.keys current). intros codes Hin.
  enough (H : forall acc, fold_left (compare_position current verified) codes acc <> [])
    by apply H.
  induction codes as [|c' codes IH]; intros acc.
  - destruct Hin.
  - simpl. destruct Hin as [->|Hin].
    + apply compare_position_grows. unfold compare_position.
      rewrite Hget, Hcur.
      destruct (p =? v) eqn:E.
      * apply Z.eqb_eq in E. contradiction.
      * destruct acc; simpl; discriminate.
    + now apply IH.
Qed.

(** C7, as amended: when the external result is usable and some driver of
    the current mapping has another position in it, the verifier returns
    the mapping built from the external result alone: a code maps to the
    position of its last external entry, and a code without an external
    entry is not in the mapping. *)
Theorem verifier_replaces_on_discrepancy
  (current : PyDict.dict Z) (net : network) (year round_number : Z)
  (rs : list verified_result) (c : string) (p v : Z) :
  fetch_race_results_from_jolpica net year round_number = Ok (Some rs) ->
  PyDict.get c current = Some p ->
  external_position rs c = Some v ->
  p <> v ->
  verify_and_correct_final_positions current net year round_number
    = Ok (build_verified_positions rs)
  /\ forall c', PyDict.get c' (build_verified_positions rs) = external_position rs c'.
Proof.
  intros Hfetch Hin Hext Hne. split.
  - unfold verify_and_correct_final_positions. rewrite Hfetch. simpl.
    unfold correct_positions.
    destruct rs as [|r rs].
    + discriminate Hext.
    + assert (Hd : find_discrepancies current (build_verified_positions (r :: rs)) <> []).
      { apply (find_discrepancies_found current _ c p v); auto.
        now rewrite build_verified_positions_get. }
      destruct (find_discrepancies current (build_verified_positions (r :: rs)));
        [contradiction | reflexivity].
  - intros c'. apply build_verified_positions_get.
Qed.

Lemma verifier_replaces_on_discrepancy_witness :
  verify_and_correct_final_positions telemetry_positions example_network 2024 2
    = Ok [("HAM", 1); ("VER", 2)].
Proof.
  apply (verifier_replaces_on_discrepancy telemetry_positions example_network
           2024 2 [listed "HAM" 1; listed "VER" 2] "VER" 1 2).
  - reflexivity.
  - reflexivity.
  - reflexivity.
  - discriminate.
Defined.

(** C7 as it is written fails: the external result is usable, yet HAM, which
    it does not list, stays in the returned mapping, and NOR, which it
    lists as third, is not in it. *)
Lemma verifier_keeps_input_without_discrepancy :
  fetch_race_results_from_jolpica example_network 2024 1
    = Ok (Some [listed "VER" 1; listed "NOR" 3])
  /\ verify_and_correct_final_positions telemetry_positions example_network 2024 1
     = Ok telemetry_positions
  /\ PyDict.get "HAM" telemetry_positions = Some 2
  /\ external_position [listed "VER" 1; listed "NOR" 3] "HAM" = None
  /\ PyDict.get "NOR" telemetry_positions = None
  /\ external_position [listed "VER" 1; listed "NOR" 3] "NOR" = Some 3.
Proof.
  repeat split; reflexivity.
Qed.

(** C8 fails on the code: a reply whose body is JSON of another shape
    than the schema is not degraded.  Where the code calls [.get] on a
    value that is no dictionary an [AttributeError] is raised, where it
    subscripts or iterates a number, a boolean or null a [TypeError];
    neither [except] clause names them, and the exception leaves the
    correction step. *)
Theorem misshapen_reply_is_raised
  (current : PyDict.dict Z) (net : network) (year round_number : Z)
  (data : json) (e : exn) :
  net year round_number = JsonBody data ->
  misshapen data e ->
  verify_and_correct_final_positions current net year round_number = Raise e.
Proof.
  intros Hnet H.
  destruct (fetch_try_misshapen net year round_number data e Hnet H) as [Hf He].
  now apply fetch_try_escapes.
Qed.

Lemma misshapen_reply_is_raised_witness :
  verify_and_correct_final_positions telemetry_positions example_network 2024 4
    = Raise AttributeError
  /\ verify_and_correct_final_positions telemetry_positions example_network 2024 5
     = Raise TypeError.
Proof.
  split.
  - apply (misshapen_reply_is_raised telemetry_positions example_network 2024 4
             (JObj [("MRData", JNull)]) AttributeError).
    + reflexivity.
    + apply (MRData_no_object _ JNull); [reflexivity|exact I].
  - apply (misshapen_reply_is_raised telemetry_positions example_network 2024 5
             (JObj [("MRData", JObj [("RaceTable", JObj [("Races", JInt 5)])])])
             TypeError).
    + reflexivity.
    + apply (Races_scalar _ (JInt 5)); [reflexivity|reflexivity|exact I].
Defined.

End VerifierProofs.

(** ** The telemetry pipeline *)

Module F1Proofs.
Import F1Data F1Spec DictFacts.
Local Open Scope string_scope.
Local Open Scope Q_scope.
Local Open Scope list_scope.

(** *** Loops *)

Lemma for_each_cons {A S : Type} (body : S -> A -> result S) (x : A) (xs : list A)
  (st : S) :
  for_each body (x :: xs) st = (st' <- body st x ;; for_each body xs st').
Proof. reflexivity. Qed.

Lemma for_each_app {A S : Type} (body : S -> A -> result S) (xs ys : list A) (st : S) :
  for_each body (xs ++ ys) st = (st' <- for_each body xs st ;; for_each body ys st').
Proof.
  revert st. induction xs as [|x xs IH]; intros st; simpl.
  - reflexivity.
  - destruct (body st x); simpl; auto.
Qed.

(** A property kept by every turn of a loop holds when the loop is left. *)
Lemma for_each_invariant {A S : Type} (P : S -> Prop) (body : S -> A -> result S)
  (xs : list A) :
  (forall st x st', In x xs -> P st -> body st x = Ok st' -> P st') ->
  forall st st', P st -> for_each body xs st = Ok st' -> P st'.
Proof.
  induction xs as [|x xs IH]; intros Hstep st st' HP Hrun; simpl in Hrun.
  - now inversion Hrun; subst.
  - destruct (body st x) as [st1|e] eqn:E; simpl in Hrun; [|discriminate].
    apply IH with (st := st1); auto.
    + intros s y s' Hy. apply Hstep. now right.
    + apply (Hstep st x st1); simpl; auto.
Qed.

(** *** Lists *)

Lemma nonempty_length {A : Type} (l : list A) : l <> [] <-> (0 < length l)%nat.
Proof.
  destruct l; simpl; split; intros H; try congruence; try lia.
Qed.

Lemma nth_error_seq_inv (start len k j : nat) :
  nth_error (seq start len) k = Some j -> (k < len)%nat /\ j = (start + k)%nat.
Proof.
  revert start k. induction len as [|len IH]; intros start k H.
  - destruct k; discriminate.
  - destruct k as [|k]; simpl in H.
    + inversion H. lia.
    + apply IH in H. lia.
Qed.

Lemma nth_error_snoc {A : Type} (l : list A) (a b : A) (j : nat) :
  nth_error (l ++ [a]) j = Some b ->
  ((j < length l)%nat /\ nth_error l j = Some b) \/ (j = length l /\ b = a).
Proof.
  intros H. destruct (Nat.lt_ge_cases j (length l)) as [Hlt|Hge].
  - left. split; auto. now rewrite nth_error_app1 in H.
  - right. rewrite nth_error_app2 in H by exact Hge.
    destruct (j - length l)%nat as [|n] eqn:E; simpl in H.
    + inversion H. split; auto. lia.
    + destruct n; discriminate.
Qed.

Lemma map_snd_combine {A B : Type} (a : list A) (b : list B) :
  length a = length b -> map snd (combine a b) = b.
Proof.
  revert b. induction a as [|x a IH]; intros [|y b] H; simpl in *; try discriminate; auto.
  f_equal. apply IH. lia.
Qed.

Lemma concat_length_same {A B : Type} (f g : A -> list B) (ls : list A) :
  Forall (fun c => length (f c) = length (g c)) ls ->
  length (concat (map f ls)) = length (concat (map g ls)).
Proof.
  induction 1 as [|c ls Hc Hls IH]; simpl; auto.
  rewrite !length_app. congruence.
Qed.

Lemma enumerate_fst {A : Type} (l : list A) (start : nat) :
  map fst (combine (seq start (length l)) l) = seq start (length l).
Proof.
  revert start. induction l as [|x l IH]; intros start; simpl; auto.
  now rewrite IH.
Qed.

Lemma enumerate_snd {A : Type} (l : list A) (start : nat) :
  map snd (combine (seq start (length l)) l) = l.
Proof.
  revert start. induction l as [|x l IH]; intros start; simpl; auto.
  now rewrite IH.
Qed.

Lemma enumerate_length {A : Type} (l : list A) :
  length (enumerate l) = length l.
Proof.
  unfold enumerate. rewrite length_combine, length_seq. apply Nat.min_id.
Qed.

Lemma enumerate_in_range {A : Type} (l : list A) :
  Forall (fun it => (fst it < length l)%nat) (enumerate l).
Proof.
  apply Forall_forall. intros [i a] Hin. unfold enumerate in Hin.
  apply in_combine_l, in_seq in Hin. simpl. lia.
Qed.

Lemma first_of_enumerate {A : Type} (l : list A) (idx : nat) (a : A) :
  In (idx, a) (enumerate l) -> (idx + 1 = 1)%nat -> exists rest, l = a :: rest.
Proof.
  unfold enumerate. destruct l as [|x l]; simpl; [tauto|].
  intros [H|H] Hidx.
  - inversion H. now exists l.
  - apply in_combine_l, in_seq in H. lia.
Qed.

(** *** The stable sort *)

Lemma insert_sorted_perm {A : Type} (before : A -> A -> bool) (x : A) (l : list A) :
  Permutation (Np.insert_sorted before x l) (x :: l).
Proof.
  induction l as [|y l IH]; simpl; auto.
  destruct (before x y); auto.
  rewrite IH. apply perm_swap.
Qed.

Lemma stable_sort_perm {A : Type} (before : A -> A -> bool) (l : list A) :
  Permutation (Np.stable_sort before l) l.
Proof.
  unfold Np.stable_sort. induction l as [|x l IH]; simpl; auto.
  rewrite insert_sorted_perm. now constructor.
Qed.

Section SortOrder.
Context {A : Type} (before : A -> A -> bool).
Hypothesis before_total : forall x y, before x y = false -> before y x = true.
Hypothesis before_trans :
  forall x y z, before x y = true -> before y z = true -> before x z = true.

Lemma insert_sorted_sorted (x : A) (l : list A) :
  StronglySorted (fun a b => before a b = true) l ->
  StronglySorted (fun a b => before a b = true) (Np.insert_sorted before x l).
Proof.
  induction 1 as [|y l Hs IH Hy]; simpl.
  - repeat constructor.
  - destruct (before x y) eqn:E.
    + constructor; [now constructor|].
      constructor; auto.
      revert Hy. apply Forall_impl. intros z. now apply before_trans.
    + constructor; auto.
      apply (Permutation_Forall (Permutation_sym (insert_sorted_perm before x l))).
      constructor; auto.
Qed.

Lemma stable_sort_sorted (l : list A) :
  StronglySorted (fun a b => before a b = true) (Np.stable_sort before l).
Proof.
  unfold Np.stable_sort. induction l as [|x l IH]; simpl.
  - constructor.
  - now apply insert_sorted_sorted.
Qed.
End SortOrder.

(** *** Minimum, maximum, index arrays, interpolation *)

Lemma qmin_cases (a b : Q) :
  (Np.qmin a b = a /\ a <= b) \/ (Np.qmin a b = b /\ b <= a).
Proof.
  unfold Np.qmin. destruct (Qle_bool a b) eqn:E.
  - left. split; auto. now apply Qle_bool_iff.
  - right. split; auto. apply Qlt_le_weak, Qnot_le_lt.
    intros H. apply Qle_bool_iff in H. congruence.
Qed.

Lemma qmax_cases (a b : Q) :
  (Np.qmax a b = a /\ b <= a) \/ (Np.qmax a b = b /\ a <= b).
Proof.
  unfold Np.qmax. destruct (Qle_bool b a) eqn:E.
  - left. split; auto. now apply Qle_bool_iff.
  - right. split; auto. apply Qlt_le_weak, Qnot_le_lt.
    intros H. apply Qle_bool_iff in H. congruence.
Qed.

Lemma fold_qmin_is_min (xs : list Q) (x : Q) :
  is_min (fold_left Np.qmin xs x) (x :: xs).
Proof.
  revert x. induction xs as [|y xs IH]; intros x; simpl.
  - split; [now left|]. intros v [<-|[]]. apply Qle_refl.
  - destruct (IH (Np.qmin x y)) as [Hin Hle]. split.
    + destruct Hin as [Heq|Hin]; [|now right; right].
      rewrite <- Heq. destruct (qmin_cases x y) as [[-> _]|[-> _]]; simpl; auto.
    + intros v Hv.
      assert (Hq : fold_left Np.qmin xs (Np.qmin x y) <= Np.qmin x y)
        by (apply Hle; now left).
      destruct Hv as [<-|[<-|Hv]]; [| |apply Hle; now right].
      * revert Hq. generalize (fold_left Np.qmin xs (Np.qmin x y)). intros f Hq.
        destruct (qmin_cases x y) as [[E H]|[E H]]; rewrite E in Hq; lra.
      * revert Hq. generalize (fold_left Np.qmin xs (Np.qmin x y)). intros f Hq.
        destruct (qmin_cases x y) as [[E H]|[E H]]; rewrite E in Hq; lra.
Qed.

Lemma fold_qmax_is_max (xs : list Q) (x : Q) :
  is_max (fold_left Np.qmax xs x) (x :: xs).
Proof.
  revert x. induction xs as [|y xs IH]; intros x; simpl.
  - split; [now left|]. intros v [<-|[]]. apply Qle_refl.
  - destruct (IH (Np.qmax x y)) as [Hin Hle]. split.
    + destruct Hin as [Heq|Hin]; [|now right; right].
      rewrite <- Heq. destruct (qmax_cases x y) as [[-> _]|[-> _]]; simpl; auto.
    + intros v Hv.
      assert (Hq : Np.qmax x y <= fold_left Np.qmax xs (Np.qmax x y))
        by (apply Hle; now left).
      destruct Hv as [<-|[<-|Hv]]; [| |apply Hle; now right].
      * revert Hq. generalize (fold_left Np.qmax xs (Np.qmax x y)). intros f Hq.
        destruct (qmax_cases x y) as [[E H]|[E H]]; rewrite E in Hq; lra.
      * revert Hq. generalize (fold_left Np.qmax xs (Np.qmax x y)). intros f Hq.
        destruct (qmax_cases x y) as [[E H]|[E H]]; rewrite E in Hq; lra.
Qed.

Lemma np_min_is_min (a : list Q) :
  a <> [] -> exists m, Np.min a = Ok m /\ is_min m a.
Proof.
  destruct a as [|x xs]; [congruence|]. intros _.
  eexists. split; [reflexivity|]. apply fold_qmin_is_min.
Qed.

Lemma np_max_is_max (a : list Q) :
  a <> [] -> exists m, Np.max a = Ok m /\ is_max m a.
Proof.
  destruct a as [|x xs]; [congruence|]. intros _.
  eexists. split; [reflexivity|]. apply fold_qmax_is_max.
Qed.

Lemma is_min_shift (m : Q) (a : list Q) :
  is_min m a -> is_min (m - m) (map (fun d => d - m) a).
Proof.
  intros [Hin Hle]. split.
  - apply (in_map (fun d => d - m)) in Hin. exact Hin.
  - intros v Hv. apply in_map_iff in Hv. destruct Hv as [d [<- Hd]].
    apply Hle in Hd. lra.
Qed.

Lemma argsort_perm (a : list Q) :
  Permutation (Np.argsort a) (seq 0 (length a)).
Proof.
  unfold Np.argsort.
  rewrite (Permutation_map snd (stable_sort_perm _ (combine a (seq 0 (length a))))).
  rewrite map_snd_combine by now rewrite length_seq.
  reflexivity.
Qed.

Lemma argsort_length (a : list Q) : length (Np.argsort a) = length a.
Proof.
  rewrite (Permutation_length (argsort_perm a)). apply length_seq.
Qed.

Lemma argsort_in_range (a : list Q) :
  Forall (fun i => (i < length a)%nat) (Np.argsort a).
Proof.
  apply Forall_forall. intros i Hi.
  apply (Permutation_in _ (argsort_perm a)) in Hi.
  apply in_seq in Hi. lia.
Qed.

Lemma item_in_range (a : list Q) (i : nat) :
  (i < length a)%nat -> exists v, Np.item a i = Ok v.
Proof.
  intros Hi. unfold Np.item. destruct (nth_error a i) as [v|] eqn:E.
  - now exists v.
  - apply nth_error_None in E. lia.
Qed.

Lemma take_in_range (a : list Q) (order : list nat) :
  Forall (fun i => (i < length a)%nat) order ->
  exists vs, Np.take a order = Ok vs /\ length vs = length order.
Proof.
  induction 1 as [|i order Hi Horder [vs [Hvs Hlen]]]; simpl.
  - now exists [].
  - unfold Np.item. destruct (nth_error a i) as [v|] eqn:E.
    + simpl. rewrite Hvs. simpl. exists (v :: vs). simpl. auto.
    + apply nth_error_None in E. lia.
Qed.

Lemma interp_ok (x xp fp : list Q) :
  xp <> [] -> length fp = length xp ->
  exists vs, Np.interp x xp fp = Ok vs /\ length vs = length x.
Proof.
  intros Hne Hlen. unfold Np.interp.
  destruct xp as [|x0 xp]; [congruence|].
  destruct fp as [|f0 fp]; [discriminate|].
  simpl combine. rewrite Hlen, Nat.eqb_refl.
  eexists. split; [reflexivity|]. apply length_map.
Qed.

(** *** 1. The lap normaliser *)

(** What one turn of the lap loop does to a lap that has samples. *)
Lemma lap_step_spec (tyre : string -> Q) (acc : lap_acc) (lap : Lap) :
  get_telemetry lap <> [] ->
  exists d_min lap_length,
    let d_lap := map Distance (get_telemetry lap) in
    let shifted := map (fun d => d - d_min) d_lap in
    let t_lap := map SessionTime (get_telemetry lap) in
    is_min d_min d_lap
    /\ is_max lap_length shifted
    /\ lap_step tyre acc lap
       = Ok {| all_laps := all_laps acc ++
                 [{| ch_t := t_lap;
                     ch_x := map X (get_telemetry lap);
                     ch_y := map Y (get_telemetry lap);
                     ch_dist := map (fun d => total_dist_so_far acc + d) shifted;
                     ch_rel_dist := map RelativeDistance (get_telemetry lap);
                     ch_lap := Np.full_like t_lap (LapNumber lap);
                     ch_tyre := Np.full_like t_lap (tyre (Compound lap));
                     ch_speed := map Speed (get_telemetry lap);
                     ch_gear := map nGear (get_telemetry lap);
                     ch_drs := map DRS (get_telemetry lap) |}];
               total_dist_so_far := total_dist_so_far acc + lap_length |}.
Proof.
  intros Hne. unfold lap_step.
  destruct (get_telemetry lap) as [|s tel]; [congruence|].
  set (rows := s :: tel).
  destruct (np_min_is_min (map Distance rows)) as [m [Hm Hmin]]; [discriminate|].
  destruct (np_max_is_max (map (fun d => d - m) (map Distance rows)))
    as [len [Hl Hmax]]; [discriminate|].
  exists m, len. cbv zeta. split; [exact Hmin|]. split; [exact Hmax|].
  rewrite Hm. unfold bind at 1. rewrite Hl. reflexivity.
Qed.

(** C2: a lap with samples has its in-lap distances shifted by their
    minimum, so that the least shifted distance is 0; the lap length is the
    greatest shifted distance; the race distance of a sample is the running
    total plus its shifted distance; the running total grows by the lap
    length; a lap without samples changes nothing; a lap is handled after
    the laps before it.  On the example of the design document the race
    distances are 0, 50, 100, 100, 160, 220, before and after the sort by
    time. *)
Theorem normaliser_chains_laps (tyre : string -> Q) :
  (forall (acc : lap_acc) (lap : Lap),
     get_telemetry lap <> [] ->
     exists d_min lap_length new_lap,
       let shifted := map (fun d => d - d_min) (map Distance (get_telemetry lap)) in
       is_min d_min (map Distance (get_telemetry lap))
       /\ (exists z, is_min z shifted /\ z == 0)
       /\ is_max lap_length shifted
       /\ ch_dist new_lap = map (fun d => total_dist_so_far acc + d) shifted
       /\ lap_step tyre acc lap
          = Ok {| all_laps := all_laps acc ++ [new_lap];
                  total_dist_so_far := total_dist_so_far acc + lap_length |})
  /\ (forall (acc : lap_acc) (lap : Lap),
        get_telemetry lap = [] -> lap_step tyre acc lap = Ok acc)
  /\ (forall (laps : list Lap) (lap : Lap),
        normalise_laps tyre (laps ++ [lap])
        = (acc <- normalise_laps tyre laps ;; lap_step tyre acc lap))
  /\ (exists merged,
        merged_trace tyre example_laps = Ok merged
        /\ ch_dist merged = [0; 50; 100; 100; 160; 220])
  /\ (exists trace,
        driver_trace tyre example_laps = Ok (Some trace)
        /\ ch_dist trace = [0; 50; 100; 100; 160; 220]).
Proof.
  split; [|split; [|split; [|split]]].
  - intros acc lap Hne.
    destruct (lap_step_spec tyre acc lap Hne) as [m [len [Hmin [Hmax Hstep]]]].
    exists m, len. eexists. simpl.
    split; [exact Hmin|].
    split; [exists (m - m); split; [now apply is_min_shift | ring]|].
    split; [exact Hmax|].
    split; [|exact Hstep]. reflexivity.
  - intros acc lap Hnil. unfold lap_step. now rewrite Hnil.
  - intros laps lap. unfold normalise_laps. rewrite for_each_app.
    destruct (for_each (lap_step tyre) laps _); simpl; auto.
    now destruct (lap_step tyre a lap).
  - eexists. split; reflexivity.
  - eexists. split; reflexivity.
Qed.

Lemma normaliser_chains_laps_witness :
  exists d_min lap_length new_lap,
    is_min d_min [10; 60; 110]
    /\ (exists z, is_min z (map (fun d => d - d_min) [10; 60; 110]) /\ z == 0)
    /\ is_max lap_length (map (fun d => d - d_min) [10; 60; 110])
    /\ ch_dist new_lap = map (fun d => 7 + d) (map (fun d => d - d_min) [10; 60; 110])
    /\ lap_step example_tyres {| all_laps := []; total_dist_so_far := 7 |}
         (lap_of 1 [sample 0 10; sample 1 60; sample 2 110])
       = Ok {| all_laps := [new_lap]; total_dist_so_far := 7 + lap_length |}.
Proof.
  apply (proj1 (normaliser_chains_laps example_tyres)
           {| all_laps := []; total_dist_so_far := 7 |}
           (lap_of 1 [sample 0 10; sample 1 60; sample 2 110])).
  discriminate.
Defined.

(** *** The trace of a driver *)

Lemma concatenate_uniform (ls : list channels) :
  Forall uniform ls -> uniform (concatenate ls).
Proof.
  intros H. unfold uniform, concatenate; simpl.
  repeat split; apply concat_length_same;
    (eapply Forall_impl; [|exact H]); unfold uniform; intros c Hc; tauto.
Qed.

Lemma reorder_in_range (order : list nat) (c : channels) :
  uniform c ->
  Forall (fun i => (i < length (ch_t c))%nat) order ->
  exists c', reorder order c = Ok c'
             /\ uniform c' /\ length (ch_t c') = length order.
Proof.
  intros (Hx & Hy & Hd & Hr & Hl & Hty & Hs & Hg & Hdr) Ho.
  unfold reorder.
  destruct (take_in_range (ch_t c) order Ho) as (t & -> & Lt).
  rewrite <- Hx in Ho. destruct (take_in_range _ order Ho) as (x & -> & Lx).
  rewrite Hx, <- Hy in Ho. destruct (take_in_range _ order Ho) as (y & -> & Ly).
  rewrite Hy, <- Hd in Ho. destruct (take_in_range _ order Ho) as (d & -> & Ld).
  rewrite Hd, <- Hr in Ho. destruct (take_in_range _ order Ho) as (r & -> & Lr).
  rewrite Hr, <- Hl in Ho. destruct (take_in_range _ order Ho) as (l & -> & Ll).
  rewrite Hl, <- Hty in Ho. destruct (take_in_range _ order Ho) as (ty & -> & Lty).
  rewrite Hty, <- Hs in Ho. destruct (take_in_range _ order Ho) as (sp & -> & Lsp).
  rewrite Hs, <- Hg in Ho. destruct (take_in_range _ order Ho) as (g & -> & Lg).
  rewrite Hg, <- Hdr in Ho. destruct (take_in_range _ order Ho) as (dr & -> & Ldr).
  simpl. eexists. split; [reflexivity|].
  unfold uniform. simpl. repeat split; congruence.
Qed.

Lemma normalise_laps_usable (tyre : string -> Q) (laps : list Lap) (acc : lap_acc) :
  Forall usable (all_laps acc) ->
  exists acc',
    for_each (lap_step tyre) laps acc = Ok acc'
    /\ Forall usable (all_laps acc')
    /\ (all_laps acc' = [] ->
        all_laps acc = [] /\ Forall (fun lap => get_telemetry lap = []) laps).
Proof.
  revert acc. induction laps as [|lap laps IH]; intros acc Hacc.
  - exists acc. simpl. auto.
  - simpl. destruct (get_telemetry lap) as [|s tel] eqn:E.
    + unfold lap_step at 1. rewrite E. simpl bind.
      destruct (IH acc Hacc) as (acc' & Hrun & Hu & Hnil).
      exists acc'. repeat split; auto; apply Hnil in H; try tauto.
      constructor; tauto.
    + destruct (lap_step_spec tyre acc lap) as [m [len [_ [_ Hstep]]]];
        [rewrite E; discriminate|].
      rewrite Hstep. simpl bind.
      match goal with
      | |- exists acc', for_each _ _ ?a = _ /\ _ => destruct (IH a) as (acc' & Hrun & Hu & Hnil)
      end.
      * simpl. apply Forall_app. split; auto. constructor; [|constructor].
        unfold usable, uniform, Np.full_like. simpl. rewrite !length_map.
        split; [tauto|]. rewrite E. discriminate.
      * exists acc'. repeat split; auto; apply Hnil in H; destruct H as [H _];
          simpl in H; now destruct (all_laps acc).
Qed.

Lemma driver_trace_usable (tyre : string -> Q) (laps : list Lap) :
  exists r,
    driver_trace tyre laps = Ok r
    /\ match r with
       | Some c => usable c
       | None => Forall (fun lap => get_telemetry lap = []) laps
       end.
Proof.
  unfold driver_trace, normalise_laps.
  destruct (normalise_laps_usable tyre laps {| all_laps := []; total_dist_so_far := 0 |})
    as (acc & -> & Hu & Hnil); [constructor|].
  simpl bind.
  destruct (all_laps acc) as [|c ls] eqn:E.
  - exists None. split; auto. now apply Hnil.
  - assert (Hm : usable (concatenate (c :: ls))).
    { split.
      { apply concatenate_uniform. revert Hu. apply Forall_impl.
        intros c' [H _]. exact H. }
      inversion Hu as [|? ? [_ Hc] _]; subst. simpl.
      destruct (ch_t c); [congruence|discriminate]. }
    destruct Hm as [Hmu Hmt].
    destruct (reorder_in_range (Np.argsort (ch_t (concatenate (c :: ls))))
                (concatenate (c :: ls)) Hmu (argsort_in_range _))
      as (sorted & Hsorted & Hsu & Hsl).
    change (ch_t c ++ concat (map ch_t ls)) with (ch_t (concatenate (c :: ls))).
    rewrite Hsorted. simpl bind. exists (Some sorted). split; auto.
    split; auto. apply nonempty_length. rewrite Hsl, argsort_length.
    now apply nonempty_length.
Qed.

(** *** Time and distance along a trace *)

Lemma combine_app_same {A B : Type} (a1 a2 : list A) (b1 b2 : list B) :
  length a1 = length b1 ->
  combine (a1 ++ a2) (b1 ++ b2) = combine a1 b1 ++ combine a2 b2.
Proof.
  revert b1. induction a1 as [|x a1 IH]; intros [|y b1] H; simpl in *;
    try discriminate; auto.
  f_equal. apply IH. lia.
Qed.

Lemma combine_maps {A B C : Type} (f : A -> B) (g : A -> C) (l : list A) :
  combine (map f l) (map g l) = map (fun x => (f x, g x)) l.
Proof.
  induction l as [|x l IH]; simpl; auto. now rewrite IH.
Qed.

Lemma in_combine_right {A B : Type} (a : list A) (b : list B) (y : B) :
  length a = length b -> In y b -> exists x, In (x, y) (combine a b).
Proof.
  revert b. induction a as [|x a IH]; intros [|y0 b] H Hy; simpl in *;
    try discriminate; try tauto.
  destruct Hy as [<-|Hy].
  - exists x. now left.
  - destruct (IH b) as [x' Hx']; auto. exists x'. now right.
Qed.

Lemma trace_points_concatenate (ls : list channels) :
  Forall uniform ls ->
  trace_points (concatenate ls) = flat_map trace_points ls.
Proof.
  unfold trace_points. simpl.
  induction 1 as [|c ls Hc Hls IH]; simpl; auto.
  rewrite combine_app_same, IH; auto.
  destruct Hc as (_ & _ & Hd & _). now rewrite Hd.
Qed.

(** The values read through an index array are values of the array, and two
    arrays read through the same indices stay paired. *)
Lemma take_length (a : list Q) (order : list nat) (vs : list Q) :
  Np.take a order = Ok vs -> length vs = length order.
Proof.
  revert vs. induction order as [|i order IH]; intros vs H; simpl in H.
  - now inversion H.
  - destruct (Np.item a i) as [v|]; [|discriminate]. simpl bind in H.
    destruct (Np.take a order) as [vs'|]; [|discriminate].
    simpl in H. inversion H. simpl. f_equal. now apply IH.
Qed.

Lemma nth_error_combine {A B : Type} (a : list A) (b : list B) (i : nat) (x : A)
  (y : B) :
  nth_error a i = Some x -> nth_error b i = Some y -> In (x, y) (combine a b).
Proof.
  revert b i. induction a as [|x0 a IH]; intros [|y0 b] [|i] Hx Hy; simpl in *;
    try discriminate.
  - inversion Hx. inversion Hy. now left.
  - right. now apply (IH b i).
Qed.

Lemma take_paired (a b : list Q) (order : list nat) (va vb : list Q) :
  Np.take a order = Ok va -> Np.take b order = Ok vb ->
  forall p, In p (combine va vb) -> In p (combine a b).
Proof.
  revert va vb. induction order as [|i order IH]; intros va vb Ha Hb p Hp;
    simpl in Ha, Hb.
  - inversion Ha. subst va. destruct Hp.
  - unfold Np.item in Ha, Hb.
    destruct (nth_error a i) as [x|] eqn:Ex; [|discriminate].
    destruct (nth_error b i) as [y|] eqn:Ey; [|discriminate].
    simpl bind in Ha, Hb.
    destruct (Np.take a order) as [va'|]; [|discriminate].
    destruct (Np.take b order) as [vb'|]; [|discriminate].
    simpl in Ha, Hb. inversion Ha. inversion Hb. subst va vb.
    destruct Hp as [<-|Hp].
    + now apply nth_error_combine with (i := i).
    + now apply (IH va' vb').
Qed.

(** When time orders distance among the points, any arrangement of points
    that is sorted by time is sorted by distance. *)
Lemma sorted_by_time_sorted_by_distance (points : list (Q * Q)) (ts ds : list Q) :
  time_orders_distance points ->
  (forall p, In p (combine ts ds) -> In p points) ->
  length ts = length ds ->
  StronglySorted Qle ts -> StronglySorted Qle ds.
Proof.
  intros Hpoints. revert ds.
  induction ts as [|t ts IH]; intros [|d ds] Hin Hlen Hsorted; simpl in *;
    try discriminate; try constructor.
  - inversion Hsorted; subst. apply IH; auto.
  - inversion Hsorted as [|? ? _ Hall]; subst.
    apply Forall_forall. intros d' Hd'.
    destruct (in_combine_right ts ds d') as [t' Ht']; auto.
    apply (Hpoints (t, d) (t', d')); auto.
    rewrite Forall_forall in Hall. apply Hall.
    now apply in_combine_l in Ht'.
Qed.

Lemma in_combine_seq (a : list Q) (start i : nat) (v : Q) :
  In (v, i) (combine a (seq start (length a))) ->
  (start <= i)%nat /\ nth_error a (i - start) = Some v.
Proof.
  revert start. induction a as [|x a IH]; intros start H; simpl in H.
  - destruct H.
  - destruct H as [H|H].
    + inversion H. subst. rewrite Nat.sub_diag. auto.
    + apply IH in H. destruct H as [Hle Hnth]. split; [lia|].
      replace (i - start)%nat with (S (i - S start)) by lia. exact Hnth.
Qed.

Lemma take_indexed (a : list Q) (pairs : list (Q * nat)) :
  (forall v i, In (v, i) pairs -> nth_error a i = Some v) ->
  Np.take a (map snd pairs) = Ok (map fst pairs).
Proof.
  induction pairs as [|[v i] pairs IH]; intros H; simpl; auto.
  unfold Np.item. rewrite (H v i) by now left. simpl.
  rewrite IH; auto. intros v' i' Hin. apply H. now right.
Qed.

(** [a[np.argsort(a)]] is [a] in increasing order. *)
Lemma take_argsort_sorted (a : list Q) :
  exists s, Np.take a (Np.argsort a) = Ok s /\ StronglySorted Qle s.
Proof.
  unfold Np.argsort.
  set (before := fun p q : Q * nat => Qle_bool (fst p) (fst q)).
  set (pairs := Np.stable_sort before (combine a (seq 0 (length a)))).
  exists (map fst pairs). split.
  - apply take_indexed. intros v i Hin.
    apply (Permutation_in _ (stable_sort_perm before _)) in Hin.
    apply in_combine_seq in Hin. now rewrite Nat.sub_0_r in Hin.
  - assert (Hs : StronglySorted (fun p q => before p q = true) pairs).
    { apply stable_sort_sorted; unfold before.
      - intros x y Hxy. apply Qle_bool_iff.
        destruct (Qlt_le_dec (fst y) (fst x)) as [Hlt|Hle].
        + now apply Qlt_le_weak.
        + apply Qle_bool_iff in Hle. congruence.
      - intros x y z Hxy Hyz. apply Qle_bool_iff in Hxy, Hyz.
        apply Qle_bool_iff. lra. }
    induction Hs as [|p l Hl IH Hp]; simpl; constructor; auto.
    apply Forall_map. revert Hp. apply Forall_impl.
    intros q. unfold before. apply Qle_bool_iff.
Qed.

Lemma reorder_inv (order : list nat) (c c' : channels) :
  reorder order c = Ok c' ->
  Np.take (ch_t c) order = Ok (ch_t c')
  /\ Np.take (ch_dist c) order = Ok (ch_dist c').
Proof.
  unfold reorder. intros H.
  repeat match type of H with
         | bind ?m _ = _ =>
             let E := fresh "E" in destruct m eqn:E; [simpl bind in H|discriminate]
         end.
  inversion H. simpl. auto.
Qed.

(** *** The lap loop on laps that do not overlap *)

Lemma lap_channels_app (f : channels -> list (Q * Q)) (ls : list channels)
  (c : channels) :
  flat_map f (ls ++ [c]) = flat_map f ls ++ f c.
Proof.
  rewrite flat_map_app. simpl. now rewrite app_nil_r.
Qed.

(** The loop keeps three facts about the points gathered so far: time
    orders distance among them, none is beyond the running total, and the
    latest ones are at the running total. *)
Lemma normalise_laps_points (tyre : string -> Q) (laps : list Lap) (acc : lap_acc) :
  laps_do_not_overlap laps ->
  Forall distance_follows_time laps ->
  Forall uniform (all_laps acc) ->
  (forall p lap b,
     In p (flat_map trace_points (all_laps acc)) ->
     In lap laps -> In b (get_telemetry lap) -> fst p <= SessionTime b) ->
  time_orders_distance (flat_map trace_points (all_laps acc)) ->
  (forall p, In p (flat_map trace_points (all_laps acc)) ->
             snd p <= total_dist_so_far acc) ->
  (forall q, In q (flat_map trace_points (all_laps acc)) ->
             (forall q', In q' (flat_map trace_points (all_laps acc)) ->
                         fst q' <= fst q) ->
             total_dist_so_far acc <= snd q) ->
  exists acc',
    for_each (lap_step tyre) laps acc = Ok acc'
    /\ Forall uniform (all_laps acc')
    /\ time_orders_distance (flat_map trace_points (all_laps acc')).
Proof.
  revert acc.
  induction laps as [|lap laps IH]; intros acc Hseq Hlaps Hu Hcross Hord Hup Hlast.
  - exists acc. simpl. auto.
  - inversion Hseq as [|? ? Hseq' Hbefore]; subst.
    inversion Hlaps as [|? ? Hlap Hlaps']; subst.
    rewrite for_each_cons.
    destruct (get_telemetry lap) as [|s0 tel] eqn:E.
    + unfold lap_step. rewrite E. simpl bind.
      apply IH; auto. intros p lap' b Hp Hl. apply Hcross; auto. now right.
    + destruct (lap_step_spec tyre acc lap) as [m [len [Hmin [Hmax Hstep]]]];
        [rewrite E; discriminate|].
      rewrite Hstep. simpl bind. clear Hstep E.
      set (total := total_dist_so_far acc) in *.
      set (points := flat_map trace_points (all_laps acc)) in *.
      match goal with
      | |- exists acc', for_each _ _ {| all_laps := _ ++ [?c]; total_dist_so_far := _ |} = _ /\ _ =>
          set (new_lap := c)
      end.
      assert (Hnew : trace_points new_lap
                     = map (fun s => (SessionTime s, total + (Distance s - m)))
                         (get_telemetry lap)).
      { unfold trace_points, new_lap. simpl. rewrite !map_map.
        apply combine_maps. }
      (* the minimum and the maximum are reached by samples of the lap *)
      destruct Hmin as [Hmin_in Hmin_le].
      apply in_map_iff in Hmin_in. destruct Hmin_in as [s_min [Hs_min Hs_min_in]].
      destruct Hmax as [Hmax_in Hmax_le].
      rewrite map_map in Hmax_in, Hmax_le.
      apply in_map_iff in Hmax_in. destruct Hmax_in as [s_max [Hs_max Hs_max_in]].
      assert (Em : m == Distance s_min) by now rewrite Hs_min.
      assert (El : len == Distance s_max - m) by now rewrite Hs_max.
      clear Hs_min Hs_max.
      assert (Hlow : forall s, In s (get_telemetry lap) -> m <= Distance s).
      { intros s Hs. apply Hmin_le. now apply in_map. }
      assert (Hhigh : forall s, In s (get_telemetry lap) -> Distance s - m <= len).
      { intros s Hs. apply Hmax_le.
        apply (in_map (fun x => Distance x - m)) in Hs. exact Hs. }
      assert (Hlen : 0 <= len).
      { pose proof (Hhigh s_min Hs_min_in). lra. }
      assert (Hold_new : forall p s, In p points -> In s (get_telemetry lap) ->
                                     fst p <= SessionTime s).
      { intros p s Hp Hs. apply (Hcross p lap s); auto. now left. }
      apply IH; auto.
      * simpl. apply Forall_app. split; auto. constructor; [|constructor].
        unfold uniform, new_lap, Np.full_like. simpl. rewrite !length_map. tauto.
      * simpl. rewrite lap_channels_app, Hnew.
        intros p lap' b Hp Hl Hb. apply in_app_or in Hp. destruct Hp as [Hp|Hp].
        -- apply (Hcross p lap' b); auto. now right.
        -- apply in_map_iff in Hp. destruct Hp as [s [<- Hs]]. simpl.
           rewrite Forall_forall in Hbefore. now apply (Hbefore lap' Hl).
      * simpl. rewrite lap_channels_app, Hnew.
        intros p q Hp Hq Hpq.
        apply in_app_or in Hp. apply in_app_or in Hq.
        destruct Hp as [Hp|Hp]; destruct Hq as [Hq|Hq].
        -- now apply Hord.
        -- apply in_map_iff in Hq. destruct Hq as [s [<- Hs]]. simpl.
           pose proof (Hup p Hp). pose proof (Hlow s Hs). lra.
        -- apply in_map_iff in Hp. destruct Hp as [s [<- Hs]]. simpl in *.
           assert (Hq_last : total <= snd q).
           { apply Hlast; auto. intros q' Hq'.
             pose proof (Hold_new q' s Hq' Hs). lra. }
           assert (Hs_first : Distance s <= Distance s_min).
           { apply Hlap; auto. pose proof (Hold_new q s_min Hq Hs_min_in). lra. }
           lra.
        -- apply in_map_iff in Hp. destruct Hp as [s [<- Hs]].
           apply in_map_iff in Hq. destruct Hq as [s' [<- Hs']]. simpl in *.
           pose proof (Hlap s s' Hs Hs' Hpq). lra.
      * simpl. rewrite lap_channels_app, Hnew.
        intros p Hp. apply in_app_or in Hp. destruct Hp as [Hp|Hp].
        -- pose proof (Hup p Hp). lra.
        -- apply in_map_iff in Hp. destruct Hp as [s [<- Hs]]. simpl.
           pose proof (Hhigh s Hs). lra.
      * simpl. rewrite lap_channels_app, Hnew.
        intros q Hq Hmaxq. apply in_app_or in Hq. destruct Hq as [Hq|Hq].
        -- assert (Hflat : forall s s', In s (get_telemetry lap) ->
                              In s' (get_telemetry lap) -> Distance s <= Distance s').
           { intros s s' Hs Hs'. apply Hlap; auto.
             assert (H1 : SessionTime s <= fst q).
             { apply (Hmaxq (SessionTime s, total + (Distance s - m))).
               apply in_or_app. right.
               apply (in_map (fun x => (SessionTime x, total + (Distance x - m)))) in Hs.
               exact Hs. }
             pose proof (Hold_new q s' Hq Hs'). lra. }
           assert (Hq_last : total <= snd q).
           { apply Hlast; auto. intros q' Hq'. apply Hmaxq.
             apply in_or_app. now left. }
           pose proof (Hflat s_max s_min Hs_max_in Hs_min_in). lra.
        -- apply in_map_iff in Hq. destruct Hq as [s [<- Hs]]. simpl in *.
           assert (Hs_last : Distance s_max <= Distance s).
           { apply Hlap; auto.
             apply (Hmaxq (SessionTime s_max, total + (Distance s_max - m))).
             apply in_or_app. right.
             apply (in_map (fun x => (SessionTime x, total + (Distance x - m))))
               in Hs_max_in.
             exact Hs_max_in. }
           lra.
Qed.

(** Whatever index array sorts the merged samples of a driver by time, the
    race distances read through it do not decrease. *)
Lemma any_time_order_sorts_distance (tyre : string -> Q) (laps : list Lap)
  (merged sorted : channels) (order : list nat) :
  laps_do_not_overlap laps ->
  Forall distance_follows_time laps ->
  merged_trace tyre laps = Ok merged ->
  reorder order merged = Ok sorted ->
  StronglySorted Qle (ch_t sorted) ->
  StronglySorted Qle (ch_dist sorted).
Proof.
  intros Hseq Hlaps Hmerged Hre Hsorted.
  unfold merged_trace, normalise_laps in Hmerged.
  destruct (normalise_laps_points tyre laps
              {| all_laps := []; total_dist_so_far := 0 |} Hseq Hlaps)
    as (acc & Hrun & Hu & Hord); simpl; try tauto.
  { constructor. }
  { intros p q []. }
  rewrite Hrun in Hmerged. simpl in Hmerged. inversion Hmerged. subst merged.
  rewrite <- trace_points_concatenate in Hord by exact Hu.
  apply reorder_inv in Hre. destruct Hre as [Ht Hd].
  apply (sorted_by_time_sorted_by_distance _ (ch_t sorted) (ch_dist sorted) Hord);
    auto.
  - apply (take_paired _ _ order); auto.
  - rewrite (take_length _ _ _ Ht), (take_length _ _ _ Hd). reflexivity.
Qed.

Lemma driver_trace_inv (tyre : string -> Q) (laps : list Lap) (trace : channels) :
  driver_trace tyre laps = Ok (Some trace) ->
  exists merged,
    merged_trace tyre laps = Ok merged
    /\ reorder (Np.argsort (ch_t merged)) merged = Ok trace.
Proof.
  unfold driver_trace, merged_trace.
  destruct (normalise_laps tyre laps) as [acc|]; cbn [bind]; [|discriminate].
  destruct (all_laps acc) as [|c ls]; [discriminate|].
  cbv beta iota zeta.
  destruct (reorder (Np.argsort (ch_t (concatenate (c :: ls))))
              (concatenate (c :: ls))) as [sorted|] eqn:Hre;
    cbn [bind]; [|discriminate].
  intros H. inversion H. subst sorted.
  exists (concatenate (c :: ls)). auto.
Qed.

(** C6, as amended: when the laps of a driver do not overlap in time and
    the in-lap distance does not decrease with time within a lap, the trace
    of the driver is computed without error and, sorted by time, carries
    race distances that do not decrease. *)
Theorem trace_distance_grows (tyre : string -> Q) (laps : list Lap) :
  laps_do_not_overlap laps ->
  Forall distance_follows_time laps ->
  match driver_trace tyre laps with
  | Ok (Some trace) =>
      StronglySorted Qle (ch_t trace) /\ StronglySorted Qle (ch_dist trace)
  | Ok None => Forall (fun lap => get_telemetry lap = []) laps
  | Raise _ => False
  end.
Proof.
  intros Hseq Hlaps.
  destruct (driver_trace_usable tyre laps) as ([trace|] & Hrun & Hr);
    rewrite Hrun; [|exact Hr].
  apply driver_trace_inv in Hrun. destruct Hrun as (merged & Hmerged & Hre).
  assert (Ht : StronglySorted Qle (ch_t trace)).
  { destruct (take_argsort_sorted (ch_t merged)) as (s & Hs & Hsorted).
    apply reorder_inv in Hre. destruct Hre as [Ht _].
    rewrite Hs in Ht. inversion Ht as [Heq]. rewrite <- Heq. exact Hsorted. }
  split; [exact Ht|].
  now apply (any_time_order_sorts_distance tyre laps merged trace
               (Np.argsort (ch_t merged))).
Qed.

Lemma trace_distance_grows_witness :
  match driver_trace example_tyres example_laps with
  | Ok (Some trace) =>
      StronglySorted Qle (ch_t trace) /\ StronglySorted Qle (ch_dist trace)
  | Ok None => Forall (fun lap => get_telemetry lap = []) example_laps
  | Raise _ => False
  end.
Proof.
  apply (trace_distance_grows example_tyres example_laps).
  - unfold laps_do_not_overlap, example_laps.
    constructor; [constructor; [constructor|constructor]|].
    constructor; [|constructor].
    intros a b Ha Hb. simpl in Ha, Hb.
    destruct Ha as [<-|[<-|[<-|[]]]]; destruct Hb as [<-|[<-|[<-|[]]]];
      simpl; discriminate.
  - unfold example_laps.
    constructor; [|constructor; [|constructor]];
      intros a b Ha Hb; simpl in Ha, Hb;
      destruct Ha as [<-|[<-|[<-|[]]]]; destruct Hb as [<-|[<-|[<-|[]]]];
      simpl; intros H; try discriminate; try (exfalso; apply H; reflexivity).
Defined.

(** C6 as it is written fails: with the second lap's telemetry starting
    before the first lap's ends, the trace sorted by time carries the race
    distances 0, 100, 150, 100, 200; and with an in-lap distance that falls
    within a lap the race distances are 5, 0. *)
Lemma overlapping_laps_break_monotony :
  match driver_trace example_tyres overlapping_laps with
  | Ok (Some trace) =>
      ch_t trace = [0; 5; 6; 10; 15]
      /\ ch_dist trace = [0; 100; 150; 100; 200]
      /\ ~ StronglySorted Qle (ch_dist trace)
  | _ => False
  end
  /\ match driver_trace example_tyres falling_lap with
     | Ok (Some trace) =>
         ch_t trace = [0; 1]
         /\ ch_dist trace = [5; 0]
         /\ ~ StronglySorted Qle (ch_dist trace)
     | _ => False
     end.
Proof.
  split; simpl.
  - split; [reflexivity|]. split; [reflexivity|].
    intros H.
    inversion H as [|? ? H1 _]; subst.
    inversion H1 as [|? ? H2 _]; subst.
    inversion H2 as [|? ? _ H3]; subst.
    inversion H3 as [|? ? H4 _]; subst.
    revert H4. unfold Qle. simpl. lia.
  - split; [reflexivity|]. split; [reflexivity|].
    intros H.
    inversion H as [|? ? _ H1]; subst.
    inversion H1 as [|? ? H2 _]; subst.
    revert H2. unfold Qle. simpl. lia.
Qed.

(** *** 2. The timeline *)

(** The rounding to a double keeps the sign, and equal rationals have one
    double. *)
Lemma fl_eq (x y : Q) : x == y -> Np.fl x = Np.fl y.
Proof.
  intros E. unfold Np.fl. now rewrite (Qred_complete x y E).
Qed.

Lemma round_ge_floor (v : Q) : (Qfloor v <= Np.round v)%Z.
Proof.
  unfold Np.round. destruct (Qle_bool _ _); [destruct (Qeq_bool _ _)|];
    [destruct (Z.even _)| |]; lia.
Qed.

Lemma binade_le (a : Q) : 0 < a -> 2 ^ Np.binade a <= a.
Proof.
  intros Ha. unfold Np.binade.
  destruct (Qle_bool (2 ^ (Z.log2 (Qnum a) - Z.log2 (Z.pos (Qden a)))) a) eqn:E.
  - now apply Qle_bool_iff.
  - destruct a as [n d]. simpl Qnum in *. simpl Qden in *.
    assert (Hn : (0 < n)%Z) by (unfold Qlt in Ha; simpl in Ha; lia).
    pose proof (Z.log2_nonneg n) as Hln.
    pose proof (Z.log2_nonneg (Z.pos d)) as Hld.
    destruct (Z.log2_spec n Hn) as [Hn1 _].
    destruct (Z.log2_spec (Z.pos d) (Pos2Z.is_pos d)) as [_ Hd2].
    replace (Z.log2 n - Z.log2 (Z.pos d) - 1)%Z
      with (Z.log2 n - Z.succ (Z.log2 (Z.pos d)))%Z by lia.
    rewrite Qpower_minus by discriminate.
    change 2 with (inject_Z 2).
    rewrite <- !Zpower_Qpower by lia.
    rewrite (Qmake_Qdiv n d).
    assert (H2 : 0 < inject_Z (2 ^ Z.succ (Z.log2 (Z.pos d)))).
    { change 0 with (inject_Z 0). rewrite <- Zlt_Qlt. lia. }
    assert (Hd : 0 < inject_Z (Z.pos d)).
    { change 0 with (inject_Z 0). rewrite <- Zlt_Qlt. lia. }
    apply Qle_shift_div_r; [exact H2|].
    unfold Qdiv. rewrite <- Qmult_assoc, (Qmult_comm (/ _)), Qmult_assoc.
    apply Qle_shift_div_l; [exact Hd|].
    rewrite <- !inject_Z_mult, <- Zle_Qle. nia.
Qed.

Lemma fl_pos_positive (a : Q) : 0 < a -> 0 < Np.fl_pos a.
Proof.
  intros Ha. unfold Np.fl_pos.
  assert (Hu : 0 < 2 ^ (Np.binade a - 52)) by (apply Qpower_0_lt; reflexivity).
  assert (Hq : 1 <= a / (2 ^ (Np.binade a - 52))).
  { apply Qle_shift_div_l; [exact Hu|]. rewrite Qmult_1_l.
    apply Qle_trans with (y := 2 ^ Np.binade a); [|now apply binade_le].
    apply Qpower_le_compat_l; [lia|]. discriminate. }
  assert (Hr : (1 <= Np.round (a / 2 ^ (Np.binade a - 52)))%Z).
  { apply Z.le_trans with (m := Qfloor (a / 2 ^ (Np.binade a - 52)));
      [|apply round_ge_floor].
    change 1%Z with (Qfloor 1). now apply Qfloor_resp_le. }
  apply Qmult_lt_0_compat; [|exact Hu].
  change 0 with (inject_Z 0). rewrite <- Zlt_Qlt. lia.
Qed.

Lemma fl_positive (q : Q) : 0 < q -> 0 < Np.fl q.
Proof.
  intros Hq. unfold Np.fl.
  assert (Hr : 0 < Qred q) by now rewrite Qred_correct.
  destruct (Qnum (Qred q)) eqn:E.
  - unfold Qlt in Hr. rewrite E in Hr. simpl in Hr. lia.
  - rewrite Qred_correct. now apply fl_pos_positive.
  - unfold Qlt in Hr. rewrite E in Hr. simpl in Hr. lia.
Qed.

Lemma fl_not_positive (q : Q) : q <= 0 -> Np.fl q <= 0.
Proof.
  intros Hq. unfold Np.fl.
  assert (Hr : Qred q <= 0) by now rewrite Qred_correct.
  destruct (Qnum (Qred q)) eqn:E.
  - apply Qle_refl.
  - unfold Qle in Hr. rewrite E in Hr. simpl in Hr. lia.
  - rewrite Qred_correct.
    assert (Hp : 0 < - Qred q).
    { unfold Qlt, Qopp. simpl. rewrite E. lia. }
    apply fl_pos_positive in Hp. lra.
Qed.

(** [DT = 1 / FPS] is the double nearest to 1/25, a little above it. *)
Lemma DT_value : DT = 5764607523034235 # 144115188075855872.
Proof. vm_compute. reflexivity. Qed.

Lemma DT_positive : 0 < DT.
Proof. rewrite DT_value. reflexivity. Qed.

Lemma timeline_grid_length (t_min t_max : Q) :
  length (timeline_grid t_min t_max)
  = Z.to_nat (Qceiling (Np.fl (Np.fl (t_max - t_min) / DT))).
Proof.
  unfold timeline_grid, Np.arange.
  now rewrite !length_map, length_seq.
Qed.

Lemma timeline_grid_first (t_min t_max t : Q) :
  nth_error (timeline_grid t_min t_max) 0 = Some t -> t = 0.
Proof.
  unfold timeline_grid, Np.arange.
  destruct (Z.to_nat (Qceiling (Np.fl (Np.fl (t_max - t_min) / DT)))) as [|n];
    [discriminate|].
  simpl. intros H. inversion H.
  apply (fl_eq (t_min - t_min) 0). ring.
Qed.

Lemma timeline_grid_some (t_min t_max : Q) :
  t_min < t_max -> timeline_grid t_min t_max <> [].
Proof.
  intros Hlt. apply nonempty_length. rewrite timeline_grid_length.
  assert (Hd : 0 < Np.fl (t_max - t_min)) by (apply fl_positive; lra).
  assert (Hq : 0 < Np.fl (Np.fl (t_max - t_min) / DT)).
  { apply fl_positive. apply Qlt_shift_div_l; [apply DT_positive|]. lra. }
  assert (Hc : 0 < inject_Z (Qceiling (Np.fl (Np.fl (t_max - t_min) / DT)))).
  { apply Qlt_le_trans with (y := Np.fl (Np.fl (t_max - t_min) / DT));
      [exact Hq|apply Qle_ceiling]. }
  change 0 with (inject_Z 0) in Hc. rewrite <- Zlt_Qlt in Hc. lia.
Qed.

Lemma timeline_grid_none (t_min t_max : Q) :
  t_max <= t_min -> timeline_grid t_min t_max = [].
Proof.
  intros Hle. apply length_zero_iff_nil. rewrite timeline_grid_length.
  assert (Hd : Np.fl (t_max - t_min) <= 0) by (apply fl_not_positive; lra).
  assert (Hq : Np.fl (Np.fl (t_max - t_min) / DT) <= 0).
  { apply fl_not_positive. apply Qle_shift_div_r; [apply DT_positive|]. lra. }
  assert (Hc : inject_Z (Qceiling (Np.fl (Np.fl (t_max - t_min) / DT)) - 1) < 0).
  { apply Qlt_le_trans with (y := Np.fl (Np.fl (t_max - t_min) / DT));
      [apply Qceiling_lt|exact Hq]. }
  change 0 with (inject_Z 0) in Hc. rewrite <- Zlt_Qlt in Hc. lia.
Qed.

(** C3, as amended: with DT the double nearest to 1/25, the grid has as
    many ticks as the ceiling of the quotient (globalMax - globalMin) / DT
    computed in double precision; as soon as globalMin < globalMax the grid
    is not empty and its first tick is 0; it is empty when globalMax is not
    above globalMin. *)
Theorem timeline_grid_bounds (t_min t_max : Q) :
  DT = 5764607523034235 # 144115188075855872
  /\ length (timeline_grid t_min t_max)
     = Z.to_nat (Qceiling (Np.fl (Np.fl (t_max - t_min) / DT)))
  /\ (t_min < t_max ->
      exists t rest, timeline_grid t_min t_max = t :: rest /\ t = 0)
  /\ (t_max <= t_min -> timeline_grid t_min t_max = []).
Proof.
  split; [apply DT_value|].
  split; [apply timeline_grid_length|].
  split; [|apply timeline_grid_none].
  intros Hlt. pose proof (timeline_grid_some t_min t_max Hlt) as Hne.
  pose proof (timeline_grid_first t_min t_max) as Hfirst.
  destruct (timeline_grid t_min t_max) as [|t rest]; [congruence|].
  exists t, rest. split; [reflexivity|]. now apply Hfirst.
Qed.

Lemma timeline_grid_bounds_witness :
  (exists t rest, timeline_grid 10 (21 # 2) = t :: rest /\ t = 0)
  /\ length (timeline_grid 10 (21 # 2)) = 13%nat
  /\ timeline_grid 10 10 = [].
Proof.
  split; [|split].
  - apply (proj1 (proj2 (proj2 (timeline_grid_bounds 10 (21 # 2))))).
    reflexivity.
  - rewrite (proj1 (proj2 (timeline_grid_bounds 10 (21 # 2)))).
    vm_compute. reflexivity.
  - apply (proj2 (proj2 (proj2 (timeline_grid_bounds 10 10)))).
    discriminate.
Defined.

(** C3 as it is written fails.  On the count: between 0 and 1/2 s there
    are 13 ticks, and floor(0.5 / 0.04) is 12.  On the count and on the
    last tick: between 0 and the double 0.28 there are 8 ticks where the
    floor is 7, and the last tick is 0.28 itself, not below it. *)
Lemma timeline_tick_count_is_not_floor :
  (length (timeline_grid 0 (1 # 2)) = 13%nat
   /\ Z.to_nat (Qfloor (((1 # 2) - 0) / (1 # 25))) = 12%nat
   /\ Z.to_nat (Qfloor (((1 # 2) - 0) / DT)) = 12%nat)
  /\ (length (timeline_grid 0 (1261007895663739 # 4503599627370496)) = 8%nat
      /\ Z.to_nat (Qfloor (((1261007895663739 # 4503599627370496) - 0) / (1 # 25)))
         = 7%nat
      /\ Z.to_nat (Qfloor (((1261007895663739 # 4503599627370496) - 0) / DT))
         = 7%nat
      /\ nth_error (timeline_grid 0 (1261007895663739 # 4503599627370496)) 7
         = Some (1261007895663739 # 4503599627370496)
      /\ ~ (1261007895663739 # 4503599627370496)
            < (1261007895663739 # 4503599627370496) - 0).
Proof.
  split; [repeat split; vm_compute; reflexivity|].
  split; [vm_compute; reflexivity|].
  split; [vm_compute; reflexivity|].
  split; [vm_compute; reflexivity|].
  split; [vm_compute; reflexivity|].
  intros H. vm_compute in H. discriminate.
Qed.

(** *** 4. Track status intervals *)

Lemma format_track_status_spec (t_min : Q) (pre : list TrackStatusEvent)
  (e : TrackStatusEvent) :
  format_track_status t_min (intervals_of t_min pre) e = intervals_of t_min (pre ++ [e]).
Proof.
  induction pre as [|p pre IH].
  - reflexivity.
  - destruct pre as [|q pre].
    + reflexivity.
    + change (intervals_of t_min ((p :: q :: pre) ++ [e]))
        with (interval (TrackStatus p) (Time p - t_min) (Some (Time q - t_min))
                :: intervals_of t_min ((q :: pre) ++ [e])).
      rewrite <- IH. reflexivity.
Qed.

Lemma format_track_statuses_from (t_min : Q) (events pre : list TrackStatusEvent) :
  fold_left (format_track_status t_min) events (intervals_of t_min pre)
  = intervals_of t_min (pre ++ events).
Proof.
  revert pre. induction events as [|e events IH]; intros pre; simpl.
  - now rewrite app_nil_r.
  - rewrite format_track_status_spec, IH, <- app_assoc. reflexivity.
Qed.

Lemma format_track_statuses_spec (t_min : Q) (events : list TrackStatusEvent) :
  format_track_statuses t_min events = intervals_of t_min events.
Proof.
  apply (format_track_statuses_from t_min events []).
Qed.

Lemma intervals_of_nth (t_min : Q) (events : list TrackStatusEvent) (k : nat)
  (e : TrackStatusEvent) :
  nth_error events k = Some e ->
  nth_error (intervals_of t_min events) k
  = Some (interval (TrackStatus e) (Time e - t_min)
            (option_map (fun e' => Time e' - t_min) (nth_error events (S k)))).
Proof.
  revert k. induction events as [|e0 events IH]; intros k Hk.
  - destruct k; discriminate.
  - destruct k as [|k]; simpl in Hk.
    + inversion Hk; subst e0. simpl. now destruct events.
    + simpl. now apply IH.
Qed.

Lemma intervals_of_length (t_min : Q) (events : list TrackStatusEvent) :
  length (intervals_of t_min events) = length events.
Proof.
  induction events; simpl; auto.
Qed.

(** C9: the interval of the [k]-th event carries its status and its shifted
    time, ends at the shifted time of the event after it, and is left open
    (null) when there is none; on the events of the example the intervals
    are those the design document lists. *)
Theorem overlay_intervals (t_min : Q) (events : list TrackStatusEvent) :
  length (format_track_statuses t_min events) = length events
  /\ (forall k e,
        nth_error events k = Some e ->
        nth_error (format_track_statuses t_min events) k
        = Some {| ts_status := TrackStatus e;
                  start_time := Time e - t_min;
                  end_time := option_map (fun e' => Time e' - t_min)
                                (nth_error events (S k)) |})
  /\ format_track_statuses 0 [event 0 "Clear"; event 50 "Yellow"; event 80 "Clear"]
     = [interval "Clear" 0 (Some 50);
        interval "Yellow" 50 (Some 80);
        interval "Clear" 80 None].
Proof.
  rewrite format_track_statuses_spec. split; [|split].
  - apply intervals_of_length.
  - intros k e. apply intervals_of_nth.
  - reflexivity.
Qed.

Lemma overlay_intervals_witness :
  nth_error (format_track_statuses 10 [event 10 "1"; event 60 "4"; event 90 "1"]) 1
  = Some (interval "4" (60 - 10) (Some (90 - 10)))
  /\ nth_error (format_track_statuses 10 [event 10 "1"; event 60 "4"; event 90 "1"]) 2
  = Some (interval "1" (90 - 10) None).
Proof.
  split.
  - apply (proj1 (proj2 (overlay_intervals 10 [event 10 "1"; event 60 "4"; event 90 "1"]))
             1%nat (event 60 "4")).
    reflexivity.
  - apply (proj1 (proj2 (overlay_intervals 10 [event 10 "1"; event 60 "4"; event 90 "1"]))
             2%nat (event 90 "1")).
    reflexivity.
Defined.

(** *** 5. The tick loop *)

Lemma detect_leader_finish_frames (m : PyDict.dict driver_status) (i : nat)
  (leader : car) (st : asm_state) :
  frames (detect_leader_finish m i leader st) = frames st.
Proof.
  unfold detect_leader_finish.
  destruct (PyDict.get (car_code leader) m) as [s|]; [|reflexivity].
  now destruct (_ && _).
Qed.

Lemma detect_leader_finish_recorded (m : PyDict.dict driver_status) (i : nat)
  (leader : car) (st : asm_state) (k : nat) :
  race_leader_finished_frame st = Some k ->
  race_leader_finished_frame (detect_leader_finish m i leader st) = Some k.
Proof.
  unfold detect_leader_finish. intros H.
  destruct (PyDict.get (car_code leader) m) as [s|]; [|exact H].
  rewrite H, andb_false_r. exact H.
Qed.

Lemma detect_driver_finish_fold (m : PyDict.dict driver_status) (i : nat)
  (cs : list car) (st : asm_state) :
  frames (fold_left (detect_driver_finish m i) cs st) = frames st
  /\ race_leader_finished_frame (fold_left (detect_driver_finish m i) cs st)
     = race_leader_finished_frame st.
Proof.
  revert st. induction cs as [|c cs IH]; intros st; simpl; auto.
  destruct (IH (detect_driver_finish m i st c)) as [-> ->]. auto.
Qed.

(** What a tick does: nothing when there is no driver, else it appends one
    frame after the two finish detections. *)
Lemma tick_inv (m : PyDict.dict driver_status) (r : PyDict.dict channels)
  (st st' : asm_state) (i : nat) (t : Q) :
  tick m r st (i, t) = Ok st' ->
  st' = st
  \/ exists snapshot leader rest,
       build_snapshot i (PyDict.items r) = Ok snapshot
       /\ sort_by_dist snapshot = leader :: rest
       /\ let st2 := fold_left (detect_driver_finish m i) (leader :: rest)
                       (detect_leader_finish m i leader st) in
          st' = {| frames := frames st2 ++ [frame_of t leader rest st2];
                   driver_last_seen_lap := driver_last_seen_lap st2;
                   driver_finish_frame := driver_finish_frame st2;
                   race_leader_finished_frame := race_leader_finished_frame st2 |}.
Proof.
  unfold tick. intros H.
  destruct (build_snapshot i (PyDict.items r)) as [snapshot|e]; [|discriminate].
  simpl bind in H. destruct snapshot as [|c0 cs].
  - left. now inversion H.
  - destruct (sort_by_dist (c0 :: cs)) as [|leader rest] eqn:E; [discriminate|].
    right. exists (c0 :: cs), leader, rest.
    split; [reflexivity|]. split; [exact E|].
    now inversion H.
Qed.

Lemma tick_keeps_finish_recorded (m : PyDict.dict driver_status)
  (r : PyDict.dict channels) (st st' : asm_state) (it : nat * Q) :
  finish_recorded st -> tick m r st it = Ok st' -> finish_recorded st'.
Proof.
  destruct it as [i t]. intros (Ha & Hb & Hc) H.
  apply tick_inv in H.
  destruct H as [->|(snapshot & leader & rest & _ & _ & ->)]; [repeat split; auto|].
  destruct (detect_driver_finish_fold m i (leader :: rest)
              (detect_leader_finish m i leader st)) as [Hf Hr].
  rewrite detect_leader_finish_frames in Hf.
  set (st2 := fold_left _ _ _) in *.
  assert (Hkeep : forall k, race_leader_finished_frame st = Some k ->
                    race_leader_finished_frame st2 = Some k).
  { intros k Hk. rewrite Hr. now apply detect_leader_finish_recorded. }
  unfold finish_recorded. simpl. rewrite Hf. repeat split.
  - intros f Hin. apply in_app_or in Hin. destruct Hin as [Hin|[<-|[]]]; auto.
  - intros f k Hin Hk. apply in_app_or in Hin. destruct Hin as [Hin|[<-|[]]].
    + apply Hkeep. now apply (Hb f).
    + exact Hk.
  - intros a b fa fb k Hab Hfa Hfb Hk.
    apply nth_error_snoc in Hfb. destruct Hfb as [[Hlt Hfb]|[-> ->]].
    + rewrite nth_error_app1 in Hfa by lia. now apply (Hc a b fa fb).
    + rewrite nth_error_app1 in Hfa by lia. simpl.
      apply Hkeep. apply (Hb fa); auto. now apply nth_error_In in Hfa.
Qed.

Lemma build_frames_finish_recorded (m : PyDict.dict driver_status)
  (r : PyDict.dict channels) (timeline : list Q) (st : asm_state) :
  build_frames m r timeline = Ok st -> finish_recorded st.
Proof.
  unfold build_frames.
  apply for_each_invariant with (P := finish_recorded).
  - intros s x s' _. apply tick_keeps_finish_recorded.
  - unfold finish_recorded, initial_state. simpl. repeat split.
    + intros f [].
    + intros f k [].
    + intros i j fi fj k _ Hi. destruct i; discriminate.
Qed.

(** The stages of the computation, when it succeeds. *)
Lemma compute_race_telemetry_inv (tyre : string -> Q) (session : Session)
  (out : bundle) :
  compute_race_telemetry tyre session = Ok out ->
  exists loaded t_min timeline resampled st,
    load_drivers tyre session = Ok loaded
    /\ build_timeline (global_t_min loaded) (global_t_max loaded) = Ok (t_min, timeline)
    /\ resample timeline t_min (driver_data loaded) = Ok resampled
    /\ build_frames (extract_driver_status (results session)) resampled timeline = Ok st
    /\ out = {| out_frames := frames st;
                out_track_statuses := format_track_statuses t_min (track_status session);
                out_driver_status := extract_driver_status (results session);
                out_driver_finish_frames := driver_finish_frame st |}.
Proof.
  unfold compute_race_telemetry. intros H.
  destruct (load_drivers tyre session) as [loaded|e] eqn:E1; [|discriminate].
  simpl bind in H.
  destruct (build_timeline (global_t_min loaded) (global_t_max loaded))
    as [[t_min timeline]|e] eqn:E2; [|discriminate].
  simpl bind in H.
  destruct (resample timeline t_min (driver_data loaded)) as [resampled|e] eqn:E3;
    [|discriminate].
  simpl bind in H.
  destruct (build_frames (extract_driver_status (results session)) resampled timeline)
    as [st|e] eqn:E4; [|discriminate].
  simpl bind in H. inversion H.
  exists loaded, t_min, timeline, resampled, st. repeat split; auto.
Qed.

(** C4: in the frame sequence of a computed bundle, a frame after one whose
    [race_finished] flag is set has the flag set too, and carries the same
    leader-finish frame index. *)
Theorem race_finished_stays (tyre : string -> Q) (session : Session) (out : bundle)
  (i j : nat) (fi fj : frame) :
  compute_race_telemetry tyre session = Ok out ->
  (i < j)%nat ->
  nth_error (out_frames out) i = Some fi ->
  nth_error (out_frames out) j = Some fj ->
  fr_race_finished fi = true ->
  fr_race_finished fj = true
  /\ fr_leader_finished_frame fj = fr_leader_finished_frame fi.
Proof.
  intros Hrun Hij Hi Hj Hfin.
  apply compute_race_telemetry_inv in Hrun.
  destruct Hrun as (loaded & t_min & timeline & resampled & st & _ & _ & _ & Hst & ->).
  apply build_frames_finish_recorded in Hst. destruct Hst as (Ha & Hb & Hc).
  simpl in Hi, Hj.
  assert (Hini : In fi (frames st)) by now apply nth_error_In in Hi.
  assert (Hinj : In fj (frames st)) by now apply nth_error_In in Hj.
  rewrite (Ha fi Hini) in Hfin. rewrite (Ha fj Hinj).
  destruct (fr_leader_finished_frame fi) as [k|] eqn:Ek; [|discriminate].
  rewrite (Hc i j fi fj k Hij Hi Hj Ek). auto.
Qed.

Lemma race_finished_stays_witness :
  exists fi fj,
    nth_error (out_frames dnf_output) 2 = Some fi
    /\ nth_error (out_frames dnf_output) 3 = Some fj
    /\ fr_race_finished fi = true
    /\ fr_race_finished fj = true
    /\ fr_leader_finished_frame fj = fr_leader_finished_frame fi.
Proof.
  destruct (nth_error (out_frames dnf_output) 2) as [fi|] eqn:Ei; [|discriminate].
  destruct (nth_error (out_frames dnf_output) 3) as [fj|] eqn:Ej; [|discriminate].
  exists fi, fj. split; [reflexivity|]. split; [reflexivity|].
  assert (Hfin : fr_race_finished fi = true) by (inversion Ei; reflexivity).
  split; [exact Hfin|].
  apply (race_finished_stays example_tyres dnf_session dnf_output 2 3 fi fj).
  - vm_compute. reflexivity.
  - lia.
  - exact Ei.
  - exact Ej.
  - exact Hfin.
Defined.

(** *** Finish frames *)

Lemma detect_driver_finish_keeps (m : PyDict.dict driver_status) (i : nat)
  (st : asm_state) (c : car) (k : string) (v : nat) :
  PyDict.get k (driver_finish_frame st) = Some v ->
  PyDict.get k (driver_finish_frame (detect_driver_finish m i st c)) = Some v.
Proof.
  intros Hk. unfold detect_driver_finish. simpl.
  destruct (PyDict.get (car_code c) m) as [s|]; [|exact Hk].
  destruct (laps_completed s <? car_lap c)%Z; simpl; [|exact Hk].
  destruct (PyDict.mem (car_code c) (driver_finish_frame st)) eqn:Hmem; simpl;
    [exact Hk|].
  destruct (is_finished s); [|exact Hk].
  rewrite get_set_other; [exact Hk|].
  intros ->. unfold PyDict.mem in Hmem. now rewrite Hk in Hmem.
Qed.

Lemma detect_driver_finish_fold_keeps (m : PyDict.dict driver_status) (i : nat)
  (cs : list car) (st : asm_state) (k : string) (v : nat) :
  PyDict.get k (driver_finish_frame st) = Some v ->
  PyDict.get k (driver_finish_frame (fold_left (detect_driver_finish m i) cs st))
  = Some v.
Proof.
  revert st. induction cs as [|c cs IH]; intros st Hk; simpl; auto.
  apply IH. now apply detect_driver_finish_keeps.
Qed.

(** C10: at a tick where the leader's rounded lap exceeds the leader's
    official lap count and no leader-finish frame is recorded, the tick
    records itself as leader-finish frame and as finish frame of the leader,
    whatever the leader's [is_finished]; the per-driver step records nothing
    for a driver whose [is_finished] is false; and in the short race above
    VER, classified as retired, ends with a finish frame. *)
Theorem leader_finish_ignores_is_finished :
  (forall (m : PyDict.dict driver_status) (r : PyDict.dict channels)
          (st : asm_state) (i : nat) (t : Q)
          (snapshot : list car) (leader : car) (rest : list car) (s : driver_status),
      build_snapshot i (PyDict.items r) = Ok snapshot ->
      sort_by_dist snapshot = leader :: rest ->
      PyDict.get (car_code leader) m = Some s ->
      (laps_completed s < car_lap leader)%Z ->
      race_leader_finished_frame st = None ->
      exists st',
        tick m r st (i, t) = Ok st'
        /\ race_leader_finished_frame st' = Some i
        /\ PyDict.get (car_code leader) (driver_finish_frame st') = Some i)
  /\ (forall (m : PyDict.dict driver_status) (i : nat) (st : asm_state)
             (c : car) (s : driver_status),
        PyDict.get (car_code c) m = Some s ->
        is_finished s = false ->
        driver_finish_frame (detect_driver_finish m i st c) = driver_finish_frame st)
  /\ (exists s,
        PyDict.get "VER" (out_driver_status dnf_output) = Some s
        /\ is_finished s = false
        /\ is_dnf s = true
        /\ compute_race_telemetry example_tyres dnf_session = Ok dnf_output
        /\ PyDict.get "VER" (out_driver_finish_frames dnf_output) = Some 2%nat).
Proof.
  split; [|split].
  - intros m r st i t snapshot leader rest s Hsnap Hsort Hget Hlap Hnone.
    unfold tick. rewrite Hsnap. simpl bind.
    destruct snapshot as [|c0 cs]; [discriminate|].
    rewrite Hsort.
    eexists. split; [reflexivity|]. simpl.
    assert (Hlead : detect_leader_finish m i leader st
                    = {| frames := frames st;
                         driver_last_seen_lap := driver_last_seen_lap st;
                         driver_finish_frame :=
                           PyDict.set (car_code leader) i (driver_finish_frame st);
                         race_leader_finished_frame := Some i |}).
    { unfold detect_leader_finish. rewrite Hget, Hnone.
      apply Z.ltb_lt in Hlap. now rewrite Hlap. }
    split.
    + change (race_leader_finished_frame
                (fold_left (detect_driver_finish m i) (leader :: rest)
                   (detect_leader_finish m i leader st)) = Some i).
      rewrite (proj2 (detect_driver_finish_fold m i (leader :: rest) _)).
      now rewrite Hlead.
    + change (PyDict.get (car_code leader)
                (driver_finish_frame
                   (fold_left (detect_driver_finish m i) (leader :: rest)
                      (detect_leader_finish m i leader st))) = Some i).
      apply detect_driver_finish_fold_keeps.
      rewrite Hlead. simpl. apply get_set_same.
  - intros m i st c s Hget Hfin. unfold detect_driver_finish. simpl.
    rewrite Hget, Hfin. now destruct (_ && _).
  - eexists. split; [reflexivity|]. repeat split.
Qed.

Lemma leader_finish_ignores_is_finished_witness :
  exists st',
    tick (out_driver_status dnf_output)
      [("VER", {| ch_t := [0]; ch_x := [0]; ch_y := [0]; ch_dist := [10];
                  ch_rel_dist := [0]; ch_lap := [2]; ch_tyre := [0];
                  ch_speed := [100]; ch_gear := [3]; ch_drs := [0] |})]
      (initial_state []) (0%nat, 0) = Ok st'
    /\ race_leader_finished_frame st' = Some 0%nat
    /\ PyDict.get "VER" (driver_finish_frame st') = Some 0%nat.
Proof.
  apply (proj1 leader_finish_ignores_is_finished
           (out_driver_status dnf_output)
           [("VER", {| ch_t := [0]; ch_x := [0]; ch_y := [0]; ch_dist := [10];
                       ch_rel_dist := [0]; ch_lap := [2]; ch_tyre := [0];
                       ch_speed := [100]; ch_gear := [3]; ch_drs := [0] |})]
           (initial_state []) 0%nat 0
           [{| car_code := "VER"; car_dist := 10; car_x := 0; car_y := 0;
               car_lap := 2; car_rel_dist := 0; car_tyre := 0; car_speed := 100;
               car_gear := 3; car_drs := 0 |}]
           {| car_code := "VER"; car_dist := 10; car_x := 0; car_y := 0;
              car_lap := 2; car_rel_dist := 0; car_tyre := 0; car_speed := 100;
              car_gear := 3; car_drs := 0 |}
           []
           {| status := "Retired"; classification := "R"; laps_completed := 1;
              is_finished := false; is_dnf := true |}).
  - reflexivity.
  - reflexivity.
  - reflexivity.
  - reflexivity.
  - reflexivity.
Defined.

(** *** The ranks of a frame *)

Lemma sort_by_dist_sorted (snapshot : list car) :
  StronglySorted (fun a b => car_dist b <= car_dist a) (sort_by_dist snapshot).
Proof.
  unfold sort_by_dist.
  assert (H : StronglySorted
                (fun a b => Qle_bool (car_dist b) (car_dist a) = true)
                (Np.stable_sort (fun a b => Qle_bool (car_dist b) (car_dist a)) snapshot)).
  { apply stable_sort_sorted.
    - intros x y Hxy. apply Qle_bool_iff.
      destruct (Qlt_le_dec (car_dist x) (car_dist y)) as [Hlt|Hle].
      + now apply Qlt_le_weak.
      + apply Qle_bool_iff in Hle. congruence.
    - intros x y z Hxy Hyz. apply Qle_bool_iff in Hxy, Hyz.
      apply Qle_bool_iff. lra. }
  induction H as [|a l Hs IH Ha]; constructor; auto.
  revert Ha. apply Forall_impl. intros b. apply Qle_bool_iff.
Qed.

Lemma snapshot_entry_code (i : nat) (c : string) (d : channels) (entry : car) :
  snapshot_entry i (c, d) = Ok entry -> car_code entry = c.
Proof.
  unfold snapshot_entry. intros E.
  repeat match type of E with
         | bind ?m _ = _ => destruct m; [simpl bind in E|discriminate]
         end.
  now inversion E.
Qed.

Lemma build_snapshot_codes (i : nat) (entries : list (string * channels))
  (snapshot : list car) :
  build_snapshot i entries = Ok snapshot ->
  map car_code snapshot = map fst entries.
Proof.
  revert snapshot. induction entries as [|[c d] entries IH]; intros snapshot H.
  - now inversion H.
  - change (build_snapshot i ((c, d) :: entries))
      with (entry <- snapshot_entry i (c, d) ;;
            cs <- build_snapshot i entries ;; Ok (entry :: cs)) in H.
    destruct (snapshot_entry i (c, d)) as [entry|e] eqn:E; [|discriminate].
    simpl bind in H.
    destruct (build_snapshot i entries) as [cs|e]; [|discriminate].
    simpl in H. inversion H. simpl. f_equal; auto.
    now apply snapshot_entry_code in E.
Qed.

Lemma fold_set_fresh {V : Type} (kvs : list (string * V)) (d : PyDict.dict V) :
  NoDup (PyDict.keys d ++ map fst kvs) ->
  fold_left (fun d kv => PyDict.set (fst kv) (snd kv) d) kvs d = d ++ kvs.
Proof.
  revert d. induction kvs as [|[k v] kvs IH]; intros d Hd; simpl.
  - now rewrite app_nil_r.
  - simpl in Hd. rewrite set_fresh.
    + rewrite IH.
      * now rewrite <- app_assoc.
      * unfold PyDict.keys in *. rewrite map_app, <- app_assoc. exact Hd.
    + apply NoDup_remove_2 in Hd. intros Hin. apply Hd.
      apply in_or_app. now left.
Qed.

Lemma build_frame_data_rows (snapshot : list car) :
  NoDup (map car_code snapshot) ->
  build_frame_data snapshot = map frame_row (enumerate snapshot).
Proof.
  intros Hnd. unfold build_frame_data.
  assert (Hfold : forall es d,
             fold_left frame_entry es d
             = fold_left (fun d kv => PyDict.set (fst kv) (snd kv) d)
                 (map frame_row es) d).
  { induction es as [|[idx c] es IH]; intros d; simpl; auto. }
  assert (Hkeys : map fst (map frame_row (enumerate snapshot))
                  = map car_code snapshot).
  { rewrite map_map.
    transitivity (map car_code (map snd (enumerate snapshot))).
    - now rewrite map_map.
    - unfold enumerate. now rewrite enumerate_snd. }
  rewrite Hfold, fold_set_fresh; [reflexivity|].
  simpl. now rewrite Hkeys.
Qed.

Lemma positions_of_rows (snapshot : list car) :
  map df_position (PyDict.values (map frame_row (enumerate snapshot)))
  = seq 1 (length snapshot).
Proof.
  unfold PyDict.values, enumerate. rewrite !map_map.
  transitivity (map (fun n => (n + 1)%nat)
                  (map fst (combine (seq 0 (length snapshot)) snapshot))).
  - now rewrite map_map.
  - rewrite enumerate_fst, <- seq_shift.
    apply map_ext. intros n. lia.
Qed.

(** The frame written for a sorted snapshot of drivers with distinct codes
    has its ranks in order. *)
Lemma frame_ranks_ok (t : Q) (snapshot : list car) (leader : car) (rest : list car)
  (st : asm_state) :
  NoDup (map car_code snapshot) ->
  sort_by_dist snapshot = leader :: rest ->
  ranks_ok (frame_of t leader rest st).
Proof.
  intros Hnd Hsort.
  assert (Hnd' : NoDup (map car_code (leader :: rest))).
  { rewrite <- Hsort. unfold sort_by_dist.
    apply (Permutation_NoDup (l := map car_code snapshot)); auto.
    apply Permutation_map, Permutation_sym, stable_sort_perm. }
  pose proof (sort_by_dist_sorted snapshot) as Hsorted. rewrite Hsort in Hsorted.
  unfold ranks_ok, frame_of. simpl fr_drivers.
  rewrite build_frame_data_rows by exact Hnd'.
  rewrite positions_of_rows.
  unfold PyDict.values. rewrite !length_map, enumerate_length.
  split; [apply seq_NoDup|]. split.
  - intros r. rewrite in_seq. lia.
  - intros d d' Hd Hpos Hd'. rewrite map_map in Hd, Hd'.
    apply in_map_iff in Hd. destruct Hd as [[idx c] [<- Hin]].
    apply in_map_iff in Hd'. destruct Hd' as [[idx' c'] [<- Hin']].
    unfold frame_row in *. cbn [snd fst df_position df_dist] in *.
    destruct (first_of_enumerate _ _ _ Hin Hpos) as [rest' Heq].
    inversion Heq; subst c rest'.
    apply in_combine_r in Hin'. destruct Hin' as [<-|Hin'].
    + apply Qle_refl.
    + inversion Hsorted as [|? ? _ Hall]; subst.
      rewrite Forall_forall in Hall. now apply Hall.
Qed.

Lemma resample_keys_nodup (timeline : list Q) (t_min : Q)
  (driver_data resampled : PyDict.dict channels) :
  resample timeline t_min driver_data = Ok resampled ->
  NoDup (PyDict.keys resampled).
Proof.
  unfold resample.
  apply for_each_invariant with (P := fun d => NoDup (PyDict.keys d)).
  - intros d [c data] d' _ Hd H. unfold resample_driver in H.
    repeat match type of H with
           | bind ?m _ = _ => destruct m; [simpl bind in H|discriminate]
           end.
    inversion H. now apply set_keys_nodup.
  - constructor.
Qed.

Lemma tick_keeps_ranks_ok (m : PyDict.dict driver_status)
  (r : PyDict.dict channels) (st st' : asm_state) (it : nat * Q) :
  NoDup (PyDict.keys r) ->
  Forall ranks_ok (frames st) -> tick m r st it = Ok st' ->
  Forall ranks_ok (frames st').
Proof.
  destruct it as [i t]. intros Hnd Hall H.
  apply tick_inv in H.
  destruct H as [->|(snapshot & leader & rest & Hsnap & Hsort & ->)]; auto.
  destruct (detect_driver_finish_fold m i (leader :: rest)
              (detect_leader_finish m i leader st)) as [Hf _].
  rewrite detect_leader_finish_frames in Hf.
  set (st2 := fold_left _ _ _) in *.
  simpl. rewrite Hf. apply Forall_app. split; [exact Hall|].
  constructor; [|constructor].
  {
    apply frame_ranks_ok with (snapshot := snapshot); auto.
    now rewrite (build_snapshot_codes _ _ _ Hsnap). }
Qed.

(** C1: in every frame of a computed bundle the ranks are pairwise
    distinct, they are exactly 1, ..., n for the n drivers of the frame, and
    the driver ranked first has the greatest race distance of the frame. *)
Theorem frame_ranks (tyre : string -> Q) (session : Session) (out : bundle)
  (f : frame) :
  compute_race_telemetry tyre session = Ok out ->
  In f (out_frames out) ->
  let ds := PyDict.values (fr_drivers f) in
  NoDup (map df_position ds)
  /\ (forall r, In r (map df_position ds) <-> (1 <= r <= length ds)%nat)
  /\ (forall d d', In d ds -> df_position d = 1%nat -> In d' ds ->
        df_dist d' <= df_dist d).
Proof.
  intros Hrun Hf.
  apply compute_race_telemetry_inv in Hrun.
  destruct Hrun as (loaded & t_min & timeline & resampled & st & _ & _ & Hres & Hst & ->).
  apply resample_keys_nodup in Hres. simpl in Hf.
  assert (Hall : Forall ranks_ok (frames st)).
  { revert Hst. unfold build_frames.
    apply for_each_invariant with (P := fun s => Forall ranks_ok (frames s)).
    - intros s x s' _. now apply tick_keeps_ranks_ok.
    - constructor. }
  rewrite Forall_forall in Hall. exact (Hall f Hf).
Qed.

Lemma frame_ranks_witness :
  exists f,
    nth_error (out_frames dnf_output) 3 = Some f
    /\ map df_position (PyDict.values (fr_drivers f)) = [1; 2]%nat
    /\ NoDup (map df_position (PyDict.values (fr_drivers f)))
    /\ (forall r, In r (map df_position (PyDict.values (fr_drivers f)))
                  <-> (1 <= r <= length (PyDict.values (fr_drivers f)))%nat)
    /\ (forall d d',
          In d (PyDict.values (fr_drivers f)) -> df_position d = 1%nat ->
          In d' (PyDict.values (fr_drivers f)) -> df_dist d' <= df_dist d).
Proof.
  destruct (nth_error (out_frames dnf_output) 3) as [f|] eqn:E; [|discriminate].
  exists f. split; [reflexivity|].
  split; [inversion E; reflexivity|].
  apply (frame_ranks example_tyres dnf_session dnf_output f).
  - vm_compute. reflexivity.
  - now apply nth_error_In in E.
Defined.

(** *** The computation succeeds on every session with a sample *)

Lemma load_driver_ok (tyre : string -> Q) (session : Session) (st : load_state)
  (driver_no : string) :
  loaded_ok st ->
  exists st',
    load_driver tyre session st driver_no = Ok st'
    /\ loaded_ok st'
    /\ (driver_data st <> [] -> driver_data st' <> [])
    /\ ((exists lap, In lap (pick_drivers session driver_no)
                     /\ get_telemetry lap <> []) ->
        driver_data st' <> []).
Proof.
  intros Hst. unfold load_driver.
  destruct (pick_drivers session driver_no) as [|lap0 laps].
  - exists st. split; [reflexivity|]. split; [exact Hst|]. split; [auto|].
    intros [lap [[] _]].
  - destruct (driver_trace_usable tyre (lap0 :: laps)) as ([data|] & -> & Hr);
      simpl bind.
    + destruct Hr as [Hu Ht].
      destruct (np_min_is_min (ch_t data) Ht) as (t_min & -> & _).
      destruct (np_max_is_max (ch_t data) Ht) as (t_max & -> & _).
      simpl bind. eexists. split; [reflexivity|]. simpl.
      split; [|split; intros _; apply set_nonempty].
      split; simpl.
      * apply Forall_forall. intros x Hx. apply set_entries in Hx.
        destruct Hx as [->|Hx]; [now split|].
        destruct Hst as [Hall _]. rewrite Forall_forall in Hall. now apply Hall.
      * intros _. eauto.
    + exists st. split; [reflexivity|]. split; [exact Hst|]. split; [auto|].
      intros [lap [Hin Hne]]. rewrite Forall_forall in Hr.
      now apply Hr in Hin.
Qed.

Lemma load_drivers_from (tyre : string -> Q) (session : Session)
  (ds : list string) (st : load_state) :
  loaded_ok st ->
  exists st',
    for_each (load_driver tyre session) ds st = Ok st'
    /\ loaded_ok st'
    /\ (driver_data st <> []
        \/ (exists driver_no lap,
              In driver_no ds /\ In lap (pick_drivers session driver_no)
              /\ get_telemetry lap <> []) ->
        driver_data st' <> []).
Proof.
  revert st. induction ds as [|d ds IH]; intros st Hst.
  - exists st. split; [reflexivity|]. split; [exact Hst|].
    intros [H|(n & lap & [] & _)]. exact H.
  - simpl.
    destruct (load_driver_ok tyre session st d Hst) as (st1 & -> & H1 & Hkeep & Hnew).
    simpl bind.
    destruct (IH st1 H1) as (st' & Hrun & H' & Hne).
    exists st'. split; [exact Hrun|]. split; [exact H'|].
    intros [H|(n & lap & [<-|Hn] & Hlap & Htel)]; apply Hne.
    + left. now apply Hkeep.
    + left. apply Hnew. eauto.
    + right. eauto.
Qed.

Lemma load_drivers_ok (tyre : string -> Q) (session : Session) :
  has_sample session ->
  exists loaded t_min t_max,
    load_drivers tyre session = Ok loaded
    /\ Forall (fun kv => usable (snd kv)) (driver_data loaded)
    /\ driver_data loaded <> []
    /\ global_t_min loaded = Some t_min
    /\ global_t_max loaded = Some t_max.
Proof.
  intros Hs. unfold load_drivers.
  destruct (load_drivers_from tyre session (drivers session)
              {| driver_data := []; global_t_min := None; global_t_max := None |})
    as (loaded & Hrun & [Hall Hb] & Hne).
  { split; simpl; [constructor|congruence]. }
  assert (Hd : driver_data loaded <> []) by (apply Hne; right; exact Hs).
  destruct (Hb Hd) as (t_min & t_max & Hmin & Hmax).
  exists loaded, t_min, t_max. auto.
Qed.

Lemma resample_driver_ok (timeline : list Q) (t_min : Q)
  (resampled : PyDict.dict channels) (code : string) (data : channels) :
  usable data ->
  Forall (fun kv => sized (length timeline) (snd kv)) resampled ->
  exists resampled',
    resample_driver timeline t_min resampled (code, data) = Ok resampled'
    /\ Forall (fun kv => sized (length timeline) (snd kv)) resampled'
    /\ resampled' <> [].
Proof.
  intros [Hu Ht] Hall. unfold resample_driver.
  set (shifted := {| ch_t := map (fun v => v - t_min) (ch_t data);
                     ch_x := ch_x data; ch_y := ch_y data;
                     ch_dist := ch_dist data; ch_rel_dist := ch_rel_dist data;
                     ch_lap := ch_lap data; ch_tyre := ch_tyre data;
                     ch_speed := ch_speed data; ch_gear := ch_gear data;
                     ch_drs := ch_drs data |}).
  assert (Hsu : uniform shifted).
  { unfold uniform, shifted. simpl. rewrite length_map. exact Hu. }
  destruct (reorder_in_range (Np.argsort (ch_t shifted)) shifted Hsu
              (argsort_in_range _)) as (sorted & Hsorted & Hso & Hsl).
  change (map (fun v => v - t_min) (ch_t data)) with (ch_t shifted).
  rewrite Hsorted. simpl bind.
  assert (Hknots : ch_t sorted <> []).
  { apply nonempty_length. rewrite Hsl, argsort_length.
    unfold shifted. simpl. rewrite length_map. now apply nonempty_length. }
  destruct Hso as (Hx & Hy & Hd & Hr & Hl & Hty & Hs & Hg & Hdr).
  destruct (interp_ok timeline _ _ Hknots Hx) as (x' & -> & Lx). simpl bind.
  destruct (interp_ok timeline _ _ Hknots Hy) as (y' & -> & Ly). simpl bind.
  destruct (interp_ok timeline _ _ Hknots Hd) as (d' & -> & Ld). simpl bind.
  destruct (interp_ok timeline _ _ Hknots Hr) as (r' & -> & Lr). simpl bind.
  destruct (interp_ok timeline _ _ Hknots Hl) as (l' & -> & Ll). simpl bind.
  destruct (interp_ok timeline _ _ Hknots Hty) as (ty' & -> & Lty). simpl bind.
  destruct (interp_ok timeline _ _ Hknots Hs) as (s' & -> & Ls). simpl bind.
  destruct (interp_ok timeline _ _ Hknots Hg) as (g' & -> & Lg). simpl bind.
  destruct (interp_ok timeline _ _ Hknots Hdr) as (dr' & -> & Ldr). simpl bind.
  eexists. split; [reflexivity|]. split; [|apply set_nonempty].
  apply Forall_forall. intros kv Hkv. apply set_entries in Hkv.
  destruct Hkv as [->|Hkv].
  - unfold sized. simpl. tauto.
  - rewrite Forall_forall in Hall. now apply Hall.
Qed.

Lemma resample_from (timeline : list Q) (t_min : Q)
  (entries resampled : PyDict.dict channels) :
  Forall (fun kv => usable (snd kv)) entries ->
  Forall (fun kv => sized (length timeline) (snd kv)) resampled ->
  exists resampled',
    for_each (resample_driver timeline t_min) entries resampled = Ok resampled'
    /\ Forall (fun kv => sized (length timeline) (snd kv)) resampled'
    /\ (entries <> [] \/ resampled <> [] -> resampled' <> []).
Proof.
  intros He. revert resampled.
  induction He as [|[code data] entries Hd He IH]; intros resampled Hr.
  - exists resampled. split; [reflexivity|]. split; [exact Hr|].
    intros [H|H]; congruence.
  - rewrite for_each_cons.
    destruct (resample_driver_ok timeline t_min resampled code data Hd Hr)
      as (r1 & -> & Hr1 & Hne1).
    simpl bind. destruct (IH r1 Hr1) as (r' & Hrun & Hr' & Hne').
    exists r'. split; [exact Hrun|]. split; [exact Hr'|]. intros _. auto.
Qed.

Lemma snapshot_entry_ok (n i : nat) (code : string) (d : channels) :
  sized n d -> (i < n)%nat -> exists c, snapshot_entry i (code, d) = Ok c.
Proof.
  intros (Hx & Hy & Hd & Hr & Hl & Hty & Hs & Hg & Hdr) Hi. unfold snapshot_entry.
  destruct (item_in_range (ch_dist d) i) as [? ->]; [lia|]. simpl bind.
  destruct (item_in_range (ch_x d) i) as [? ->]; [lia|]. simpl bind.
  destruct (item_in_range (ch_y d) i) as [? ->]; [lia|]. simpl bind.
  destruct (item_in_range (ch_lap d) i) as [? ->]; [lia|]. simpl bind.
  destruct (item_in_range (ch_rel_dist d) i) as [? ->]; [lia|]. simpl bind.
  destruct (item_in_range (ch_tyre d) i) as [? ->]; [lia|]. simpl bind.
  destruct (item_in_range (ch_speed d) i) as [? ->]; [lia|]. simpl bind.
  destruct (item_in_range (ch_gear d) i) as [? ->]; [lia|]. simpl bind.
  destruct (item_in_range (ch_drs d) i) as [? ->]; [lia|]. simpl bind.
  eexists. reflexivity.
Qed.

Lemma build_snapshot_ok (n i : nat) (entries : list (string * channels)) :
  Forall (fun kv => sized n (snd kv)) entries -> (i < n)%nat ->
  exists snapshot,
    build_snapshot i entries = Ok snapshot /\ length snapshot = length entries.
Proof.
  intros He Hi. induction He as [|[code d] entries Hd He [cs [Hcs Hlen]]].
  - now exists [].
  - destruct (snapshot_entry_ok n i code d Hd Hi) as [c Hc].
    exists (c :: cs). split.
    + change (build_snapshot i ((code, d) :: entries))
        with (entry <- snapshot_entry i (code, d) ;;
              cs <- build_snapshot i entries ;; Ok (entry :: cs)).
      now rewrite Hc, Hcs.
    + simpl. now rewrite Hlen.
Qed.

(** With a driver at hand, a tick within the arrays appends one frame. *)
Lemma tick_ok (m : PyDict.dict driver_status) (r : PyDict.dict channels)
  (st : asm_state) (n i : nat) (t : Q) :
  Forall (fun kv => sized n (snd kv)) r -> r <> [] -> (i < n)%nat ->
  exists st',
    tick m r st (i, t) = Ok st'
    /\ length (frames st') = S (length (frames st)).
Proof.
  intros Hr Hne Hi. unfold tick.
  destruct (build_snapshot_ok n i (PyDict.items r) Hr Hi) as (snapshot & -> & Hlen).
  simpl bind.
  destruct snapshot as [|c0 cs].
  { destruct r; [congruence|discriminate]. }
  destruct (sort_by_dist (c0 :: cs)) as [|leader rest] eqn:E.
  { pose proof (Permutation_length (stable_sort_perm
                  (fun a b => Qle_bool (car_dist b) (car_dist a)) (c0 :: cs))) as Hp.
    unfold sort_by_dist in E. rewrite E in Hp. discriminate. }
  eexists. split; [reflexivity|]. simpl frames.
  rewrite length_app. simpl.
  change (length (frames (fold_left (detect_driver_finish m i) (leader :: rest)
                            (detect_leader_finish m i leader st))) + 1
          = S (length (frames st)))%nat.
  rewrite (proj1 (detect_driver_finish_fold m i (leader :: rest) _)).
  rewrite detect_leader_finish_frames. lia.
Qed.

Lemma build_frames_from (m : PyDict.dict driver_status) (r : PyDict.dict channels)
  (n : nat) (ticks : list (nat * Q)) (st : asm_state) :
  Forall (fun kv => sized n (snd kv)) r -> r <> [] ->
  Forall (fun it => (fst it < n)%nat) ticks ->
  exists st',
    for_each (tick m r) ticks st = Ok st'
    /\ length (frames st') = (length (frames st) + length ticks)%nat.
Proof.
  intros Hr Hne Hticks. revert st.
  induction Hticks as [|[i t] ticks Hi Hticks IH]; intros st.
  - exists st. simpl. split; auto.
  - rewrite for_each_cons.
    destruct (tick_ok m r st n i t Hr Hne Hi) as (st1 & -> & H1). simpl bind.
    destruct (IH st1) as (st' & Hrun & H'). exists st'. split; auto.
    rewrite H', H1. simpl. lia.
Qed.

(** The computation from scratch returns a bundle for every session in
    which some driver has a telemetry sample, with one frame per tick of the
    timeline. *)
Lemma compute_race_telemetry_ok (tyre : string -> Q) (session : Session) :
  has_sample session ->
  exists out t_min t_max,
    compute_race_telemetry tyre session = Ok out
    /\ length (out_frames out) = length (timeline_grid t_min t_max).
Proof.
  intros Hs. unfold compute_race_telemetry.
  destruct (load_drivers_ok tyre session Hs)
    as (loaded & t_min & t_max & -> & Hall & Hne & Hmin & Hmax).
  simpl bind. rewrite Hmin, Hmax. simpl bind.
  set (timeline := timeline_grid t_min t_max).
  destruct (resample_from timeline t_min (driver_data loaded) [] Hall)
    as (resampled & Hres & Hsized & Hrne); [constructor|].
  unfold resample, PyDict.items. rewrite Hres. simpl bind.
  destruct (build_frames_from (extract_driver_status (results session)) resampled
              (length timeline) (enumerate timeline) (initial_state resampled)
              Hsized) as (st & Hst & Hlen).
  { apply Hrne. now left. }
  { apply enumerate_in_range. }
  unfold build_frames. rewrite Hst. simpl bind.
  eexists. exists t_min, t_max. split; [reflexivity|].
  simpl. rewrite Hlen. simpl. apply enumerate_length.
Qed.

(** *** The session without samples *)

Lemma normalise_laps_no_sample (tyre : string -> Q) (laps : list Lap) (acc : lap_acc) :
  (forall lap, In lap laps -> get_telemetry lap = []) ->
  for_each (lap_step tyre) laps acc = Ok acc.
Proof.
  induction laps as [|lap laps IH]; intros H; simpl.
  - reflexivity.
  - unfold lap_step at 1. rewrite (H lap) by now left. simpl.
    apply IH. intros l Hl. apply H. now right.
Qed.

Lemma load_drivers_no_sample (tyre : string -> Q) (session : Session)
  (ds : list string) (st : load_state) :
  (forall driver_no lap,
     In driver_no ds -> In lap (pick_drivers session driver_no) ->
     get_telemetry lap = []) ->
  for_each (load_driver tyre session) ds st = Ok st.
Proof.
  induction ds as [|d ds IH]; intros H; simpl.
  - reflexivity.
  - unfold load_driver at 1.
    destruct (pick_drivers session d) as [|lap laps] eqn:E.
    + simpl. apply IH. intros n l Hn. apply H. now right.
    + unfold driver_trace, normalise_laps.
      rewrite normalise_laps_no_sample.
      * simpl. apply IH. intros n l Hn. apply H. now right.
      * intros l Hl. apply (H d); [now left|]. now rewrite E.
Qed.

(** C5 fails on the code: without a single sample [global_t_min] and
    [global_t_max] are still [None] when the timeline is built, and the
    computation stops there with a [TypeError]; no frame sequence, empty or
    not, is returned. *)
Theorem empty_session_raises (tyre : string -> Q) (session : Session) :
  no_sample session ->
  compute_race_telemetry tyre session = Raise TypeError
  /\ get_race_telemetry tyre true None session = Raise TypeError
  /\ get_race_telemetry tyre false None session = Raise TypeError.
Proof.
  intros H.
  assert (Hc : compute_race_telemetry tyre session = Raise TypeError).
  { unfold compute_race_telemetry, load_drivers.
    rewrite load_drivers_no_sample by exact H. reflexivity. }
  repeat split; simpl; exact Hc.
Qed.

Lemma empty_session_raises_witness :
  compute_race_telemetry example_tyres empty_session = Raise TypeError.
Proof.
  refine (proj1 (empty_session_raises example_tyres empty_session _)).
  intros driver_no lap Hd Hl. simpl in Hd.
  destruct Hd as [<-|[<-|[]]]; simpl in Hl.
  - destruct Hl.
  - destruct Hl as [<-|[]]. reflexivity.
Defined.

End F1Proofs.

(** ** The verifier, further *)

Module VerifierMore.
Import Verifier VerifierSpec DictFacts VerifierProofs.
Local Open Scope string_scope.
Local Open Scope Z_scope.

Lemma compare_position_self (d : PyDict.dict Z) (acc : list discrepancy) (c : string) :
  compare_position d d acc c = acc.
Proof.
  unfold compare_position.
  destruct (PyDict.get c d) as [v|]; [|reflexivity].
  now rewrite Z.eqb_refl.
Qed.

Lemma find_discrepancies_self (d : PyDict.dict Z) : find_discrepancies d d = [].
Proof.
  unfold find_discrepancies. generalize (PyDict.keys d). intros codes.
  induction codes as [|c codes IH]; simpl; auto.
  now rewrite compare_position_self.
Qed.

(** What the correction step returns is the mapping it was given or the
    mapping built from the external result. *)
Lemma correct_positions_cases (current : PyDict.dict Z)
  (api_results : option (list verified_result)) :
  (correct_positions current api_results = current
   /\ (forall rs, api_results = Some rs ->
         rs = [] \/ find_discrepancies current (build_verified_positions rs) = []))
  \/ (exists rs,
        api_results = Some rs
        /\ correct_positions current api_results = build_verified_positions rs).
Proof.
  unfold correct_positions. destruct api_results as [[|r rs]|].
  - left. split; [reflexivity|]. intros rs' H. inversion H. now left.
  - destruct (find_discrepancies current (build_verified_positions (r :: rs))) eqn:E.
    + left. split; [reflexivity|]. intros rs' H. inversion H. subst rs'. now right.
    + right. now exists (r :: rs).
  - left. split; [reflexivity|]. discriminate.
Qed.

Lemma verify_inv (current : PyDict.dict Z) (net : network) (year round_number : Z)
  (out : PyDict.dict Z) :
  verify_and_correct_final_positions current net year round_number = Ok out ->
  exists api_results,
    fetch_race_results_from_jolpica net year round_number = Ok api_results
    /\ out = correct_positions current api_results.
Proof.
  unfold verify_and_correct_final_positions. intros H.
  destruct (fetch_race_results_from_jolpica net year round_number) as [a|e];
    [|discriminate].
  simpl in H. inversion H. now exists a.
Qed.

(** X1: with a usable external result, a driver of the returned mapping
    that the external result lists has its external position there,
    whether the mapping was replaced or kept. *)
Theorem returned_positions_agree_with_external
  (current : PyDict.dict Z) (net : network) (year round_number : Z)
  (rs : list verified_result) (out : PyDict.dict Z) (c : string) :
  fetch_race_results_from_jolpica net year round_number = Ok (Some rs) ->
  verify_and_correct_final_positions current net year round_number = Ok out ->
  PyDict.mem c out = true ->
  external_position rs c <> None ->
  PyDict.get c out = external_position rs c.
Proof.
  intros Hfetch Hrun Hmem Hext.
  apply verify_inv in Hrun. destruct Hrun as (a & Ha & ->).
  rewrite Hfetch in Ha. inversion Ha. subst a.
  destruct (correct_positions_cases current (Some rs))
    as [[Hsame Hno]|(rs' & Hrs & Hrep)].
  - rewrite Hsame in *.
    destruct (Hno rs eq_refl) as [->|Hnil]; [now elim Hext|].
    unfold PyDict.mem in Hmem.
    destruct (PyDict.get c current) as [p|] eqn:Ep; [|discriminate].
    destruct (external_position rs c) as [v|] eqn:Ev; [|now elim Hext].
    destruct (Z.eq_dec p v) as [->|Hne]; [reflexivity|].
    exfalso. apply (find_discrepancies_found current (build_verified_positions rs) c p v);
      auto.
    now rewrite build_verified_positions_get.
  - inversion Hrs. subst rs'. rewrite Hrep.
    apply build_verified_positions_get.
Qed.

Lemma returned_positions_agree_with_external_witness :
  PyDict.get "VER" telemetry_positions
  = external_position [listed "VER" 1; listed "NOR" 3] "VER".
Proof.
  apply (returned_positions_agree_with_external telemetry_positions example_network
           2024 1 [listed "VER" 1; listed "NOR" 3] telemetry_positions "VER").
  - reflexivity.
  - reflexivity.
  - reflexivity.
  - discriminate.
Defined.

(** X2: verifying again what the verifier returned changes nothing, as
    long as the source gives the same reply. *)
Theorem verifier_is_idempotent
  (current : PyDict.dict Z) (net : network) (year round_number : Z)
  (out : PyDict.dict Z) :
  verify_and_correct_final_positions current net year round_number = Ok out ->
  verify_and_correct_final_positions out net year round_number = Ok out.
Proof.
  intros Hrun. apply verify_inv in Hrun. destruct Hrun as (a & Ha & ->).
  unfold verify_and_correct_final_positions. rewrite Ha. simpl. f_equal.
  destruct (correct_positions_cases current a) as [[Hsame _]|(rs & -> & Hrep)].
  - now rewrite Hsame.
  - rewrite Hrep. unfold correct_positions.
    destruct rs as [|r rs]; [reflexivity|].
    now rewrite find_discrepancies_self.
Qed.

Lemma verifier_is_idempotent_witness :
  verify_and_correct_final_positions [("HAM", 1); ("VER", 2)] example_network 2024 2
  = Ok [("HAM", 1); ("VER", 2)].
Proof.
  apply (verifier_is_idempotent telemetry_positions example_network 2024 2).
  reflexivity.
Defined.

(** X3: the replies on which the verifier returns the mapping it was
    given, and raises nothing: the request fails (no connection, an HTTP
    error status), the body is no JSON, the document has no race, it has
    a dictionary where the list of races should be (the [KeyError] of
    [races[0]] is caught), or its first race has no result. *)
Theorem verifier_degrades_on_unusable_reply
  (current : PyDict.dict Z) (net : network) (year round_number : Z) :
  degrades (net year round_number) ->
  verify_and_correct_final_positions current net year round_number = Ok current.
Proof.
  intros H. unfold verify_and_correct_final_positions.
  now rewrite (fetch_degrades net year round_number H).
Qed.

Lemma verifier_degrades_on_unusable_reply_witness :
  verify_and_correct_final_positions telemetry_positions example_network 2024 7
    = Ok telemetry_positions
  /\ verify_and_correct_final_positions telemetry_positions example_network 2024 3
     = Ok telemetry_positions
  /\ verify_and_correct_final_positions telemetry_positions example_network 2024 6
     = Ok telemetry_positions.
Proof.
  split; [|split].
  - apply (verifier_degrades_on_unusable_reply telemetry_positions example_network
             2024 7).
    apply transport_error_connection.
  - apply (verifier_degrades_on_unusable_reply telemetry_positions example_network
             2024 3).
    apply (no_results _ (JArr [JObj [("Results", JArr [])]])
             (JObj [("Results", JArr [])]) (JArr [])); reflexivity.
  - apply (verifier_degrades_on_unusable_reply telemetry_positions example_network
             2024 6).
    apply (races_without_key_0 _ [("race", JArr [])]); [reflexivity|discriminate].
Defined.

End VerifierMore.

(** ** The end of the replay *)

Module ReplayProofs.
Import Replay ReplaySpec.
Local Open Scope Z_scope.

Lemma list_item_in_range {A : Type} (l : list A) (i : Z) :
  0 <= i < Z.of_nat (length l) ->
  exists a, list_item l i = Ok a /\ nth_error l (Z.to_nat i) = Some a.
Proof.
  intros Hi. unfold list_item.
  destruct (i <? 0) eqn:E0; [apply Z.ltb_lt in E0; lia|].
  destruct (i <? 0) eqn:E1; [discriminate|].
  destruct (Z.of_nat (length l) <=? i) eqn:E2; [apply Z.leb_le in E2; lia|].
  simpl. destruct (nth_error l (Z.to_nat i)) as [a|] eqn:E.
  - now exists a.
  - apply nth_error_None in E. lia.
Qed.

(** X4: [should_verify_leaderboard] answers [True] only for the index of
    the last frame, and only when that frame has ['race_finished'] set. *)
Theorem should_verify_only_at_the_last_frame {F : Type}
  (race_finished : F -> option bool) (frames : list F) (i : Z) :
  should_verify_leaderboard race_finished frames i = Ok true ->
  i = last_index frames
  /\ exists f, nth_error frames (Z.to_nat i) = Some f
               /\ race_finished f = Some true.
Proof.
  unfold should_verify_leaderboard, last_index, list_item.
  destruct (i <? Z.of_nat (length frames) - 1) eqn:E; [discriminate|].
  apply Z.ltb_ge in E.
  destruct (i <? 0) eqn:E0.
  - apply Z.ltb_lt in E0.
    destruct (i + Z.of_nat (length frames) <? 0) eqn:E1; [discriminate|].
    apply Z.ltb_ge in E1. lia.
  - apply Z.ltb_ge in E0. rewrite (proj2 (Z.ltb_ge i 0) E0). simpl.
    destruct (Z.of_nat (length frames) <=? i) eqn:E2; [discriminate|].
    apply Z.leb_gt in E2.
    destruct (nth_error frames (Z.to_nat i)) as [f|] eqn:Ef; [|discriminate].
    simpl. intros H. split; [lia|]. exists f. split; [reflexivity|].
    destruct (race_finished f) as [[]|]; simpl in H; congruence.
Qed.

Lemma should_verify_only_at_the_last_frame_witness :
  3 = last_index (F1Data.out_frames F1Spec.dnf_output)
  /\ exists f, nth_error (F1Data.out_frames F1Spec.dnf_output) (Z.to_nat 3) = Some f
               /\ race_finished f = Some true.
Proof.
  apply (should_verify_only_at_the_last_frame race_finished
           (F1Data.out_frames F1Spec.dnf_output) 3).
  reflexivity.
Defined.

(** X5: what [should_verify_leaderboard] does at every index.  Below the
    index of the last frame it returns [False] without reading a frame; at
    the last frame it returns the frame's ['race_finished'], [False] when
    the key is missing; it raises exactly when the index is past the last
    frame, or is -1 on an empty frame list, and then it is an
    [IndexError]. *)
Theorem should_verify_at_every_index {F : Type}
  (race_finished : F -> option bool) (frames : list F) (i : Z) :
  (i < last_index frames ->
   should_verify_leaderboard race_finished frames i = Ok false)
  /\ (forall f,
        i = last_index frames -> nth_error frames (Z.to_nat i) = Some f ->
        should_verify_leaderboard race_finished frames i
        = Ok (get_or (race_finished f) false))
  /\ (forall e,
        should_verify_leaderboard race_finished frames i = Raise e
        <-> e = IndexError
            /\ (Z.of_nat (length frames) <= i \/ (frames = [] /\ i = -1))).
Proof.
  unfold should_verify_leaderboard, last_index, list_item.
  split; [|split].
  - intros Hi. apply Z.ltb_lt in Hi. now rewrite Hi.
  - intros f -> Hf. rewrite Z.ltb_irrefl.
    assert (Hlen : (Z.to_nat (Z.of_nat (length frames) - 1) < length frames)%nat).
    { apply nth_error_Some. congruence. }
    destruct (Z.of_nat (length frames) - 1 <? 0) eqn:E0;
      [apply Z.ltb_lt in E0; lia|].
    destruct (Z.of_nat (length frames) <=? Z.of_nat (length frames) - 1) eqn:E1;
      [apply Z.leb_le in E1; lia|].
    rewrite ?E0, ?E1. simpl. rewrite ?E0. simpl. now rewrite Hf.
  - intros e.
    destruct (i <? Z.of_nat (length frames) - 1) eqn:E.
    + apply Z.ltb_lt in E. split; [discriminate|].
      intros [_ [H|[-> ->]]]; [lia|]. simpl in E. lia.
    + apply Z.ltb_ge in E.
      destruct (i <? 0) eqn:E0.
      * apply Z.ltb_lt in E0.
        assert (Hlen : length frames = 0%nat) by lia.
        assert (Hi : i = -1) by lia.
        destruct frames; [|discriminate]. subst i. simpl. split.
        -- intros H. inversion H. auto.
        -- intros [-> _]. reflexivity.
      * apply Z.ltb_ge in E0. rewrite (proj2 (Z.ltb_ge i 0) E0). simpl.
        destruct (Z.of_nat (length frames) <=? i) eqn:E2.
        -- apply Z.leb_le in E2. simpl. split.
           ++ intros H. inversion H. auto.
           ++ intros [-> _]. reflexivity.
        -- apply Z.leb_gt in E2.
           destruct (nth_error frames (Z.to_nat i)) as [f|] eqn:Ef.
           ++ simpl. split; [discriminate|]. intros [_ [H|[_ H]]]; lia.
           ++ apply nth_error_None in Ef. lia.
Qed.

Lemma should_verify_at_every_index_witness :
  should_verify_leaderboard race_finished (F1Data.out_frames F1Spec.dnf_output) 2
  = Ok false
  /\ should_verify_leaderboard race_finished (F1Data.out_frames F1Spec.dnf_output) 3
     = Ok true
  /\ should_verify_leaderboard race_finished (F1Data.out_frames F1Spec.dnf_output) 4
     = Raise IndexError
  /\ should_verify_leaderboard race_finished (@nil F1Data.frame) (-1)
     = Raise IndexError.
Proof.
  split; [|split; [|split]].
  - apply (proj1 (should_verify_at_every_index race_finished
                    (F1Data.out_frames F1Spec.dnf_output) 2)).
    reflexivity.
  - destruct (nth_error (F1Data.out_frames F1Spec.dnf_output) (Z.to_nat 3))
      as [f|] eqn:E; [|discriminate].
    rewrite (proj1 (proj2 (should_verify_at_every_index race_finished
                             (F1Data.out_frames F1Spec.dnf_output) 3))
               f eq_refl E).
    vm_compute in E. inversion E. reflexivity.
  - apply (proj2 (proj2 (should_verify_at_every_index race_finished
                           (F1Data.out_frames F1Spec.dnf_output) 4))
             IndexError).
    split; [reflexivity|]. left. vm_compute. discriminate.
  - apply (proj2 (proj2 (should_verify_at_every_index race_finished
                           (@nil F1Data.frame) (-1)))
             IndexError).
    split; [reflexivity|]. right. split; reflexivity.
Defined.

End ReplayProofs.

(** ** The driver colours *)

Module ColorProofs.
Import Colors ColorSpec DictFacts.
Local Open Scope string_scope.
Local Open Scope Z_scope.
Local Open Scope list_scope.

Lemma lstrip_hash_other (c : ascii) (s : string) :
  c <> "#"%char -> lstrip_hash (String c s) = String c s.
Proof.
  intros H.
  destruct c as [[] [] [] [] [] [] [] []]; try reflexivity.
  now elim H.
Qed.

Lemma lstrip_hash_hashes (n : nat) (s : string) :
  lstrip_hash (hashes n ++ s)%string = lstrip_hash s.
Proof.
  induction n as [|n IH]; simpl; auto.
Qed.

(** The two digits written for a component read back as the component,
    and the first of them is no [#]. *)
Lemma hex2_checked (upper : bool) :
  forallb (fun k => match py_int16 (hex2 upper (Z.of_nat k)) with
                    | Some w => (w =? Z.of_nat k)
                                && negb (Ascii.eqb (hex_char upper (Z.of_nat k / 16)) "#")
                    | None => false
                    end) (seq 0 256) = true.
Proof.
  destruct upper; vm_compute; reflexivity.
Qed.

Lemma py_int16_hex2 (upper : bool) (v : Z) :
  component_ok v ->
  py_int16 (hex2 upper v) = Some v /\ hex_char upper (v / 16) <> "#"%char.
Proof.
  intros Hv. unfold component_ok in Hv.
  pose proof (hex2_checked upper) as H. rewrite forallb_forall in H.
  specialize (H (Z.to_nat v)). rewrite Z2Nat.id in H by lia.
  assert (Hin : In (Z.to_nat v) (seq 0 256)) by (apply in_seq; lia).
  apply H in Hin.
  destruct (py_int16 (hex2 upper v)) as [w|]; [|discriminate].
  apply andb_prop in Hin. destruct Hin as [Hw Hc].
  apply Z.eqb_eq in Hw. subst w. split; [reflexivity|].
  intros E. rewrite E in Hc. discriminate.
Qed.

(** X6: a colour written as six hexadecimal digits, in either case, is
    read back as its three components, whatever the number of [#] in front
    of the digits and whatever follows them. *)
Theorem hex_to_rgb_reads_six_digits (upper : bool) (n : nat) (r g b : Z)
  (rest : string) :
  component_ok r -> component_ok g -> component_ok b ->
  hex_to_rgb (hex_color upper n r g b rest) = Ok (r, g, b).
Proof.
  intros Hr Hg Hb.
  destruct (py_int16_hex2 upper r Hr) as [Er Hc].
  destruct (py_int16_hex2 upper g Hg) as [Eg _].
  destruct (py_int16_hex2 upper b Hb) as [Eb _].
  unfold hex_to_rgb, hex_color. rewrite lstrip_hash_hashes.
  unfold hex2 in *. cbn [append].
  rewrite lstrip_hash_other by exact Hc.
  unfold component. cbn [substring].
  replace (substring 0 0 rest) with EmptyString by now destruct rest.
  rewrite Er. cbn [bind]. rewrite Eg. cbn [bind]. rewrite Eb. reflexivity.
Qed.

Lemma hex_to_rgb_reads_six_digits_witness :
  hex_to_rgb "#0600efff" = Ok (6, 0, 239).
Proof.
  apply (hex_to_rgb_reads_six_digits false 1 6 0 239 "ff");
    unfold component_ok; lia.
Defined.

Lemma component_raises (hex_color : string) (i : nat) :
  (exists v, component hex_color i = Ok v)
  \/ component hex_color i = Raise ValueError.
Proof.
  unfold component. destruct (py_int16 _) as [v|]; eauto.
Qed.

Lemma substring_beyond (s : string) (i m : nat) :
  (String.length s <= i)%nat -> substring i m s = EmptyString.
Proof.
  revert i. induction s as [|c s IH]; intros i Hi.
  - destruct i, m; reflexivity.
  - destruct i as [|i]; simpl in Hi; [lia|]. simpl. apply IH. lia.
Qed.

Lemma hex_to_rgb_short (hex : string) :
  (String.length (lstrip_hash hex) < 5)%nat -> hex_to_rgb hex = Raise ValueError.
Proof.
  intros Hlen. unfold hex_to_rgb.
  assert (Hb : component (lstrip_hash hex) 4 = Raise ValueError).
  { unfold component. rewrite substring_beyond by lia. reflexivity. }
  destruct (component_raises (lstrip_hash hex) 0) as [[r ->]| ->]; [|reflexivity].
  cbn [bind].
  destruct (component_raises (lstrip_hash hex) 2) as [[g ->]| ->]; [|reflexivity].
  cbn [bind]. now rewrite Hb.
Qed.

Lemma hex_to_rgb_raises (hex : string) :
  (exists rgb, hex_to_rgb hex = Ok rgb) \/ hex_to_rgb hex = Raise ValueError.
Proof.
  unfold hex_to_rgb.
  destruct (component_raises (lstrip_hash hex) 0) as [[r ->]| ->]; [|now right].
  cbn [bind].
  destruct (component_raises (lstrip_hash hex) 2) as [[g ->]| ->]; [|now right].
  cbn [bind].
  destruct (component_raises (lstrip_hash hex) 4) as [[b ->]| ->]; [|now right].
  left. eexists. reflexivity.
Qed.

Lemma colors_from_short (entries : PyDict.dict string) (acc : PyDict.dict (Z * Z * Z))
  (driver hex : string) :
  In (driver, hex) entries ->
  (String.length (lstrip_hash hex) < 5)%nat ->
  for_each
    (fun rgb_colors entry =>
       let '(driver, hex_color) := entry in
       rgb <- hex_to_rgb hex_color ;;
       Ok (PyDict.set driver rgb rgb_colors)) entries acc
  = Raise ValueError.
Proof.
  intros Hin Hlen. revert acc.
  induction entries as [|[d h] entries IH]; intros acc; [destruct Hin|].
  simpl. destruct Hin as [Heq|Hin].
  - inversion Heq. subst d h. now rewrite hex_to_rgb_short.
  - destruct (hex_to_rgb_raises h) as [[rgb ->]| ->]; [|reflexivity].
    cbn [bind]. now apply IH.
Qed.

(** X7: a colour with fewer than five characters after its [#] signs, such
    as the three-digit form, makes [get_driver_colors] raise [ValueError],
    wherever it stands in the mapping. *)
Theorem short_color_raises_value_error (color_mapping : PyDict.dict string)
  (driver hex : string) :
  In (driver, hex) (PyDict.items color_mapping) ->
  (String.length (lstrip_hash hex) < 5)%nat ->
  get_driver_colors color_mapping = Raise ValueError.
Proof.
  intros Hin Hlen. unfold get_driver_colors.
  now apply (colors_from_short _ _ driver hex).
Qed.

Lemma short_color_raises_value_error_witness :
  get_driver_colors shorthand_mapping = Raise ValueError.
Proof.
  apply (short_color_raises_value_error shorthand_mapping "HAM" "#fff").
  - simpl. right. left. reflexivity.
  - simpl. lia.
Defined.

Lemma colors_from_entries (entries : PyDict.dict string)
  (acc out : PyDict.dict (Z * Z * Z)) :
  NoDup (PyDict.keys acc ++ PyDict.keys entries) ->
  for_each
    (fun rgb_colors entry =>
       let '(driver, hex_color) := entry in
       rgb <- hex_to_rgb hex_color ;;
       Ok (PyDict.set driver rgb rgb_colors)) entries acc
  = Ok out ->
  exists rgbs,
    out = acc ++ rgbs
    /\ Forall2 (fun kv kv' => fst kv' = fst kv /\ hex_to_rgb (snd kv) = Ok (snd kv'))
         entries rgbs.
Proof.
  revert acc. induction entries as [|[d h] entries IH]; intros acc Hnd H.
  - simpl in H. inversion H. exists []. rewrite app_nil_r. split; auto.
  - simpl in H. destruct (hex_to_rgb h) as [rgb|e] eqn:E; [|discriminate].
    cbn [bind] in H.
    assert (Hfresh : ~ In d (PyDict.keys acc)).
    { simpl in Hnd. apply NoDup_remove_2 in Hnd. intros Hin. apply Hnd.
      apply in_or_app. now left. }
    rewrite set_fresh in H by exact Hfresh.
    apply IH in H.
    + destruct H as (rgbs & -> & Hall). exists ((d, rgb) :: rgbs).
      split; [now rewrite <- app_assoc|]. constructor; auto.
    + unfold PyDict.keys in *. rewrite map_app, <- app_assoc. exact Hnd.
Qed.

(** X8: when [get_driver_colors] returns, it returns one entry per entry
    of the colour mapping, in the same order and under the same driver,
    holding the components read from that driver's colour. *)
Theorem get_driver_colors_converts_each_entry (color_mapping : PyDict.dict string)
  (rgb_colors : PyDict.dict (Z * Z * Z)) :
  NoDup (PyDict.keys color_mapping) ->
  get_driver_colors color_mapping = Ok rgb_colors ->
  Forall2 (fun kv kv' => fst kv' = fst kv /\ hex_to_rgb (snd kv) = Ok (snd kv'))
    (PyDict.items color_mapping) (PyDict.items rgb_colors).
Proof.
  intros Hnd H. unfold get_driver_colors in H.
  apply colors_from_entries in H; [|exact Hnd].
  destruct H as (rgbs & -> & Hall). exact Hall.
Qed.

Lemma get_driver_colors_converts_each_entry_witness :
  Forall2 (fun kv kv' => fst kv' = fst kv /\ hex_to_rgb (snd kv) = Ok (snd kv'))
    (PyDict.items example_mapping)
    (PyDict.items [("VER", (6, 0, 239)); ("HAM", (0, 210, 190))]).
Proof.
  apply (get_driver_colors_converts_each_entry example_mapping
           [("VER", (6, 0, 239)); ("HAM", (0, 210, 190))]).
  - repeat constructor; simpl; intuition discriminate.
  - reflexivity.
Defined.

(** *** The range of a component *)

Lemma in_all_ascii (c : ascii) : In c all_ascii.
Proof.
  unfold all_ascii. rewrite <- (ascii_nat_embedding c).
  apply in_map. apply in_seq. pose proof (nat_ascii_bounded c). lia.
Qed.

Lemma in_short_strings (s : string) :
  (String.length s <= 2)%nat -> In s short_strings.
Proof.
  unfold short_strings. intros Hlen.
  destruct s as [|c [|d [|e s]]]; simpl in Hlen; try lia.
  - now left.
  - right. apply in_or_app. left.
    apply (in_map (fun c => String c EmptyString)), in_all_ascii.
  - right. apply in_or_app. right. apply in_flat_map.
    exists c. split; [apply in_all_ascii|].
    apply (in_map (fun d => String c (String d EmptyString))), in_all_ascii.
Qed.

Lemma substring_short (s : string) (i m : nat) :
  (String.length (substring i m s) <= m)%nat.
Proof.
  revert i m. induction s as [|c s IH]; intros [|i] [|m]; simpl; try lia.
  - specialize (IH 0%nat m). lia.
  - apply IH.
  - apply IH.
Qed.

Lemma short_strings_checked :
  forallb (fun s => match py_int16 s with
                    | Some v => (-15 <=? v) && (v <=? 255)
                    | None => true
                    end) short_strings = true.
Proof.
  vm_compute. reflexivity.
Qed.

Lemma component_range (hex_color : string) (i : nat) (v : Z) :
  component hex_color i = Ok v -> -15 <= v <= 255.
Proof.
  unfold component. intros H.
  pose proof short_strings_checked as Hall. rewrite forallb_forall in Hall.
  specialize (Hall _ (in_short_strings _ (substring_short hex_color i 2))).
  destruct (py_int16 (substring i 2 hex_color)) as [w|]; [|discriminate].
  inversion H. subst w. apply andb_prop in Hall. destruct Hall as [H1 H2].
  apply Z.leb_le in H1, H2. lia.
Qed.

(** X9: a component that [get_driver_colors] computes is never above 255,
    and never below -15: two characters are read in base 16, and a sign is
    accepted in them. *)
Theorem color_components_are_bounded (hex : string) (r g b : Z) :
  hex_to_rgb hex = Ok (r, g, b) ->
  -15 <= r <= 255 /\ -15 <= g <= 255 /\ -15 <= b <= 255.
Proof.
  unfold hex_to_rgb. intros H.
  destruct (component (lstrip_hash hex) 0) as [r'|] eqn:Er; [|discriminate].
  cbn [bind] in H.
  destruct (component (lstrip_hash hex) 2) as [g'|] eqn:Eg; [|discriminate].
  cbn [bind] in H.
  destruct (component (lstrip_hash hex) 4) as [b'|] eqn:Eb; [|discriminate].
  cbn [bind] in H. inversion H. subst.
  apply component_range in Er, Eg, Eb. auto.
Qed.

Lemma color_components_are_bounded_witness :
  hex_to_rgb "#-fff00" = Ok (-15, 255, 0)
  /\ -15 <= -15 <= 255 /\ -15 <= 255 <= 255 /\ -15 <= 0 <= 255.
Proof.
  split; [reflexivity|].
  apply (color_components_are_bounded "#-fff00" (-15) 255 0).
  reflexivity.
Defined.

End ColorProofs.

(** ** The file of precomputed data *)

Module CacheProofs.
Import F1Data Cache CacheSpec.
Local Open Scope string_scope.

Lemma dump_load (doc : document) : dump (load doc) = doc.
Proof.
  destruct doc as [t colors]. unfold dump, load. simpl. f_equal.
  rewrite map_map. simpl. induction colors as [|[k v] colors IH]; simpl.
  - reflexivity.
  - now rewrite IH.
Qed.

Lemma write_same (path : string) (file : cache_file) (fs : files) :
  write path file fs path = file.
Proof.
  unfold write. now rewrite String.eqb_refl.
Qed.

Lemma write_other (path p : string) (file : cache_file) (fs : files) :
  p <> path -> write path file fs p = fs p.
Proof.
  intros H. unfold write. destruct (String.eqb_spec p path); congruence.
Qed.

(** X10: when [get_race_telemetry] returns, the file of the session's
    path holds the document of what it returned, the files of the other
    paths are as they were, and a later call without the refresh flag for
    a session of the same path, whatever its data and colours, returns
    what [json.load] gives for that document (the colours as lists, where
    the computation returned tuples) and leaves the files as they are. *)
Theorem saved_telemetry_is_reused (tyre : string -> Q) (refresh_data : bool)
  (color_mapping : PyDict.dict string) (fs fs' : files) (session_str : string)
  (session : Session) (data : saved) :
  Cache.get_race_telemetry tyre refresh_data color_mapping fs session_str session
  = (Ok data, fs') ->
  fs' (cache_path session_str) = Stored (dump data)
  /\ (forall p, p <> cache_path session_str -> fs' p = fs p)
  /\ forall tyre' color_mapping' session_str' session',
       cache_path session_str' = cache_path session_str ->
       Cache.get_race_telemetry tyre' false color_mapping' fs' session_str' session'
       = (Ok (load (dump data)), fs').
Proof.
  unfold Cache.get_race_telemetry. intros H.
  assert (Hfile : fs' (cache_path session_str) = Stored (dump data)
                  /\ forall p, p <> cache_path session_str -> fs' p = fs p).
  { destruct (load_precomputed refresh_data (fs (cache_path session_str)))
      as [[precomputed|]|e] eqn:E.
    - inversion H. subst. unfold load_precomputed in E.
      destruct refresh_data; [discriminate|].
      destruct (fs' (cache_path session_str)) as [| |doc]; try discriminate.
      inversion E. now rewrite dump_load.
    - destruct (compute_race_telemetry tyre session) as [telemetry|e];
        [|discriminate].
      unfold save_and_return in H.
      destruct (Colors.get_driver_colors color_mapping) as [colors|e];
        [|discriminate].
      inversion H. subst. split.
      + apply write_same.
      + intros p Hp. now apply write_other.
    - discriminate. }
  destruct Hfile as [Hfile Hother].
  split; [exact Hfile|]. split; [exact Hother|].
  intros tyre' cm' name' session' Hpath.
  rewrite Hpath, Hfile. reflexivity.
Qed.

Lemma saved_telemetry_is_reused_witness :
  dnf_files (cache_path dnf_name) = Stored (dump dnf_saved)
  /\ (forall p, p <> cache_path dnf_name -> dnf_files p = no_files p)
  /\ (forall tyre' color_mapping' session_str' session',
        cache_path session_str' = cache_path dnf_name ->
        Cache.get_race_telemetry tyre' false color_mapping' dnf_files
          session_str' session'
        = (Ok (load (dump dnf_saved)), dnf_files))
  /\ load (dump dnf_saved) = dnf_loaded
  /\ dnf_loaded <> dnf_saved
  /\ cache_path dnf_name
     = "computed_data/2024_Season_Round_1:_Bahrain_Grand_Prix_-_Race_race_telemetry.json".
Proof.
  assert (H := saved_telemetry_is_reused F1Spec.example_tyres true
           ColorSpec.example_mapping no_files dnf_files dnf_name
           F1Spec.dnf_session dnf_saved).
  destruct H as [H1 [H2 H3]].
  - vm_compute. reflexivity.
  - split; [exact H1|]. split; [exact H2|]. split; [exact H3|].
    split; [reflexivity|]. split; [discriminate|reflexivity].
Defined.

(** X11: the file is opened for writing before the colours are converted:
    when the computation from scratch succeeds and the conversion raises,
    the call raises and leaves at the session's path a file that is no
    JSON document, and every later call without the refresh flag for a
    session of the same path raises [ValueError] on it. *)
Theorem failed_conversion_leaves_unreadable_file (tyre : string -> Q)
  (refresh_data : bool) (color_mapping : PyDict.dict string) (fs : files)
  (session_str : string) (session : Session) (telemetry : bundle) (e : exn) :
  refresh_data = true \/ fs (cache_path session_str) = Absent ->
  compute_race_telemetry tyre session = Ok telemetry ->
  Colors.get_driver_colors color_mapping = Raise e ->
  let fs' := write (cache_path session_str) Unreadable fs in
  Cache.get_race_telemetry tyre refresh_data color_mapping fs session_str session
  = (Raise e, fs')
  /\ forall tyre' color_mapping' session_str' session',
       cache_path session_str' = cache_path session_str ->
       Cache.get_race_telemetry tyre' false color_mapping' fs' session_str' session'
       = (Raise ValueError, fs').
Proof.
  intros Hload Hrun Hcol fs'. split.
  - unfold Cache.get_race_telemetry.
    assert (El : load_precomputed refresh_data (fs (cache_path session_str))
                 = Ok None).
    { destruct Hload as [-> | ->]; [reflexivity|]. now destruct refresh_data. }
    rewrite El, Hrun. unfold save_and_return. now rewrite Hcol.
  - intros tyre' cm' name' session' Hpath.
    unfold Cache.get_race_telemetry. rewrite Hpath.
    unfold fs'. rewrite write_same. reflexivity.
Qed.

Lemma failed_conversion_leaves_unreadable_file_witness :
  let fs' := write (cache_path dnf_name) Unreadable no_files in
  Cache.get_race_telemetry F1Spec.example_tyres false ColorSpec.shorthand_mapping
    no_files dnf_name F1Spec.dnf_session
  = (Raise ValueError, fs')
  /\ forall tyre' color_mapping' session_str' session',
       cache_path session_str' = cache_path dnf_name ->
       Cache.get_race_telemetry tyre' false color_mapping' fs' session_str' session'
       = (Raise ValueError, fs').
Proof.
  apply (failed_conversion_leaves_unreadable_file F1Spec.example_tyres false
           ColorSpec.shorthand_mapping no_files dnf_name F1Spec.dnf_session
           F1Spec.dnf_output ValueError).
  - right. reflexivity.
  - vm_compute. reflexivity.
  - vm_compute. reflexivity.
Defined.

End CacheProofs.

(** ** The telemetry pipeline, further *)

Module PipelineProofs.
Import F1Data F1Spec SessionSpec DictFacts F1Proofs.
Local Open Scope string_scope.
Local Open Scope Q_scope.
Local Open Scope list_scope.

(** *** Loops over [enumerate] *)

Lemma for_each_indexed_from {A S : Type} (P : nat -> S -> Prop)
  (body : S -> nat * A -> result S) (xs : list A) (start : nat) :
  (forall j x st st', nth_error xs j = Some x -> P (start + j)%nat st ->
                      body st ((start + j)%nat, x) = Ok st' ->
                      P (Datatypes.S (start + j)) st') ->
  forall st st', P start st ->
    for_each body (combine (seq start (length xs)) xs) st = Ok st' ->
    P (start + length xs)%nat st'.
Proof.
  revert start. induction xs as [|x xs IH]; intros start Hstep st st' Hst H.
  - simpl in H. inversion H. subst st'. now rewrite Nat.add_0_r.
  - simpl in H. destruct (body st (start, x)) as [st1|e] eqn:E; [|discriminate].
    cbn [bind] in H.
    simpl length. replace (start + Datatypes.S (length xs))%nat
      with (Datatypes.S start + length xs)%nat by lia.
    apply (IH (Datatypes.S start)) with (st := st1); auto.
    + intros j y s s' Hj Hs Hb.
      replace (Datatypes.S start + j)%nat with (start + Datatypes.S j)%nat in * by lia.
      now apply (Hstep (Datatypes.S j) y s s').
    + specialize (Hstep 0%nat x st st1). rewrite Nat.add_0_r in Hstep.
      now apply Hstep.
Qed.

Lemma for_each_indexed {A S : Type} (P : nat -> S -> Prop)
  (body : S -> nat * A -> result S) (xs : list A) :
  (forall j x st st', nth_error xs j = Some x -> P j st ->
                      body st (j, x) = Ok st' -> P (Datatypes.S j) st') ->
  forall st st', P 0%nat st ->
    for_each body (enumerate xs) st = Ok st' -> P (length xs) st'.
Proof.
  intros Hstep st st' Hst H.
  apply (for_each_indexed_from P body xs 0 Hstep st st' Hst H).
Qed.

(** *** Arrays read through an index array *)

Lemma take_as_map (a : list Q) (order : list nat) (vs : list Q) :
  Np.take a order = Ok vs -> vs = map (fun i => nth i a 0) order.
Proof.
  revert vs. induction order as [|i order IH]; intros vs H; simpl in H.
  - now inversion H.
  - unfold Np.item in H. destruct (nth_error a i) as [v|] eqn:E; [|discriminate].
    cbn [bind] in H. destruct (Np.take a order) as [vs'|]; [|discriminate].
    cbn [bind] in H. inversion H. simpl. f_equal.
    + symmetry. now apply nth_error_nth.
    + now apply IH.
Qed.

Lemma map_nth_seq (a : list Q) :
  map (fun i => nth i a 0) (seq 0 (length a)) = a.
Proof.
  induction a as [|x a IH]; simpl; auto. f_equal.
  rewrite <- seq_shift, map_map. exact IH.
Qed.

Lemma take_in (a : list Q) (order : list nat) (vs : list Q) (v : Q) :
  Np.take a order = Ok vs -> In v vs -> In v a.
Proof.
  revert vs. induction order as [|i order IH]; intros vs H Hv; simpl in H.
  - inversion H. subst vs. destruct Hv.
  - unfold Np.item in H. destruct (nth_error a i) as [w|] eqn:E; [|discriminate].
    cbn [bind] in H. destruct (Np.take a order) as [vs'|]; [|discriminate].
    cbn [bind] in H. inversion H. subst vs. destruct Hv as [<-|Hv].
    + now apply nth_error_In in E.
    + now apply (IH vs').
Qed.

Lemma reorder_channels (order : list nat) (c c' : channels) :
  reorder order c = Ok c' ->
  Np.take (ch_t c) order = Ok (ch_t c')
  /\ Np.take (ch_x c) order = Ok (ch_x c')
  /\ Np.take (ch_y c) order = Ok (ch_y c')
  /\ Np.take (ch_dist c) order = Ok (ch_dist c')
  /\ Np.take (ch_lap c) order = Ok (ch_lap c').
Proof.
  unfold reorder. intros H.
  repeat match type of H with
         | bind ?m _ = _ =>
             let E := fresh "E" in destruct m eqn:E; [cbn [bind] in H|discriminate]
         end.
  inversion H. simpl. auto.
Qed.

(** Reading the arrays through a permutation of their indices keeps every
    sample, with its position at its time. *)
Lemma reorder_samples (order : list nat) (c c' : channels) :
  uniform c ->
  Permutation order (seq 0 (length (ch_t c))) ->
  reorder order c = Ok c' ->
  Permutation (trace_samples c') (trace_samples c).
Proof.
  intros (Hx & Hy & _) Hperm H.
  apply reorder_channels in H. destruct H as (Ht & Ex & Ey & _).
  apply take_as_map in Ht, Ex, Ey.
  unfold trace_samples. rewrite Ht, Ex, Ey.
  rewrite !combine_maps.
  rewrite (Permutation_map _ Hperm).
  rewrite <- !combine_maps.
  rewrite map_nth_seq.
  replace (map (fun i => nth i (ch_x c) 0) (seq 0 (length (ch_t c)))) with (ch_x c)
    by (rewrite <- Hx; symmetry; apply map_nth_seq).
  replace (map (fun i => nth i (ch_y c) 0) (seq 0 (length (ch_t c)))) with (ch_y c)
    by (rewrite <- Hy; symmetry; apply map_nth_seq).
  reflexivity.
Qed.

(** *** Every sample is kept *)

Lemma trace_samples_concatenate (ls : list channels) :
  Forall uniform ls ->
  trace_samples (concatenate ls) = flat_map trace_samples ls.
Proof.
  unfold trace_samples. simpl.
  induction 1 as [|c ls Hc Hls IH]; simpl; auto.
  destruct Hc as (Hx & Hy & _).
  rewrite (combine_app_same (ch_x c) _ (ch_y c)) by congruence.
  rewrite (combine_app_same (ch_t c) _ (combine (ch_x c) (ch_y c)))
    by (rewrite length_combine, Hx, Hy; lia).
  now rewrite IH.
Qed.

Lemma normalise_laps_samples (tyre : string -> Q) (laps : list Lap)
  (acc acc' : lap_acc) :
  Forall uniform (all_laps acc) ->
  for_each (lap_step tyre) laps acc = Ok acc' ->
  Forall uniform (all_laps acc')
  /\ flat_map trace_samples (all_laps acc')
     = flat_map trace_samples (all_laps acc) ++ flat_map lap_samples laps.
Proof.
  revert acc. induction laps as [|lap laps IH]; intros acc Hu H.
  - simpl in H. inversion H. subst acc'. simpl. now rewrite app_nil_r.
  - rewrite for_each_cons in H.
    destruct (get_telemetry lap) as [|s0 tel] eqn:E.
    + unfold lap_step in H. rewrite E in H. cbn [bind] in H.
      destruct (IH acc Hu H) as [Hu' Hs]. split; [exact Hu'|].
      rewrite Hs. simpl. unfold lap_samples at 2. now rewrite E.
    + destruct (lap_step_spec tyre acc lap) as [m [len [_ [_ Hstep]]]];
        [rewrite E; discriminate|].
      rewrite Hstep in H. cbn [bind] in H. clear Hstep.
      apply IH in H.
      * destruct H as [Hu' Hs]. split; [exact Hu'|].
        rewrite Hs. cbn [all_laps]. rewrite flat_map_app. simpl flat_map.
        rewrite app_nil_r, <- app_assoc. f_equal. f_equal.
        unfold trace_samples, lap_samples. cbn [ch_t ch_x ch_y].
        now rewrite !combine_maps.
      * cbn [all_laps]. apply Forall_app. split; auto. constructor; [|constructor].
        unfold uniform, Np.full_like. simpl. rewrite !length_map. tauto.
Qed.

(** The trace of a driver holds every sample of the driver's laps once,
    with its position at its time, and in the order of time. *)
Lemma driver_trace_samples (tyre : string -> Q) (laps : list Lap) (trace : channels) :
  driver_trace tyre laps = Ok (Some trace) ->
  Permutation (trace_samples trace) (flat_map lap_samples laps)
  /\ StronglySorted Qle (ch_t trace).
Proof.
  intros H. apply driver_trace_inv in H. destruct H as (merged & Hm & Hre).
  unfold merged_trace, normalise_laps in Hm.
  destruct (for_each (lap_step tyre) laps
              {| all_laps := []; total_dist_so_far := 0 |}) as [acc|e] eqn:E;
    [|discriminate].
  cbn [bind] in Hm. inversion Hm. subst merged.
  apply normalise_laps_samples in E; [|constructor].
  destruct E as [Hu Hs]. simpl in Hs. split.
  - rewrite <- Hs, <- trace_samples_concatenate by exact Hu.
    apply (reorder_samples (Np.argsort (ch_t (concatenate (all_laps acc))))).
    + now apply concatenate_uniform.
    + apply argsort_perm.
    + exact Hre.
  - destruct (take_argsort_sorted (ch_t (concatenate (all_laps acc))))
      as (s & Hs' & Hsorted).
    apply reorder_inv in Hre. destruct Hre as [Ht _].
    rewrite Hs' in Ht. inversion Ht as [Heq]. rewrite <- Heq. exact Hsorted.
Qed.

Lemma map_fst_combine {A B : Type} (a : list A) (b : list B) :
  length a = length b -> map fst (combine a b) = a.
Proof.
  revert b. induction a as [|x a IH]; intros [|y b] H; simpl in *;
    try discriminate; auto.
  f_equal. apply IH. lia.
Qed.

Lemma lap_samples_times (laps : list Lap) :
  map fst (flat_map lap_samples laps) = flat_map lap_times laps.
Proof.
  induction laps as [|lap laps IH]; simpl; auto.
  rewrite map_app, IH. f_equal.
  unfold lap_samples, lap_times. now rewrite map_map.
Qed.

Lemma driver_trace_times (tyre : string -> Q) (laps : list Lap) (trace : channels) :
  driver_trace tyre laps = Ok (Some trace) ->
  Permutation (ch_t trace) (flat_map lap_times laps).
Proof.
  intros H.
  destruct (driver_trace_usable tyre laps) as (r & Hr & Hu).
  rewrite H in Hr. inversion Hr. subst r.
  destruct Hu as [(Hx & Hy & _) _].
  apply driver_trace_samples in H. destruct H as [Hp _].
  apply (Permutation_map fst) in Hp.
  rewrite lap_samples_times in Hp.
  unfold trace_samples in Hp. rewrite map_fst_combine in Hp; [exact Hp|].
  rewrite length_combine, Hx, Hy. lia.
Qed.

(** *** The bounds of the timeline *)

Lemma no_sample_no_times (laps : list Lap) :
  Forall (fun lap => get_telemetry lap = []) laps -> flat_map lap_times laps = [].
Proof.
  induction 1 as [|lap laps Hl _ IH]; simpl; auto.
  unfold lap_times at 1. now rewrite Hl, IH.
Qed.

Lemma is_min_perm (m : Q) (a b : list Q) :
  Permutation a b -> is_min m a -> is_min m b.
Proof.
  intros Hp [Hin Hle]. split.
  - now apply (Permutation_in _ Hp).
  - intros v Hv. apply Hle. now apply (Permutation_in _ (Permutation_sym Hp)).
Qed.

Lemma is_max_perm (m : Q) (a b : list Q) :
  Permutation a b -> is_max m a -> is_max m b.
Proof.
  intros Hp [Hin Hle]. split.
  - now apply (Permutation_in _ Hp).
  - intros v Hv. apply Hle. now apply (Permutation_in _ (Permutation_sym Hp)).
Qed.

Lemma is_min_app (g m : Q) (a b : list Q) :
  is_min g a -> is_min m b -> is_min (Np.qmin g m) (a ++ b).
Proof.
  intros [Hga Hgle] [Hmb Hmle].
  destruct (qmin_cases g m) as [[-> Hle]|[-> Hle]]; split.
  - apply in_or_app. now left.
  - intros v Hv. apply in_app_or in Hv. destruct Hv as [Hv|Hv]; auto.
    apply Hmle in Hv. lra.
  - apply in_or_app. now right.
  - intros v Hv. apply in_app_or in Hv. destruct Hv as [Hv|Hv]; auto.
    apply Hgle in Hv. lra.
Qed.

Lemma is_max_app (g m : Q) (a b : list Q) :
  is_max g a -> is_max m b -> is_max (Np.qmax g m) (a ++ b).
Proof.
  intros [Hga Hgle] [Hmb Hmle].
  destruct (qmax_cases g m) as [[-> Hle]|[-> Hle]]; split.
  - apply in_or_app. now left.
  - intros v Hv. apply in_app_or in Hv. destruct Hv as [Hv|Hv]; auto.
    apply Hmle in Hv. lra.
  - apply in_or_app. now right.
  - intros v Hv. apply in_app_or in Hv. destruct Hv as [Hv|Hv]; auto.
    apply Hgle in Hv. lra.
Qed.

(** What one turn of the driver loop does. *)
Lemma load_driver_inv (tyre : string -> Q) (session : Session) (st st' : load_state)
  (driver_no : string) :
  load_driver tyre session st driver_no = Ok st' ->
  (driver_times session driver_no = [] /\ st' = st)
  \/ exists data t_min t_max,
       driver_trace tyre (pick_drivers session driver_no) = Ok (Some data)
       /\ driver_times session driver_no <> []
       /\ is_min t_min (driver_times session driver_no)
       /\ is_max t_max (driver_times session driver_no)
       /\ st' = {| driver_data :=
                     PyDict.set (get_driver_abbreviation session driver_no) data
                       (driver_data st);
                   global_t_min :=
                     Some (match global_t_min st with
                           | None => t_min
                           | Some g => Np.qmin g t_min
                           end);
                   global_t_max :=
                     Some (match global_t_max st with
                           | None => t_max
                           | Some g => Np.qmax g t_max
                           end) |}.
Proof.
  unfold load_driver, driver_times. intros H.
  destruct (pick_drivers session driver_no) as [|lap0 laps] eqn:El.
  - left. inversion H. auto.
  - destruct (driver_trace_usable tyre (lap0 :: laps)) as ([data|] & Hrun & Hr);
      rewrite Hrun in H; cbn [bind] in H.
    + right. destruct Hr as [Hu Ht].
      pose proof (driver_trace_times tyre _ _ Hrun) as Hp.
      destruct (np_min_is_min (ch_t data) Ht) as (t_min & Emin & Hmin).
      destruct (np_max_is_max (ch_t data) Ht) as (t_max & Emax & Hmax).
      rewrite Emin, Emax in H. cbn [bind] in H.
      exists data, t_min, t_max. split; [exact Hrun|]. split.
      { intros E. rewrite E in Hp. apply Permutation_sym, Permutation_nil in Hp.
        contradiction. }
      split; [now apply (is_min_perm _ _ _ Hp)|].
      split; [now apply (is_max_perm _ _ _ Hp)|].
      now inversion H.
    + left. inversion H. split; [|reflexivity]. now apply no_sample_no_times.
Qed.

Lemma load_driver_bounds (tyre : string -> Q) (session : Session)
  (done : list string) (st st' : load_state) (driver_no : string) :
  bounds_reached session done st ->
  load_driver tyre session st driver_no = Ok st' ->
  bounds_reached session (done ++ [driver_no]) st'.
Proof.
  intros Hst H. apply load_driver_inv in H.
  unfold bounds_reached in *. rewrite flat_map_app. simpl flat_map.
  rewrite app_nil_r.
  destruct H as [[Hnone ->]|(data & t_min & t_max & _ & Hne & Hmin & Hmax & ->)].
  - rewrite Hnone, app_nil_r. exact Hst.
  - cbn [global_t_min global_t_max driver_data].
    destruct (global_t_min st) as [gmin|]; destruct (global_t_max st) as [gmax|];
      try contradiction.
    + destruct Hst as (Hgmin & Hgmax & _).
      split; [now apply is_min_app|]. split; [now apply is_max_app|].
      apply set_nonempty.
    + destruct Hst as [-> _]. simpl. split; [exact Hmin|]. split; [exact Hmax|].
      apply set_nonempty.
Qed.

Lemma load_drivers_bounds_from (tyre : string -> Q) (session : Session)
  (ds done : list string) (st st' : load_state) :
  bounds_reached session done st ->
  for_each (load_driver tyre session) ds st = Ok st' ->
  bounds_reached session (done ++ ds) st'.
Proof.
  revert done st. induction ds as [|d ds IH]; intros done st Hst H.
  - simpl in H. inversion H. subst st'. now rewrite app_nil_r.
  - rewrite for_each_cons in H.
    destruct (load_driver tyre session st d) as [st1|e] eqn:E; [|discriminate].
    cbn [bind] in H.
    replace (done ++ d :: ds) with ((done ++ [d]) ++ ds)
      by now rewrite <- app_assoc.
    apply (IH _ st1); auto. now apply (load_driver_bounds tyre session done st).
Qed.

(** When the driver loop is through, the two bounds are the least and the
    greatest time stamp of the session, and some driver is stored. *)
Lemma load_drivers_bounds (tyre : string -> Q) (session : Session)
  (loaded : load_state) (t_min : Q) (timeline : list Q) :
  load_drivers tyre session = Ok loaded ->
  build_timeline (global_t_min loaded) (global_t_max loaded) = Ok (t_min, timeline) ->
  exists t_max,
    is_min t_min (session_times session)
    /\ is_max t_max (session_times session)
    /\ driver_data loaded <> []
    /\ timeline = timeline_grid t_min t_max.
Proof.
  unfold load_drivers. intros Hload Htl.
  apply (load_drivers_bounds_from tyre session _ []) in Hload.
  - unfold bounds_reached in Hload. simpl app in Hload.
    unfold build_timeline in Htl.
    destruct (global_t_min loaded) as [gmin|]; destruct (global_t_max loaded) as [gmax|];
      try discriminate.
    destruct Hload as (Hmin & Hmax & Hne).
    inversion Htl. subst. exists gmax. unfold session_times. auto.
  - unfold bounds_reached. simpl. auto.
Qed.

(** *** The stages of a computation that succeeds *)

Lemma compute_stages (tyre : string -> Q) (session : Session) (out : bundle) :
  compute_race_telemetry tyre session = Ok out ->
  exists loaded t_min t_max resampled st,
    load_drivers tyre session = Ok loaded
    /\ is_min t_min (session_times session)
    /\ is_max t_max (session_times session)
    /\ Forall (fun kv => usable (snd kv)) (driver_data loaded)
    /\ resample (timeline_grid t_min t_max) t_min (driver_data loaded) = Ok resampled
    /\ resampled <> []
    /\ NoDup (PyDict.keys resampled)
    /\ Forall (fun kv => sized (length (timeline_grid t_min t_max)) (snd kv)) resampled
    /\ build_frames (extract_driver_status (results session)) resampled
         (timeline_grid t_min t_max) = Ok st
    /\ out = {| out_frames := frames st;
                out_track_statuses := format_track_statuses t_min (track_status session);
                out_driver_status := extract_driver_status (results session);
                out_driver_finish_frames := driver_finish_frame st |}.
Proof.
  intros H. apply compute_race_telemetry_inv in H.
  destruct H as (loaded & t_min & timeline & resampled & st
                 & Hload & Htl & Hres & Hst & ->).
  destruct (load_drivers_bounds tyre session loaded t_min timeline Hload Htl)
    as (t_max & Hmin & Hmax & Hne & ->).
  assert (Hu : Forall (fun kv => usable (snd kv)) (driver_data loaded)).
  { destruct (load_drivers_from tyre session (drivers session)
                {| driver_data := []; global_t_min := None; global_t_max := None |})
      as (st' & Hrun & [Hall _] & _).
    { split; simpl; [constructor|congruence]. }
    unfold load_drivers in Hload. rewrite Hload in Hrun. now inversion Hrun. }
  destruct (resample_from (timeline_grid t_min t_max) t_min (driver_data loaded) [] Hu)
    as (r' & Hrun & Hsized & Hrne); [constructor|].
  unfold resample, PyDict.items in Hres. rewrite Hres in Hrun. inversion Hrun.
  subst r'.
  exists loaded, t_min, t_max, resampled, st.
  split; [exact Hload|]. split; [exact Hmin|]. split; [exact Hmax|].
  split; [exact Hu|]. split; [exact Hres|].
  split; [apply Hrne; now left|].
  split; [now apply (resample_keys_nodup _ _ _ _ Hres)|].
  split; [exact Hsized|]. split; [exact Hst|]. reflexivity.
Qed.

(** *** A tick with a driver at hand *)

Lemma build_snapshot_nonempty (i : nat) (r : PyDict.dict channels) (snapshot : list car) :
  r <> [] -> build_snapshot i (PyDict.items r) = Ok snapshot -> snapshot <> [].
Proof.
  intros Hne H E. subst snapshot.
  apply build_snapshot_codes in H. unfold PyDict.items in H.
  destruct r; [congruence|discriminate].
Qed.

(** With a driver at hand a tick appends a frame: the one written for the
    sorted snapshot after the two finish detections. *)
Lemma tick_appends (m : PyDict.dict driver_status) (r : PyDict.dict channels)
  (st st' : asm_state) (i : nat) (t : Q) :
  r <> [] ->
  tick m r st (i, t) = Ok st' ->
  exists snapshot leader rest st2,
    build_snapshot i (PyDict.items r) = Ok snapshot
    /\ sort_by_dist snapshot = leader :: rest
    /\ st2 = fold_left (detect_driver_finish m i) (leader :: rest)
               (detect_leader_finish m i leader st)
    /\ frames st' = frames st ++ [frame_of t leader rest st2]
    /\ driver_finish_frame st' = driver_finish_frame st2
    /\ race_leader_finished_frame st' = race_leader_finished_frame st2.
Proof.
  intros Hne H.
  assert (Hinv : exists snapshot leader rest,
             build_snapshot i (PyDict.items r) = Ok snapshot
             /\ sort_by_dist snapshot = leader :: rest
             /\ let st2 := fold_left (detect_driver_finish m i) (leader :: rest)
                             (detect_leader_finish m i leader st) in
                st' = {| frames := frames st2 ++ [frame_of t leader rest st2];
                         driver_last_seen_lap := driver_last_seen_lap st2;
                         driver_finish_frame := driver_finish_frame st2;
                         race_leader_finished_frame := race_leader_finished_frame st2 |}).
  { unfold tick in H.
    destruct (build_snapshot i (PyDict.items r)) as [snapshot|e] eqn:Es; [|discriminate].
    cbn [bind] in H.
    pose proof (build_snapshot_nonempty i r snapshot Hne Es) as Hsn.
    destruct snapshot as [|c0 cs]; [congruence|].
    destruct (sort_by_dist (c0 :: cs)) as [|leader rest] eqn:E; [discriminate|].
    exists (c0 :: cs), leader, rest.
    split; [reflexivity|]. split; [exact E|].
    now inversion H. }
  destruct Hinv as (snapshot & leader & rest & Hsnap & Hsort & Hst').
  exists snapshot, leader, rest.
  eexists. split; [exact Hsnap|]. split; [exact Hsort|]. split; [reflexivity|].
  cbv zeta in Hst'. rewrite Hst'.
  cbn [frames driver_finish_frame race_leader_finished_frame].
  split; [|auto].
  rewrite (proj1 (detect_driver_finish_fold m i (leader :: rest) _)).
  now rewrite detect_leader_finish_frames.
Qed.

Lemma firstn_succ {A : Type} (l : list A) (i : nat) (x : A) :
  nth_error l i = Some x -> firstn (Datatypes.S i) l = firstn i l ++ [x].
Proof.
  revert i. induction l as [|y l IH]; intros [|i] H; simpl in *; try discriminate.
  - now inversion H.
  - f_equal. now apply IH.
Qed.

(** The frames built so far carry the ticks handled so far. *)
Lemma build_frames_times (m : PyDict.dict driver_status) (r : PyDict.dict channels)
  (timeline : list Q) (st : asm_state) :
  r <> [] ->
  build_frames m r timeline = Ok st ->
  map fr_t (frames st) = timeline.
Proof.
  intros Hne H. unfold build_frames in H.
  rewrite <- (firstn_all timeline) at 1.
  revert H.
  apply (for_each_indexed
           (fun i s => map fr_t (frames s) = firstn i timeline)
           (tick m r) timeline); [|reflexivity].
  intros j t s s' Hj Hs Hstep.
  apply (tick_appends m r s s' j t Hne) in Hstep.
  destruct Hstep as (snapshot & leader & rest & st2 & _ & _ & _ & Hf & _).
  rewrite Hf, map_app, Hs. simpl. symmetry. now apply firstn_succ.
Qed.

Lemma frames_times_of_bundle (tyre : string -> Q) (session : Session) (out : bundle) :
  compute_race_telemetry tyre session = Ok out ->
  exists t_min t_max,
    is_min t_min (session_times session)
    /\ is_max t_max (session_times session)
    /\ map fr_t (out_frames out) = timeline_grid t_min t_max.
Proof.
  intros H. apply compute_stages in H.
  destruct H as (loaded & t_min & t_max & resampled & st
                 & _ & Hmin & Hmax & _ & _ & Hne & _ & _ & Hst & ->).
  exists t_min, t_max. split; [exact Hmin|]. split; [exact Hmax|].
  simpl. now apply (build_frames_times _ resampled _ _ Hne Hst).
Qed.

(** X12: a computed bundle has one frame per tick of the timeline, the
    [k]-th frame carrying the [k]-th tick, and the timeline is the grid
    built from the least and the greatest time stamp of all telemetry
    samples of the session. *)
Theorem frames_follow_the_timeline (tyre : string -> Q) (session : Session)
  (out : bundle) :
  compute_race_telemetry tyre session = Ok out ->
  exists t_min t_max,
    is_min t_min (session_times session)
    /\ is_max t_max (session_times session)
    /\ map fr_t (out_frames out) = timeline_grid t_min t_max.
Proof.
  intros H. exact (frames_times_of_bundle tyre session out H).
Qed.

Lemma frames_follow_the_timeline_witness :
  length (out_frames dnf_output) = 4%nat
  /\ exists t_min t_max,
       is_min t_min (session_times dnf_session)
       /\ is_max t_max (session_times dnf_session)
       /\ map fr_t (out_frames dnf_output) = timeline_grid t_min t_max.
Proof.
  split; [reflexivity|].
  apply (frames_follow_the_timeline example_tyres dnf_session dnf_output).
  vm_compute. reflexivity.
Defined.

(** X13: when all telemetry samples of a session carry one time stamp,
    the bundle that is computed has no frame at all. *)
Theorem single_instant_gives_no_frame (tyre : string -> Q) (session : Session)
  (out : bundle) :
  compute_race_telemetry tyre session = Ok out ->
  single_instant session ->
  out_frames out = [].
Proof.
  intros Hrun Hone.
  destruct (frames_times_of_bundle tyre session out Hrun)
    as (t_min & t_max & [Hmin _] & [Hmax _] & Ht).
  rewrite timeline_grid_none in Ht.
  - now apply map_eq_nil in Ht.
  - rewrite (Hone t_max t_min Hmax Hmin). apply Qle_refl.
Qed.

Lemma single_instant_gives_no_frame_witness :
  exists out,
    compute_race_telemetry example_tyres instant_session = Ok out
    /\ out_frames out = [].
Proof.
  destruct (compute_race_telemetry example_tyres instant_session) as [out|] eqn:E;
    [|discriminate].
  exists out. split; [reflexivity|].
  apply (single_instant_gives_no_frame example_tyres instant_session out E).
  intros t t' Ht Ht'. simpl in Ht, Ht'.
  destruct Ht as [<-|[]]. destruct Ht' as [<-|[]]. reflexivity.
Defined.

(** *** The drivers of a frame *)

Lemma keys_set_in {V : Type} (k : string) (v : V) (d : PyDict.dict V) (c : string) :
  In c (PyDict.keys (PyDict.set k v d)) <-> c = k \/ In c (PyDict.keys d).
Proof.
  destruct (in_dec string_dec k (PyDict.keys d)) as [Hin|Hout].
  - rewrite keys_set_present by exact Hin. split; auto.
    intros [->|H]; auto.
  - rewrite set_fresh by exact Hout. unfold PyDict.keys. rewrite map_app, in_app_iff.
    simpl. intuition congruence.
Qed.

Lemma load_drivers_keys_from (tyre : string -> Q) (session : Session)
  (ds done : list string) (st st' : load_state) :
  (forall c, In c (PyDict.keys (driver_data st))
             <-> exists n, In n done /\ get_driver_abbreviation session n = c
                           /\ driver_times session n <> []) ->
  for_each (load_driver tyre session) ds st = Ok st' ->
  forall c, In c (PyDict.keys (driver_data st'))
            <-> exists n, In n (done ++ ds) /\ get_driver_abbreviation session n = c
                          /\ driver_times session n <> [].
Proof.
  revert done st. induction ds as [|d ds IH]; intros done st Hst H.
  - simpl in H. inversion H. subst st'. now rewrite app_nil_r.
  - rewrite for_each_cons in H.
    destruct (load_driver tyre session st d) as [st1|e] eqn:E; [|discriminate].
    cbn [bind] in H.
    replace (done ++ d :: ds) with ((done ++ [d]) ++ ds)
      by now rewrite <- app_assoc.
    apply (IH _ st1); auto. clear IH H.
    apply load_driver_inv in E. intros c.
    destruct E as [[Hnone ->]|(data & t_min & t_max & _ & Hne & _ & _ & ->)].
    + rewrite Hst. split; intros (n & Hn & Hc & Ht); exists n.
      * split; [apply in_or_app; now left|auto].
      * apply in_app_or in Hn. destruct Hn as [Hn|[<-|[]]]; [auto|contradiction].
    + cbn [driver_data]. rewrite keys_set_in, Hst. split.
      * intros [->|(n & Hn & Hc & Ht)].
        -- exists d. split; [apply in_or_app; right; now left|auto].
        -- exists n. split; [apply in_or_app; now left|auto].
      * intros (n & Hn & Hc & Ht). apply in_app_or in Hn.
        destruct Hn as [Hn|[<-|[]]]; [right; eauto|left; auto].
Qed.

Lemma resample_driver_sets (timeline : list Q) (t_min : Q)
  (acc acc' : PyDict.dict channels) (code : string) (data : channels) :
  resample_driver timeline t_min acc (code, data) = Ok acc' ->
  exists resampled, acc' = PyDict.set code resampled acc.
Proof.
  unfold resample_driver. intros H.
  repeat match type of H with
         | bind ?m _ = _ => destruct m; [cbn [bind] in H|discriminate]
         end.
  inversion H. eexists. reflexivity.
Qed.

Lemma resample_keys_from (timeline : list Q) (t_min : Q)
  (entries acc out : PyDict.dict channels) :
  for_each (resample_driver timeline t_min) entries acc = Ok out ->
  forall c, In c (PyDict.keys out) <-> In c (PyDict.keys acc) \/ In c (PyDict.keys entries).
Proof.
  revert acc. induction entries as [|[code data] entries IH]; intros acc H c.
  - simpl in H. inversion H. simpl. tauto.
  - rewrite for_each_cons in H.
    destruct (resample_driver timeline t_min acc (code, data)) as [acc1|e] eqn:E;
      [|discriminate].
    cbn [bind] in H. apply resample_driver_sets in E. destruct E as [ch ->].
    rewrite (IH _ H), keys_set_in. simpl. intuition.
Qed.

(** The rows of a frame stand under the codes of the resampled drivers. *)
Lemma frame_of_keys (i : nat) (t : Q) (r : PyDict.dict channels)
  (snapshot : list car) (leader : car) (rest : list car) (st : asm_state) :
  NoDup (PyDict.keys r) ->
  build_snapshot i (PyDict.items r) = Ok snapshot ->
  sort_by_dist snapshot = leader :: rest ->
  NoDup (map car_code (leader :: rest))
  /\ Permutation (map car_code (leader :: rest)) (PyDict.keys r)
  /\ fr_drivers (frame_of t leader rest st) = map frame_row (enumerate (leader :: rest)).
Proof.
  intros Hnd Hsnap Hsort.
  apply build_snapshot_codes in Hsnap.
  assert (Hp : Permutation (map car_code (leader :: rest)) (PyDict.keys r)).
  { rewrite <- Hsort. unfold PyDict.keys. unfold PyDict.items in Hsnap.
    rewrite <- Hsnap. apply Permutation_map. apply stable_sort_perm. }
  assert (Hnd' : NoDup (map car_code (leader :: rest))).
  { apply (Permutation_NoDup (Permutation_sym Hp)). exact Hnd. }
  split; [exact Hnd'|]. split; [exact Hp|].
  unfold frame_of. cbn [fr_drivers]. now apply build_frame_data_rows.
Qed.

Lemma frame_rows_keys (snapshot : list car) :
  PyDict.keys (map frame_row (enumerate snapshot)) = map car_code snapshot.
Proof.
  unfold PyDict.keys. rewrite map_map.
  transitivity (map car_code (map snd (enumerate snapshot))).
  - now rewrite map_map.
  - unfold enumerate. now rewrite enumerate_snd.
Qed.

Lemma build_frames_keys (m : PyDict.dict driver_status) (r : PyDict.dict channels)
  (timeline : list Q) (st : asm_state) :
  NoDup (PyDict.keys r) ->
  build_frames m r timeline = Ok st ->
  Forall (fun f => Permutation (PyDict.keys (fr_drivers f)) (PyDict.keys r))
    (frames st).
Proof.
  intros Hnd. unfold build_frames.
  apply for_each_invariant
    with (P := fun s => Forall (fun f => Permutation (PyDict.keys (fr_drivers f))
                                           (PyDict.keys r)) (frames s)).
  - intros s [i t] s' _ Hs H. apply tick_inv in H.
    destruct H as [->|(snapshot & leader & rest & Hsnap & Hsort & ->)]; auto.
    destruct (detect_driver_finish_fold m i (leader :: rest)
                (detect_leader_finish m i leader s)) as [Hf _].
    rewrite detect_leader_finish_frames in Hf.
    cbn [frames]. rewrite Hf. apply Forall_app. split; [exact Hs|].
    constructor; [|constructor].
    destruct (frame_of_keys i t r snapshot leader rest
                (fold_left (detect_driver_finish m i) (leader :: rest)
                   (detect_leader_finish m i leader s)) Hnd Hsnap Hsort)
      as (_ & Hp & ->).
    now rewrite frame_rows_keys.
  - constructor.
Qed.

(** X14: every frame of a computed bundle has one row for each driver code
    with a telemetry sample, and for no other: a driver stays in the
    frames before its first and after its last sample. *)
Theorem frames_list_the_drivers_with_samples (tyre : string -> Q)
  (session : Session) (out : bundle) (f : frame) :
  compute_race_telemetry tyre session = Ok out ->
  In f (out_frames out) ->
  NoDup (PyDict.keys (fr_drivers f))
  /\ forall c, In c (PyDict.keys (fr_drivers f)) <-> drives session c.
Proof.
  intros H Hf. apply compute_stages in H.
  destruct H as (loaded & t_min & t_max & resampled & st
                 & Hload & _ & _ & _ & Hres & _ & Hnd & _ & Hst & ->).
  cbn [out_frames] in Hf.
  pose proof (build_frames_keys _ _ _ _ Hnd Hst) as Hall.
  rewrite Forall_forall in Hall. specialize (Hall f Hf).
  split.
  - apply (Permutation_NoDup (Permutation_sym Hall)). exact Hnd.
  - intros c.
    transitivity (In c (PyDict.keys resampled)).
    { split; apply Permutation_in; [exact Hall|now apply Permutation_sym]. }
    unfold resample in Hres. rewrite (resample_keys_from _ _ _ _ _ Hres c).
    unfold load_drivers in Hload.
    apply (load_drivers_keys_from tyre session (drivers session) []) with (c := c)
      in Hload.
    + unfold drives, PyDict.items. simpl in *. tauto.
    + simpl. intros c'. split; [intros []|intros (n & [] & _)].
Qed.

Lemma frames_list_the_drivers_with_samples_witness :
  exists f,
    nth_error (out_frames dnf_output) 0 = Some f
    /\ PyDict.keys (fr_drivers f) = ["VER"; "HAM"]
    /\ NoDup (PyDict.keys (fr_drivers f))
    /\ forall c, In c (PyDict.keys (fr_drivers f)) <-> drives dnf_session c.
Proof.
  destruct (nth_error (out_frames dnf_output) 0) as [f|] eqn:E; [|discriminate].
  exists f. split; [reflexivity|].
  split; [inversion E; reflexivity|].
  apply (frames_list_the_drivers_with_samples example_tyres dnf_session dnf_output f).
  - vm_compute. reflexivity.
  - now apply nth_error_In in E.
Defined.

(** *** The order of the rows of a frame *)

Lemma sorted_enumerate {A : Type} (R : A -> A -> Prop) (l : list A) (start : nat) :
  StronglySorted R l ->
  StronglySorted (fun p q => (fst p < fst q)%nat /\ R (snd p) (snd q))
    (combine (seq start (length l)) l).
Proof.
  intros H. revert start. induction H as [|a l Hs IH Ha]; intros start; simpl.
  - constructor.
  - constructor; [apply IH|].
    apply Forall_forall. intros [j y] Hin. simpl. split.
    + apply in_combine_l in Hin. apply in_seq in Hin. lia.
    + apply in_combine_r in Hin. rewrite Forall_forall in Ha. now apply Ha.
Qed.

Lemma sorted_pair {A : Type} (R : A -> A -> Prop) (l : list A) (p q : A) :
  StronglySorted R l -> In p l -> In q l -> p = q \/ R p q \/ R q p.
Proof.
  induction 1 as [|a l Hs IH Ha]; intros Hp Hq; [destruct Hp|].
  rewrite Forall_forall in Ha.
  destruct Hp as [<-|Hp]; destruct Hq as [<-|Hq]; auto.
Qed.

Lemma frame_ordered (t : Q) (snapshot : list car) (leader : car) (rest : list car)
  (st : asm_state) :
  NoDup (map car_code snapshot) ->
  sort_by_dist snapshot = leader :: rest ->
  ordered_by_distance (frame_of t leader rest st).
Proof.
  intros Hnd Hsort.
  assert (Hnd' : NoDup (map car_code (leader :: rest))).
  { rewrite <- Hsort. unfold sort_by_dist.
    apply (Permutation_NoDup (l := map car_code snapshot)); auto.
    apply Permutation_map, Permutation_sym, stable_sort_perm. }
  pose proof (sort_by_dist_sorted snapshot) as Hsorted. rewrite Hsort in Hsorted.
  apply (sorted_enumerate _ _ 0%nat) in Hsorted.
  unfold ordered_by_distance, frame_of. cbn [fr_drivers fr_lap].
  rewrite build_frame_data_rows by exact Hnd'.
  unfold PyDict.values. rewrite map_map. split.
  - intros d d' Hd Hd' Hlt.
    apply in_map_iff in Hd. destruct Hd as [[idx c] [<- Hin]].
    apply in_map_iff in Hd'. destruct Hd' as [[idx' c'] [<- Hin']].
    unfold frame_row in *. cbn [snd fst df_position df_dist] in *.
    destruct (sorted_pair _ _ _ _ Hsorted Hin Hin') as [E|[[_ H]|[H _]]].
    + inversion E. lia.
    + exact H.
    + simpl in H. lia.
  - intros d Hd Hpos.
    apply in_map_iff in Hd. destruct Hd as [[idx c] [<- Hin]].
    unfold frame_row in *. cbn [snd fst df_position df_lap] in *.
    destruct (first_of_enumerate _ _ _ Hin Hpos) as [rest' Heq].
    now inversion Heq.
Qed.

Lemma build_frames_ordered (m : PyDict.dict driver_status) (r : PyDict.dict channels)
  (timeline : list Q) (st : asm_state) :
  NoDup (PyDict.keys r) ->
  build_frames m r timeline = Ok st ->
  Forall ordered_by_distance (frames st).
Proof.
  intros Hnd. unfold build_frames.
  apply for_each_invariant with (P := fun s => Forall ordered_by_distance (frames s)).
  - intros s [i t] s' _ Hs H. apply tick_inv in H.
    destruct H as [->|(snapshot & leader & rest & Hsnap & Hsort & ->)]; auto.
    destruct (detect_driver_finish_fold m i (leader :: rest)
                (detect_leader_finish m i leader s)) as [Hf _].
    rewrite detect_leader_finish_frames in Hf.
    cbn [frames]. rewrite Hf. apply Forall_app. split; [exact Hs|].
    constructor; [|constructor].
    apply frame_ordered with (snapshot := snapshot); auto.
    now rewrite (build_snapshot_codes _ _ _ Hsnap).
  - constructor.
Qed.

(** X15: in every frame of a computed bundle the ranks follow the race
    distance all the way down (a driver ranked before another has at least
    its distance), and the lap of the frame is the lap of the driver ranked
    first. *)
Theorem ranks_follow_the_distance (tyre : string -> Q) (session : Session)
  (out : bundle) (f : frame) :
  compute_race_telemetry tyre session = Ok out ->
  In f (out_frames out) ->
  (forall d d', In d (PyDict.values (fr_drivers f)) ->
                In d' (PyDict.values (fr_drivers f)) ->
                (df_position d < df_position d')%nat -> df_dist d' <= df_dist d)
  /\ (forall d, In d (PyDict.values (fr_drivers f)) ->
                df_position d = 1%nat -> fr_lap f = df_lap d).
Proof.
  intros H Hf. apply compute_stages in H.
  destruct H as (loaded & t_min & t_max & resampled & st
                 & _ & _ & _ & _ & _ & _ & Hnd & _ & Hst & ->).
  pose proof (build_frames_ordered _ _ _ _ Hnd Hst) as Hall.
  rewrite Forall_forall in Hall. exact (Hall f Hf).
Qed.

Lemma ranks_follow_the_distance_witness :
  exists f,
    nth_error (out_frames dnf_output) 3 = Some f
    /\ fr_lap f = 2%Z
    /\ (forall d d', In d (PyDict.values (fr_drivers f)) ->
                     In d' (PyDict.values (fr_drivers f)) ->
                     (df_position d < df_position d')%nat -> df_dist d' <= df_dist d)
    /\ (forall d, In d (PyDict.values (fr_drivers f)) ->
                  df_position d = 1%nat -> fr_lap f = df_lap d).
Proof.
  destruct (nth_error (out_frames dnf_output) 3) as [f|] eqn:E; [|discriminate].
  exists f. split; [reflexivity|].
  split; [inversion E; reflexivity|].
  apply (ranks_follow_the_distance example_tyres dnf_session dnf_output f).
  - vm_compute. reflexivity.
  - now apply nth_error_In in E.
Defined.

(** *** The index of the leader-finish frame *)

Lemma detect_leader_finish_cases (m : PyDict.dict driver_status) (i : nat)
  (leader : car) (st : asm_state) :
  race_leader_finished_frame (detect_leader_finish m i leader st)
  = race_leader_finished_frame st
  \/ (race_leader_finished_frame st = None
      /\ race_leader_finished_frame (detect_leader_finish m i leader st) = Some i).
Proof.
  unfold detect_leader_finish.
  destruct (PyDict.get (car_code leader) m) as [s|]; [|now left].
  destruct (race_leader_finished_frame st) as [k|] eqn:E.
  - rewrite andb_false_r. now left.
  - destruct (laps_completed s <? car_lap leader)%Z; simpl; auto.
Qed.

Lemma tick_keeps_leader_finish_indexed (m : PyDict.dict driver_status)
  (r : PyDict.dict channels) (st st' : asm_state) (i : nat) (t : Q) :
  r <> [] ->
  leader_finish_indexed i st ->
  tick m r st (i, t) = Ok st' ->
  leader_finish_indexed (S i) st'.
Proof.
  intros Hne [Hlen Hst] H.
  apply (tick_appends m r st st' i t Hne) in H.
  destruct H as (snapshot & leader & rest & st2 & _ & _ & Est2 & Hf & _ & Hr).
  assert (Hr2 : race_leader_finished_frame st2
                = race_leader_finished_frame (detect_leader_finish m i leader st)).
  { rewrite Est2.
    apply (proj2 (detect_driver_finish_fold m i (leader :: rest) _)). }
  unfold leader_finish_indexed. rewrite Hf, Hr, length_app, Hlen. simpl length.
  split; [lia|].
  assert (Hnew : fr_leader_finished_frame (frame_of t leader rest st2)
                 = race_leader_finished_frame st2
                 /\ fr_race_finished (frame_of t leader rest st2)
                    = match race_leader_finished_frame st2 with
                      | Some _ => true
                      | None => false
                      end) by (split; reflexivity).
  destruct Hnew as [Hn1 Hn2]. revert Hn1 Hn2.
  generalize (frame_of t leader rest st2). intros F Hn1 Hn2.
  rewrite Hr2 in *.
  destruct (detect_leader_finish_cases m i leader st) as [E|[E1 E2]].
  - rewrite E in *. destruct (race_leader_finished_frame st) as [k|].
    + destruct Hst as [Hk Hall]. split; [lia|]. intros j f Hj.
      apply nth_error_snoc in Hj. destruct Hj as [[_ Hj]|[-> ->]].
      * now apply Hall.
      * rewrite Hlen. destruct (Nat.ltb_spec i k); [lia|]. auto.
    + intros f Hin. apply in_app_or in Hin. destruct Hin as [Hin|[<-|[]]]; auto.
  - rewrite E1 in Hst. rewrite E2 in *. split; [lia|]. intros j f Hj.
    apply nth_error_snoc in Hj. destruct Hj as [[Hlt Hj]|[-> ->]].
    + rewrite Hlen in Hlt. destruct (Nat.ltb_spec j i); [|lia].
      apply Hst. now apply nth_error_In in Hj.
    + rewrite Hlen. rewrite Nat.ltb_irrefl. auto.
Qed.

Lemma build_frames_leader_finish_indexed (m : PyDict.dict driver_status)
  (r : PyDict.dict channels) (timeline : list Q) (st : asm_state) :
  r <> [] ->
  build_frames m r timeline = Ok st ->
  leader_finish_indexed (length timeline) st.
Proof.
  intros Hne. unfold build_frames.
  apply (for_each_indexed leader_finish_indexed (tick m r) timeline).
  - intros j t s s' _ Hs H. now apply (tick_keeps_leader_finish_indexed m r s s' j t).
  - unfold leader_finish_indexed, initial_state. simpl. split; [reflexivity|].
    intros f [].
Qed.

(** X16: the leader-finish index carried by a frame is the index of the
    first frame whose [race_finished] flag is set: it is not after the
    frame, the frame at that index has the flag, and no frame before it
    has. *)
Theorem leader_finished_frame_is_the_first_finished (tyre : string -> Q)
  (session : Session) (out : bundle) (j k : nat) (f : frame) :
  compute_race_telemetry tyre session = Ok out ->
  nth_error (out_frames out) j = Some f ->
  fr_leader_finished_frame f = Some k ->
  (k <= j)%nat
  /\ (exists fk, nth_error (out_frames out) k = Some fk
                 /\ fr_race_finished fk = true)
  /\ (forall i fi, (i < k)%nat -> nth_error (out_frames out) i = Some fi ->
                   fr_race_finished fi = false).
Proof.
  intros H Hj Hk. apply compute_stages in H.
  destruct H as (loaded & t_min & t_max & resampled & st
                 & _ & _ & _ & _ & _ & Hne & _ & _ & Hst & ->).
  cbn [out_frames] in *.
  apply (build_frames_leader_finish_indexed _ _ _ _ Hne) in Hst.
  destruct Hst as [Hlen Hst].
  destruct (race_leader_finished_frame st) as [k'|].
  - destruct Hst as [Hk' Hall].
    pose proof (Hall j f Hj) as Hf.
    destruct (Nat.ltb_spec j k') as [Hlt|Hge].
    + destruct Hf as [Hf _]. congruence.
    + destruct Hf as [Hf _]. rewrite Hf in Hk. inversion Hk. subst k'.
      split; [exact Hge|]. split.
      * destruct (nth_error (frames st) k) as [fk|] eqn:Ek.
        -- exists fk. split; [reflexivity|].
           pose proof (Hall k fk Ek) as Hfk. rewrite Nat.ltb_irrefl in Hfk. tauto.
        -- apply nth_error_None in Ek. lia.
      * intros i fi Hi Hfi. pose proof (Hall i fi Hfi) as H.
        destruct (Nat.ltb_spec i k); [tauto|lia].
  - apply nth_error_In in Hj. destruct (Hst f Hj) as [Hf _]. congruence.
Qed.

Lemma leader_finished_frame_is_the_first_finished_witness :
  exists f,
    nth_error (out_frames dnf_output) 3 = Some f
    /\ (2 <= 3)%nat
    /\ (exists fk, nth_error (out_frames dnf_output) 2 = Some fk
                   /\ fr_race_finished fk = true)
    /\ (forall i fi, (i < 2)%nat -> nth_error (out_frames dnf_output) i = Some fi ->
                     fr_race_finished fi = false).
Proof.
  destruct (nth_error (out_frames dnf_output) 3) as [f|] eqn:E; [|discriminate].
  exists f. split; [reflexivity|].
  apply (leader_finished_frame_is_the_first_finished example_tyres dnf_session
           dnf_output 3 2 f).
  - vm_compute. reflexivity.
  - exact E.
  - inversion E. reflexivity.
Defined.

(** *** The end of the replay, on the frames of the pipeline *)

Lemma last_frame_flag (n : nat) (st : asm_state) (f : frame) :
  leader_finish_indexed n st ->
  nth_error (frames st) (n - 1) = Some f ->
  fr_race_finished f = existsb fr_race_finished (frames st).
Proof.
  intros [Hlen Hst] Hf.
  destruct (race_leader_finished_frame st) as [k|].
  - destruct Hst as [Hk Hall].
    pose proof (Hall _ f Hf) as H.
    destruct (Nat.ltb_spec (n - 1) k); [lia|]. destruct H as [_ H]. rewrite H.
    symmetry. apply existsb_exists. exists f. split; [|exact H].
    now apply nth_error_In in Hf.
  - pose proof (Hst f (nth_error_In _ _ Hf)) as [_ H]. rewrite H.
    symmetry. apply not_true_is_false. intros E.
    apply existsb_exists in E. destruct E as [g [Hg E]].
    destruct (Hst g Hg) as [_ Hg']. congruence.
Qed.

(** X17: on the frames of a computed bundle that has a frame,
    [should_verify_leaderboard] at the last frame returns without raising,
    and answers [True] exactly when some frame of the bundle has the
    [race_finished] flag set. *)
Theorem replay_verifies_once_the_leader_has_finished (tyre : string -> Q)
  (session : Session) (out : bundle) :
  compute_race_telemetry tyre session = Ok out ->
  out_frames out <> [] ->
  Replay.should_verify_leaderboard ReplaySpec.race_finished (out_frames out)
    (ReplaySpec.last_index (out_frames out))
  = Ok (existsb fr_race_finished (out_frames out)).
Proof.
  intros H Hfs. apply compute_stages in H.
  destruct H as (loaded & t_min & t_max & resampled & st
                 & _ & _ & _ & _ & _ & Hne & _ & _ & Hst & ->).
  cbn [out_frames] in *.
  apply (build_frames_leader_finish_indexed _ _ _ _ Hne) in Hst.
  pose proof Hst as [Hlen _].
  assert (Hpos : (0 < length (frames st))%nat) by now apply nonempty_length.
  unfold Replay.should_verify_leaderboard, ReplaySpec.last_index.
  rewrite Z.ltb_irrefl.
  destruct (ReplayProofs.list_item_in_range (frames st)
              (Z.of_nat (length (frames st)) - 1)) as (f & -> & Hf); [lia|].
  cbn [bind]. unfold ReplaySpec.race_finished, get_or. f_equal.
  apply (last_frame_flag (length (timeline_grid t_min t_max)) st f Hst).
  rewrite <- Hlen.
  replace (length (frames st) - 1)%nat
    with (Z.to_nat (Z.of_nat (length (frames st)) - 1)) by lia.
  exact Hf.
Qed.

Lemma replay_verifies_once_the_leader_has_finished_witness :
  Replay.should_verify_leaderboard ReplaySpec.race_finished (out_frames dnf_output)
    (ReplaySpec.last_index (out_frames dnf_output))
  = Ok (existsb fr_race_finished (out_frames dnf_output)).
Proof.
  apply (replay_verifies_once_the_leader_has_finished example_tyres dnf_session
           dnf_output).
  - vm_compute. reflexivity.
  - discriminate.
Defined.

(** *** The recorded finish frames *)

Lemma get_set_cases {V : Type} (k k' : string) (v w : V) (d : PyDict.dict V) :
  PyDict.get k (PyDict.set k' v d) = Some w ->
  (k = k' /\ w = v) \/ (k <> k' /\ PyDict.get k d = Some w).
Proof.
  destruct (string_dec k k') as [->|Hne].
  - rewrite get_set_same. intros H. inversion H. auto.
  - rewrite get_set_other by exact Hne. auto.
Qed.

Lemma get_in_nodup {V : Type} (k : string) (v : V) (d : PyDict.dict V) :
  NoDup (PyDict.keys d) -> In (k, v) d -> PyDict.get k d = Some v.
Proof.
  induction d as [|[k0 v0] d IH]; simpl; intros Hnd Hin; [destruct Hin|].
  inversion Hnd as [|? ? Hout Hnd']; subst.
  destruct Hin as [E|Hin].
  - inversion E. subst. now rewrite String.eqb_refl.
  - destruct (String.eqb k k0) eqn:E.
    + apply String.eqb_eq in E. subst k0. exfalso. apply Hout.
      apply (in_map fst) in Hin. exact Hin.
    + now apply IH.
Qed.

Lemma in_enumerate {A : Type} (l : list A) (a : A) :
  In a l -> exists idx, In (idx, a) (enumerate l).
Proof.
  unfold enumerate. generalize 0%nat.
  induction l as [|x l IH]; intros start Hin; [destruct Hin|].
  simpl. destruct Hin as [->|Hin].
  - exists start. now left.
  - destruct (IH (S start) Hin) as [idx Hidx]. exists idx. now right.
Qed.

Lemma detect_leader_finish_entry (m : PyDict.dict driver_status) (i : nat)
  (leader : car) (st : asm_state) (c : string) (k : nat) :
  PyDict.get c (driver_finish_frame (detect_leader_finish m i leader st)) = Some k ->
  PyDict.get c (driver_finish_frame st) = Some k
  \/ (k = i /\ c = car_code leader
      /\ exists s, PyDict.get c m = Some s
                   /\ (laps_completed s < car_lap leader)%Z
                   /\ race_leader_finished_frame (detect_leader_finish m i leader st)
                      = Some i).
Proof.
  unfold detect_leader_finish.
  destruct (PyDict.get (car_code leader) m) as [s|] eqn:Es; [|now left].
  destruct (laps_completed s <? car_lap leader)%Z eqn:El; simpl; [|now left].
  destruct (race_leader_finished_frame st) as [k0|]; simpl; [now left|].
  intros H. apply get_set_cases in H. destruct H as [[-> ->]|[_ H]]; [|now left].
  right. split; [reflexivity|]. split; [reflexivity|].
  exists s. split; [exact Es|]. split; [now apply Z.ltb_lt|reflexivity].
Qed.

Lemma detect_driver_finish_entry (m : PyDict.dict driver_status) (i : nat)
  (st : asm_state) (x : car) (c : string) (k : nat) :
  PyDict.get c (driver_finish_frame (detect_driver_finish m i st x)) = Some k ->
  PyDict.get c (driver_finish_frame st) = Some k
  \/ (k = i /\ c = car_code x
      /\ exists s, PyDict.get c m = Some s
                   /\ (laps_completed s < car_lap x)%Z
                   /\ is_finished s = true).
Proof.
  unfold detect_driver_finish. cbn [driver_finish_frame].
  destruct (PyDict.get (car_code x) m) as [s|] eqn:Es; [|now left].
  destruct (laps_completed s <? car_lap x)%Z eqn:El; simpl; [|now left].
  destruct (negb (PyDict.mem (car_code x) (driver_finish_frame st))); [|now left].
  destruct (is_finished s) eqn:Ef; [|now left].
  intros H. apply get_set_cases in H. destruct H as [[-> ->]|[_ H]]; [|now left].
  right. split; [reflexivity|]. split; [reflexivity|].
  exists s. split; [exact Es|]. split; [now apply Z.ltb_lt|exact Ef].
Qed.

Lemma detect_driver_finish_fold_entry (m : PyDict.dict driver_status) (i : nat)
  (cs : list car) (st : asm_state) (c : string) (k : nat) :
  PyDict.get c (driver_finish_frame (fold_left (detect_driver_finish m i) cs st))
  = Some k ->
  PyDict.get c (driver_finish_frame st) = Some k
  \/ (k = i
      /\ exists x s, In x cs /\ car_code x = c
                     /\ PyDict.get c m = Some s
                     /\ (laps_completed s < car_lap x)%Z
                     /\ is_finished s = true).
Proof.
  revert st. induction cs as [|x cs IH]; intros st H; simpl in H; [now left|].
  apply IH in H. destruct H as [H|(-> & y & s & Hy & Hc & Hs & Hl & Hf)].
  - apply detect_driver_finish_entry in H.
    destruct H as [H|(-> & -> & s & Hs & Hl & Hf)]; [now left|].
    right. split; [reflexivity|]. exists x, s. simpl. auto.
  - right. split; [reflexivity|]. exists y, s. simpl. auto.
Qed.

Lemma finish_entry_ok_app (m : PyDict.dict driver_status) (fs : list frame)
  (f : frame) (c : string) (k : nat) :
  finish_entry_ok m fs c k -> finish_entry_ok m (fs ++ [f]) c k.
Proof.
  intros (fk & d & s & Hk & H). exists fk, d, s. split; [|exact H].
  rewrite nth_error_app1; [exact Hk|].
  apply nth_error_Some. congruence.
Qed.

(** The row written for a car of the sorted snapshot. *)
Lemma frame_row_of_car (t : Q) (leader : car) (rest : list car) (st : asm_state)
  (idx : nat) (x : car) :
  NoDup (map car_code (leader :: rest)) ->
  In (idx, x) (enumerate (leader :: rest)) ->
  exists d,
    PyDict.get (car_code x) (fr_drivers (frame_of t leader rest st)) = Some d
    /\ df_lap d = car_lap x /\ df_position d = (idx + 1)%nat.
Proof.
  intros Hnd Hin. unfold frame_of. cbn [fr_drivers].
  rewrite build_frame_data_rows by exact Hnd.
  exists (snd (frame_row (idx, x))). split; [|split; reflexivity].
  apply get_in_nodup.
  - now rewrite frame_rows_keys.
  - apply (in_map frame_row) in Hin. exact Hin.
Qed.

Lemma tick_keeps_finish_frames_recorded (m : PyDict.dict driver_status)
  (r : PyDict.dict channels) (st st' : asm_state) (i : nat) (t : Q) :
  r <> [] -> NoDup (PyDict.keys r) ->
  finish_frames_recorded m i st ->
  tick m r st (i, t) = Ok st' ->
  finish_frames_recorded m (S i) st'.
Proof.
  intros Hne Hnd [Hlen Hst] H.
  apply (tick_appends m r st st' i t Hne) in H.
  destruct H as (snapshot & leader & rest & st2 & Hsnap & Hsort & Est2 & Hf & Hd & _).
  destruct (frame_of_keys i t r snapshot leader rest st2 Hnd Hsnap Hsort)
    as (Hnd' & _ & _).
  unfold finish_frames_recorded. rewrite Hf, Hd, length_app, Hlen. simpl length.
  split; [lia|]. intros c k Hk.
  assert (Hnth : nth_error (frames st ++ [frame_of t leader rest st2]) i
                 = Some (frame_of t leader rest st2)).
  { rewrite nth_error_app2 by lia. rewrite Hlen, Nat.sub_diag. reflexivity. }
  rewrite Est2 in Hk. apply detect_driver_finish_fold_entry in Hk.
  destruct Hk as [Hk|(-> & x & s & Hx & Hc & Hs & Hl & Hfin)].
  - apply detect_leader_finish_entry in Hk.
    destruct Hk as [Hk|(-> & -> & s & Hs & Hl & Hlead)].
    + apply finish_entry_ok_app. now apply Hst.
    + destruct (frame_row_of_car t leader rest st2 0%nat leader Hnd')
        as (d & Hget & Hlap & Hpos); [now left|].
      exists (frame_of t leader rest st2), d, s.
      split; [exact Hnth|]. split; [exact Hget|]. split; [exact Hs|].
      split; [now rewrite Hlap|]. right. split; [exact Hpos|].
      unfold frame_of. cbn [fr_leader_finished_frame]. rewrite Est2.
      rewrite (proj2 (detect_driver_finish_fold m i (leader :: rest) _)).
      exact Hlead.
  - destruct (in_enumerate _ _ Hx) as [idx Hidx].
    destruct (frame_row_of_car t leader rest st2 idx x Hnd' Hidx)
      as (d & Hget & Hlap & _).
    exists (frame_of t leader rest st2), d, s.
    rewrite Hc in Hget.
    split; [exact Hnth|]. split; [exact Hget|]. split; [exact Hs|].
    split; [now rewrite Hlap|]. now left.
Qed.

Lemma build_frames_finish_frames_recorded (m : PyDict.dict driver_status)
  (r : PyDict.dict channels) (timeline : list Q) (st : asm_state) :
  r <> [] -> NoDup (PyDict.keys r) ->
  build_frames m r timeline = Ok st ->
  finish_frames_recorded m (length timeline) st.
Proof.
  intros Hne Hnd. unfold build_frames.
  apply (for_each_indexed (finish_frames_recorded m) (tick m r) timeline).
  - intros j t s s' _ Hs H.
    now apply (tick_keeps_finish_frames_recorded m r s s' j t).
  - unfold finish_frames_recorded, initial_state. simpl. split; [reflexivity|].
    intros c k H. discriminate.
Qed.

(** X18: a finish frame recorded for a driver is the index of a frame of
    the bundle in which that driver is in a lap beyond its official lap
    count; the driver is classified as finished, or else it is ranked
    first in that frame and the frame is the leader-finish frame. *)
Theorem finish_frames_point_at_the_extra_lap (tyre : string -> Q)
  (session : Session) (out : bundle) (c : string) (k : nat) :
  compute_race_telemetry tyre session = Ok out ->
  PyDict.get c (out_driver_finish_frames out) = Some k ->
  exists f d s,
    nth_error (out_frames out) k = Some f
    /\ PyDict.get c (fr_drivers f) = Some d
    /\ PyDict.get c (out_driver_status out) = Some s
    /\ (laps_completed s < df_lap d)%Z
    /\ (is_finished s = true
        \/ (df_position d = 1%nat /\ fr_leader_finished_frame f = Some k)).
Proof.
  intros H Hk. apply compute_stages in H.
  destruct H as (loaded & t_min & t_max & resampled & st
                 & _ & _ & _ & _ & _ & Hne & Hnd & _ & Hst & ->).
  cbn [out_frames out_driver_finish_frames out_driver_status] in *.
  apply (build_frames_finish_frames_recorded _ _ _ _ Hne Hnd) in Hst.
  destruct Hst as [_ Hall]. exact (Hall c k Hk).
Qed.

Lemma finish_frames_point_at_the_extra_lap_witness :
  exists f d s,
    nth_error (out_frames dnf_output) 2 = Some f
    /\ PyDict.get "VER" (fr_drivers f) = Some d
    /\ PyDict.get "VER" (out_driver_status dnf_output) = Some s
    /\ (laps_completed s < df_lap d)%Z
    /\ (is_finished s = true
        \/ (df_position d = 1%nat /\ fr_leader_finished_frame f = Some 2%nat)).
Proof.
  apply (finish_frames_point_at_the_extra_lap example_tyres dnf_session dnf_output
           "VER" 2).
  - vm_compute. reflexivity.
  - reflexivity.
Defined.

(** *** Sorting by time keeps the samples *)


(** *** Race distances are not negative *)

Lemma lap_step_dist (tyre : string -> Q) (acc acc' : lap_acc) (lap : Lap) :
  lap_step tyre acc lap = Ok acc' ->
  0 <= total_dist_so_far acc ->
  Forall (fun c => Forall (Qle 0) (ch_dist c)) (all_laps acc) ->
  0 <= total_dist_so_far acc'
  /\ Forall (fun c => Forall (Qle 0) (ch_dist c)) (all_laps acc').
Proof.
  intros H Htot Hall.
  destruct (get_telemetry lap) as [|s0 tel] eqn:E.
  - unfold lap_step in H. rewrite E in H. inversion H. subst acc'. auto.
  - destruct (lap_step_spec tyre acc lap) as [m [len [Hmin [Hmax Hstep]]]];
      [rewrite E; discriminate|].
    rewrite Hstep in H. inversion H. clear H Hstep. cbn [total_dist_so_far all_laps].
    destruct Hmin as [_ Hlow]. destruct Hmax as [Hin Hhigh].
    assert (Hshift : forall v, In v (map (fun d => d - m) (map Distance (get_telemetry lap)))
                               -> 0 <= v).
    { intros v Hv. apply in_map_iff in Hv. destruct Hv as [d [<- Hd]].
      apply Hlow in Hd. lra. }
    split.
    + apply Hshift in Hin. lra.
    + apply Forall_app. split; [exact Hall|]. constructor; [|constructor].
      cbn [ch_dist]. apply Forall_forall. intros v Hv.
      apply in_map_iff in Hv. destruct Hv as [d [<- Hd]].
      apply Hshift in Hd. lra.
Qed.

Lemma driver_trace_dist (tyre : string -> Q) (laps : list Lap) (trace : channels) :
  driver_trace tyre laps = Ok (Some trace) -> Forall (Qle 0) (ch_dist trace).
Proof.
  intros H. apply driver_trace_inv in H. destruct H as (merged & Hm & Hre).
  unfold merged_trace, normalise_laps in Hm.
  destruct (for_each (lap_step tyre) laps
              {| all_laps := []; total_dist_so_far := 0 |}) as [acc|e] eqn:E;
    [|discriminate].
  cbn [bind] in Hm. inversion Hm. subst merged. clear Hm.
  assert (Hacc : 0 <= total_dist_so_far acc
                 /\ Forall (fun c => Forall (Qle 0) (ch_dist c)) (all_laps acc)).
  { revert E.
    apply for_each_invariant
      with (P := fun a => 0 <= total_dist_so_far a
                          /\ Forall (fun c => Forall (Qle 0) (ch_dist c)) (all_laps a)).
    - intros a lap a' _ [Ht Ha] Hs. now apply (lap_step_dist tyre a a' lap).
    - simpl. split; [lra|constructor]. }
  destruct Hacc as [_ Hall].
  apply reorder_channels in Hre. destruct Hre as (_ & _ & _ & Hd & _).
  apply Forall_forall. intros v Hv.
  apply (take_in _ _ _ v Hd) in Hv. cbn [concatenate ch_dist] in Hv.
  apply in_concat in Hv. destruct Hv as (l & Hl & Hv).
  apply in_map_iff in Hl. destruct Hl as (c & <- & Hc).
  rewrite Forall_forall in Hall. specialize (Hall c Hc).
  rewrite Forall_forall in Hall. now apply Hall.
Qed.

Lemma load_drivers_dist (tyre : string -> Q) (session : Session) (loaded : load_state) :
  load_drivers tyre session = Ok loaded ->
  Forall (fun kv => Forall (Qle 0) (ch_dist (snd kv))) (driver_data loaded).
Proof.
  unfold load_drivers.
  apply for_each_invariant
    with (P := fun s => Forall (fun kv => Forall (Qle 0) (ch_dist (snd kv)))
                          (driver_data s)).
  - intros s n s' _ Hs H. apply load_driver_inv in H.
    destruct H as [[_ ->]|(data & t_min & t_max & Hrun & _ & _ & _ & ->)]; auto.
    cbn [driver_data]. apply Forall_forall. intros kv Hkv.
    apply set_entries in Hkv. destruct Hkv as [->|Hkv].
    + simpl. now apply (driver_trace_dist tyre _ _ Hrun).
    + rewrite Forall_forall in Hs. now apply Hs.
  - constructor.
Qed.

(** Between two sample points the interpolated value is between the two
    sampled values. *)
Lemma lerp_lower (lo t0 t1 x a b : Q) :
  t0 < x -> x < t1 -> lo <= a -> lo <= b ->
  lo <= (b - a) / (t1 - t0) * (x - t0) + a.
Proof.
  intros H0 H1 Ha Hb.
  assert (E : (b - a) / (t1 - t0) * (x - t0) + a
              == lo + ((x - t0) * (b - lo) + (t1 - x) * (a - lo)) / (t1 - t0)).
  { field. lra. }
  rewrite E.
  assert (Hn : 0 <= (x - t0) * (b - lo) + (t1 - x) * (a - lo)).
  { assert (0 <= (x - t0) * (b - lo)) by (apply Qmult_le_0_compat; lra).
    assert (0 <= (t1 - x) * (a - lo)) by (apply Qmult_le_0_compat; lra).
    lra. }
  assert (Hq : 0 <= ((x - t0) * (b - lo) + (t1 - x) * (a - lo)) / (t1 - t0)).
  { apply Qle_shift_div_l; lra. }
  lra.
Qed.

Lemma interp_from_lower (lo x : Q) (ks : list (Q * Q)) (k0 : Q * Q) :
  fst k0 <= x -> lo <= snd k0 -> Forall (fun k => lo <= snd k) ks ->
  lo <= Np.interp_from x k0 ks.
Proof.
  revert k0. induction ks as [|k1 ks IH]; intros k0 Hx H0 Hall; simpl; auto.
  inversion Hall as [|? ? H1 Hall']; subst.
  destruct (Qle_bool (fst k1) x) eqn:E1.
  - apply IH; auto. now apply Qle_bool_iff.
  - destruct (Qeq_bool (fst k0) x) eqn:E0; [exact H0|].
    apply lerp_lower; auto.
    + apply Qeq_bool_neq in E0. destruct (Qlt_le_dec (fst k0) x) as [Hlt|Hge]; auto.
      exfalso. apply E0. now apply Qle_antisym.
    + apply Qnot_le_lt. intros H. apply Qle_bool_iff in H. congruence.
Qed.

Lemma interp_lower (lo : Q) (x xp fp vs : list Q) :
  Np.interp x xp fp = Ok vs -> Forall (Qle lo) fp -> Forall (Qle lo) vs.
Proof.
  unfold Np.interp. intros H Hfp.
  assert (Hks : Forall (fun k => lo <= snd k) (combine xp fp)).
  { apply Forall_forall. intros [t v] Hin. apply in_combine_r in Hin.
    rewrite Forall_forall in Hfp. now apply Hfp. }
  destruct (combine xp fp) as [|k0 ks]; [discriminate|].
  destruct (length xp =? length fp)%nat; [|discriminate].
  inversion H. inversion Hks as [|? ? H0 Hall]; subst.
  apply Forall_map, Forall_forall. intros t _. unfold Np.interp_at.
  destruct (Qle_bool (fst k0) t) eqn:E; [|exact H0].
  apply interp_from_lower; auto. now apply Qle_bool_iff.
Qed.

Lemma resample_driver_dist (timeline : list Q) (t_min : Q)
  (acc acc' : PyDict.dict channels) (code : string) (data : channels) :
  resample_driver timeline t_min acc (code, data) = Ok acc' ->
  Forall (Qle 0) (ch_dist data) ->
  exists resampled,
    acc' = PyDict.set code resampled acc /\ Forall (Qle 0) (ch_dist resampled).
Proof.
  unfold resample_driver. intros H Hd.
  match type of H with
  | bind ?m _ = _ => destruct m as [sorted|] eqn:Hre; [cbn [bind] in H|discriminate]
  end.
  apply reorder_channels in Hre. destruct Hre as (_ & _ & _ & Hdist & _).
  cbn [ch_dist] in Hdist.
  assert (Hs : Forall (Qle 0) (ch_dist sorted)).
  { apply Forall_forall. intros v Hv. apply (take_in _ _ _ v Hdist) in Hv.
    rewrite Forall_forall in Hd. now apply Hd. }
  destruct (Np.interp timeline (ch_t sorted) (ch_x sorted)); [cbn [bind] in H|discriminate].
  destruct (Np.interp timeline (ch_t sorted) (ch_y sorted)); [cbn [bind] in H|discriminate].
  destruct (Np.interp timeline (ch_t sorted) (ch_dist sorted)) as [dist|] eqn:Ed;
    [cbn [bind] in H|discriminate].
  repeat match type of H with
         | bind ?m _ = _ => destruct m; [cbn [bind] in H|discriminate]
         end.
  inversion H. eexists. split; [reflexivity|]. cbn [ch_dist].
  now apply (interp_lower 0 _ _ _ _ Ed).
Qed.

Lemma resample_dist (timeline : list Q) (t_min : Q)
  (driver_data resampled : PyDict.dict channels) :
  resample timeline t_min driver_data = Ok resampled ->
  Forall (fun kv => Forall (Qle 0) (ch_dist (snd kv))) driver_data ->
  Forall (fun kv => Forall (Qle 0) (ch_dist (snd kv))) resampled.
Proof.
  unfold resample, PyDict.items. intros H Hd.
  revert H.
  apply for_each_invariant
    with (P := fun d => Forall (fun kv => Forall (Qle 0) (ch_dist (snd kv))) d).
  - intros acc [code data] acc' Hin Hacc H.
    rewrite Forall_forall in Hd. specialize (Hd _ Hin). simpl in Hd.
    destruct (resample_driver_dist _ _ _ _ _ _ H Hd) as (ch & -> & Hch).
    apply Forall_forall. intros kv Hkv. apply set_entries in Hkv.
    destruct Hkv as [->|Hkv]; [exact Hch|].
    rewrite Forall_forall in Hacc. now apply Hacc.
  - constructor.
Qed.

Lemma snapshot_entry_dist (i : nat) (code : string) (d : channels) (x : car) :
  snapshot_entry i (code, d) = Ok x -> In (car_dist x) (ch_dist d).
Proof.
  unfold snapshot_entry. intros H.
  unfold Np.item at 1 in H.
  destruct (nth_error (ch_dist d) i) as [v|] eqn:E; [cbn [bind] in H|discriminate].
  repeat match type of H with
         | bind ?m _ = _ => destruct m; [cbn [bind] in H|discriminate]
         end.
  inversion H. cbn [car_dist]. now apply nth_error_In in E.
Qed.

Lemma build_snapshot_dist (i : nat) (entries : list (string * channels))
  (snapshot : list car) :
  build_snapshot i entries = Ok snapshot ->
  Forall (fun kv => Forall (Qle 0) (ch_dist (snd kv))) entries ->
  Forall (fun x => 0 <= car_dist x) snapshot.
Proof.
  revert snapshot. induction entries as [|[c d] entries IH]; intros snapshot H He.
  - inversion H. constructor.
  - change (build_snapshot i ((c, d) :: entries))
      with (entry <- snapshot_entry i (c, d) ;;
            cs <- build_snapshot i entries ;; Ok (entry :: cs)) in H.
    destruct (snapshot_entry i (c, d)) as [x|e] eqn:E; [|discriminate].
    cbn [bind] in H.
    destruct (build_snapshot i entries) as [cs|e]; [|discriminate].
    cbn [bind] in H. inversion H. inversion He as [|? ? Hd He']; subst.
    constructor; [|now apply IH].
    apply snapshot_entry_dist in E. simpl in Hd.
    rewrite Forall_forall in Hd. now apply Hd.
Qed.

Lemma build_frames_dist (m : PyDict.dict driver_status) (r : PyDict.dict channels)
  (timeline : list Q) (st : asm_state) :
  NoDup (PyDict.keys r) ->
  Forall (fun kv => Forall (Qle 0) (ch_dist (snd kv))) r ->
  build_frames m r timeline = Ok st ->
  Forall (fun f => Forall (fun d => 0 <= df_dist d) (PyDict.values (fr_drivers f)))
    (frames st).
Proof.
  intros Hnd Hr. unfold build_frames.
  apply for_each_invariant
    with (P := fun s => Forall (fun f => Forall (fun d => 0 <= df_dist d)
                                           (PyDict.values (fr_drivers f))) (frames s)).
  - intros s [i t] s' _ Hs H. apply tick_inv in H.
    destruct H as [->|(snapshot & leader & rest & Hsnap & Hsort & ->)]; auto.
    destruct (detect_driver_finish_fold m i (leader :: rest)
                (detect_leader_finish m i leader s)) as [Hf _].
    rewrite detect_leader_finish_frames in Hf.
    cbn [frames]. rewrite Hf. apply Forall_app. split; [exact Hs|].
    constructor; [|constructor].
    destruct (frame_of_keys i t r snapshot leader rest
                (fold_left (detect_driver_finish m i) (leader :: rest)
                   (detect_leader_finish m i leader s)) Hnd Hsnap Hsort)
      as (_ & _ & ->).
    apply (build_snapshot_dist _ _ _ Hsnap) in Hr.
    assert (Hl : Forall (fun x => 0 <= car_dist x) (leader :: rest)).
    { rewrite <- Hsort. unfold sort_by_dist.
      apply (Permutation_Forall (Permutation_sym (stable_sort_perm _ snapshot))).
      exact Hr. }
    unfold PyDict.values. rewrite map_map. apply Forall_map, Forall_forall.
    intros [idx x] Hin. apply in_combine_r in Hin. simpl.
    rewrite Forall_forall in Hl. now apply Hl.
  - constructor.
Qed.

(** X20: no row of a frame of a computed bundle has a negative race
    distance, whatever the in-lap distances of the telemetry are: the lap
    normaliser starts every lap at the running total, and neither the sort
    by time nor the interpolation onto the timeline leaves the range of
    the values. *)
Theorem frame_distances_are_not_negative (tyre : string -> Q) (session : Session)
  (out : bundle) (f : frame) (d : driver_frame) :
  compute_race_telemetry tyre session = Ok out ->
  In f (out_frames out) ->
  In d (PyDict.values (fr_drivers f)) ->
  0 <= df_dist d.
Proof.
  intros H Hf Hd. apply compute_stages in H.
  destruct H as (loaded & t_min & t_max & resampled & st
                 & Hload & _ & _ & _ & Hres & _ & Hnd & _ & Hst & ->).
  cbn [out_frames] in Hf.
  apply load_drivers_dist in Hload.
  apply (resample_dist _ _ _ _ Hres) in Hload.
  pose proof (build_frames_dist _ _ _ _ Hnd Hload Hst) as Hall.
  rewrite Forall_forall in Hall. specialize (Hall f Hf).
  rewrite Forall_forall in Hall. now apply Hall.
Qed.

Lemma frame_distances_are_not_negative_witness :
  exists f d,
    nth_error (out_frames dnf_output) 3 = Some f
    /\ PyDict.get "HAM" (fr_drivers f) = Some d
    /\ 0 <= df_dist d.
Proof.
  destruct (nth_error (out_frames dnf_output) 3) as [f|] eqn:E; [|discriminate].
  destruct (PyDict.get "HAM" (fr_drivers f)) as [d|] eqn:Ed;
    [|inversion E; subst f; discriminate].
  exists f, d. split; [reflexivity|]. split; [exact Ed|].
  apply (frame_distances_are_not_negative example_tyres dnf_session dnf_output f d).
  - vm_compute. reflexivity.
  - now apply nth_error_In in E.
  - inversion E. subst f. inversion Ed. subst d. simpl. right. left. reflexivity.
Defined.

End PipelineProofs.
